(** * fb0rfb: a framebuffer-to-RFB server, embedded from [fb0rfb.c]

    The C program is one translation unit: two reliable-transfer helpers
    ([write_all], [read_all]), a sleep helper ([msleep]) and [main], which
    holds the accept loop, the RFB 3.8 handshake, the client-message loop
    and the frame pump.

    The embedding is shallow.  Every system call the program makes on the
    client socket is answered by a _kernel script_: one list of answers per
    call kind ([write], [read], the zero-timeout [select]).  A function of
    the model consumes the answers it needs and returns the list of system
    calls it made, in order, together with its C result.  When a script is
    exhausted the run is [Pending]: the process is still inside that call
    and nothing more is observed.  Loops recurse on the script they consume,
    so every definition is total and can be evaluated. *)

From Stdlib Require Import String Ascii ZArith List Bool Lia.
Import ListNotations.
Open Scope Z_scope.

(** ** Bytes and byte order

    A byte is a [Z] in [0..255].  The target (an ARM SoC) is little-endian:
    an integer object is laid out in memory least significant byte first,
    and [htons]/[htonl] swap bytes. *)

Definition byte := Z.

Definition u8 (x : Z) : Z := Z.land x 255.
Definition u16 (x : Z) : Z := Z.land x 65535.
Definition u32 (x : Z) : Z := Z.land x 4294967295.

Definition htons (x : Z) : Z :=
  Z.lor (Z.shiftl (Z.land x 255) 8) (Z.land (Z.shiftr x 8) 255).

Definition htonl (x : Z) : Z :=
  Z.lor (Z.lor (Z.shiftl (Z.land x 255) 24)
               (Z.shiftl (Z.land (Z.shiftr x 8) 255) 16))
        (Z.lor (Z.shiftl (Z.land (Z.shiftr x 16) 255) 8)
               (Z.land (Z.shiftr x 24) 255)).

Definition ntohs := htons.
Definition ntohl := htonl.

(** Object representation of a [uint16_t] / [uint32_t] in memory. *)
Definition mem16 (v : Z) : list byte :=
  [Z.land v 255; Z.land (Z.shiftr v 8) 255].

Definition mem32 (v : Z) : list byte :=
  [Z.land v 255; Z.land (Z.shiftr v 8) 255;
   Z.land (Z.shiftr v 16) 255; Z.land (Z.shiftr v 24) 255].

(** Value of a [uint16_t] / [uint32_t] whose memory holds the given bytes. *)
Definition load16 (bs : list byte) : Z :=
  Z.lor (u8 (nth 0 bs 0)) (Z.shiftl (u8 (nth 1 bs 0)) 8).

Definition load32 (bs : list byte) : Z :=
  Z.lor (Z.lor (u8 (nth 0 bs 0)) (Z.shiftl (u8 (nth 1 bs 0)) 8))
        (Z.lor (Z.shiftl (u8 (nth 2 bs 0)) 16) (Z.shiftl (u8 (nth 3 bs 0)) 24)).

(** Big-endian (network order) encodings, as the RFB wire format has them. *)
Definition be16 (x : Z) : list byte := [(x / 256) mod 256; x mod 256].

Definition be32 (x : Z) : list byte :=
  [(x / 16777216) mod 256; (x / 65536) mod 256; (x / 256) mod 256; x mod 256].

Definition bytes_of_string (s : string) : list byte :=
  map (fun c => Z.of_N (N_of_ascii c)) (list_ascii_of_string s).

Definition strlen (s : string) : Z := Z.of_nat (String.length s).

(** ** The kernel script *)

Definition EINTR : Z := 4.
Definition EPIPE : Z := 32.

(** Answer to one [write(fd, p, len)]: the kernel takes up to [k] bytes, or
    fails with an [errno]. *)
Inductive wr_resp : Type :=
| WrAccept (k : nat)
| WrFail (errno : Z).

(** Answer to one [read(fd, p, len)]: the kernel delivers the bytes [bs]
    (none: end of stream), or fails with an [errno]. *)
Inductive rd_resp : Type :=
| RdData (bs : list byte)
| RdFail (errno : Z).

(** Answer to the zero-timeout [select] on the client socket. *)
Inductive sel_resp : Type :=
| SelReadable
| SelIdle
| SelFail (errno : Z).

Record world : Type := mkWorld { rdq : list rd_resp; wrq : list wr_resp }.

(** Return value and [errno] of [write]; never more than [len] bytes. *)
Definition sys_write (r : wr_resp) (p : list byte) : Z * Z :=
  match r with
  | WrAccept k => (Z.of_nat (Nat.min k (length p)), 0)
  | WrFail e => (-1, e)
  end.

(** Return value, [errno] and delivered bytes of [read]; never more than
    [len] bytes. *)
Definition sys_read (r : rd_resp) (len : Z) : Z * Z * list byte :=
  match r with
  | RdData bs =>
      let d := firstn (Z.to_nat len) bs in (Z.of_nat (length d), 0, d)
  | RdFail e => (-1, e, [])
  end.

(** Return value, [errno] and [FD_ISSET(c, &rfds)] of [select]. *)
Definition sys_select (r : sel_resp) : Z * Z * bool :=
  match r with
  | SelReadable => (1, 0, true)
  | SelIdle => (0, 0, false)
  | SelFail e => (-1, e, false)
  end.

(** ** Observable system calls *)

Inductive event : Type :=
| EvWrite (p : list byte) (n : Z)   (* write(c, p, |p|) returned n *)
| EvRead (len : Z) (n : Z)          (* read(c, _, len) returned n *)
| EvSelect (r : Z)                  (* select(c+1, {c}, 0, 0, {0,0}) returned r *)
| EvSleep (ms : Z)                  (* msleep(ms) *)
| EvFree                            (* free(linebuf) *)
| EvClose.                          (* close(c) *)

(** Bytes that reached the client through one call. *)
Definition sent_of (e : event) : list byte :=
  match e with
  | EvWrite p n => firstn (Z.to_nat n) p
  | _ => []
  end.

Definition sent (evs : list event) : list byte := flat_map sent_of evs.

Definition is_write (e : event) : bool :=
  match e with EvWrite _ _ => true | _ => false end.

Definition is_sleep (e : event) : bool :=
  match e with EvSleep _ => true | _ => false end.

Definition is_select (e : event) : bool :=
  match e with EvSelect _ => true | _ => false end.

Definition is_read (e : event) : bool :=
  match e with EvRead _ _ => true | _ => false end.

(** ** A small monad: calls made so far, and a result unless pending *)

Inductive res (A : Type) : Type :=
| Val (a : A) (w : world)
| Pending.
Arguments Val {A} a w.
Arguments Pending {A}.

Definition io (A : Type) : Type := world -> list event * res A.

Definition ret {A} (a : A) : io A := fun w => ([], Val a w).

Definition bind {A B} (m : io A) (f : A -> io B) : io B :=
  fun w =>
    match m w with
    | (e1, Val a w1) => let (e2, r) := f a w1 in (e1 ++ e2, r)
    | (e1, Pending) => (e1, Pending)
    end.

Definition emit (e : event) : io unit := fun w => ([e], Val tt w).

Notation "x <- m ;; k" := (bind m (fun x => k))
  (at level 61, m at next level, right associativity).
Notation "m ;;; k" := (bind m (fun _ => k))
  (at level 61, right associativity).

(** ** [write_all] and [read_all] *)

(** The [while (len)] loop of [write_all]; [p] is what remains to be
    written, [len] its length. *)
Fixpoint write_loop (q : list wr_resp) (p : list byte)
  : list event * option (Z * list wr_resp) :=
  match p with
  | [] => ([], Some (0, q))
  | _ :: _ =>
      match q with
      | [] => ([], None)
      | r :: q' =>
          let (n, errno) := sys_write r p in
          if n <? 0 then
            if errno =? EINTR then
              let (evs, o) := write_loop q' p in (EvWrite p n :: evs, o)
            else ([EvWrite p n], Some (-1, q'))
          else if n =? 0 then ([EvWrite p n], Some (-1, q'))
          else
            let (evs, o) := write_loop q' (skipn (Z.to_nat n) p) in
            (EvWrite p n :: evs, o)
      end
  end.

Definition write_all (buf : list byte) : io Z :=
  fun w =>
    match write_loop (wrq w) buf with
    | (evs, Some (rc, q')) => (evs, Val rc (mkWorld (rdq w) q'))
    | (evs, None) => (evs, Pending)
    end.

(** The [while (len)] loop of [read_all]; [got] is what the buffer holds so
    far, [len] what is still to be read. *)
Fixpoint read_loop (q : list rd_resp) (len : Z) (got : list byte)
  : list event * option (Z * list byte * list rd_resp) :=
  if len =? 0 then ([], Some (0, got, q))
  else
    match q with
    | [] => ([], None)
    | r :: q' =>
        let '(n, errno, d) := sys_read r len in
        if n <? 0 then
          if errno =? EINTR then
            let (evs, o) := read_loop q' len got in (EvRead len n :: evs, o)
          else ([EvRead len n], Some (-1, got, q'))
        else if n =? 0 then ([EvRead len n], Some (-1, got, q'))
        else
          let (evs, o) := read_loop q' (len - n) (got ++ d) in
          (EvRead len n :: evs, o)
    end.

(** [read_all(c, buf, len)]: the C result and the contents of [buf]. *)
Definition read_all (len : Z) : io (Z * list byte) :=
  fun w =>
    match read_loop (rdq w) len [] with
    | (evs, Some (rc, got, q')) => (evs, Val (rc, got) (mkWorld q' (wrq w)))
    | (evs, None) => (evs, Pending)
    end.

Definition msleep (ms : Z) : io unit := emit (EvSleep ms).

(** ** Framebuffer geometry and the constants of [main] *)

Record geometry : Type := mkGeom { width : Z; height : Z; stride : Z }.

(** [if (fps < 1) fps = 1; if (fps > 15) fps = 15;] *)
Definition clamp_fps (fps : Z) : Z :=
  let fps := if fps <? 1 then 1 else fps in
  if fps >? 15 then 15 else fps.

(** The argument of the frame-pacing [msleep(1000 / fps)] (C division). *)
Definition frame_delay (fps : Z) : Z := Z.quot 1000 fps.

Definition LF : string := String "010"%char EmptyString.

Definition ver : list byte := bytes_of_string ("RFB 003.008" ++ LF).

Definition sec_types : list byte := [1; 1].

Definition name : string := "OpenCentauri fb0 (RAW)".

(** The packed [struct PixelFormat]. *)
Record PixelFormat : Type := mkPF {
  bits_per_pixel : Z;
  depth : Z;
  big_endian_flag : Z;
  true_color_flag : Z;
  red_max : Z; green_max : Z; blue_max : Z;
  red_shift : Z; green_shift : Z; blue_shift : Z;
  pad : list byte
}.

Definition pf : PixelFormat :=
  {| bits_per_pixel := 32; depth := 24;
     big_endian_flag := 0; true_color_flag := 1;
     red_max := htons 255; green_max := htons 255; blue_max := htons 255;
     red_shift := 16; green_shift := 8; blue_shift := 0;
     pad := [0; 0; 0] |}.

(** Object representation of the packed structure, [sizeof(pf)] bytes. *)
Definition pf_bytes (f : PixelFormat) : list byte :=
  [bits_per_pixel f; depth f; big_endian_flag f; true_color_flag f]
  ++ mem16 (red_max f) ++ mem16 (green_max f) ++ mem16 (blue_max f)
  ++ [red_shift f; green_shift f; blue_shift f] ++ pad f.

(** ** Handshake *)

(** [write_all(...)] used as a C condition: true when it failed. *)
Definition wfail (buf : list byte) : io bool :=
  rc <- write_all buf ;; ret (negb (rc =? 0)).

(** C's short-circuit [||] on two such conditions. *)
Definition orelse (a b : io bool) : io bool :=
  x <- a ;; if x : bool then ret true else b.

(** [{ close(c); continue; }] of the accept loop. *)
Definition abort : io bool := emit EvClose ;;; ret false.

(** Steps 1 to 4 of the accept-loop body, up to the read of the client's
    security choice: the chosen byte, or [None] when the connection was
    closed on the way. *)
Definition negotiate : io (option byte) :=
  f <- wfail ver ;;
  if f : bool then emit EvClose ;;; ret None else
  r <- read_all 12 ;;
  if negb (fst r =? 0) then emit EvClose ;;; ret None else
  f <- wfail sec_types ;;
  if f : bool then emit EvClose ;;; ret None else
  r <- read_all 1 ;;
  if negb (fst r =? 0) then emit EvClose ;;; ret None else
  ret (Some (nth 0 (snd r) 0)).

(** Steps 5 to 7: SecurityResult, ClientInit, ServerInit. *)
Definition server_init (g : geometry) : io bool :=
  let ok := htonl 0 in
  f <- wfail (mem32 ok) ;;
  if f : bool then abort else
  r <- read_all 1 ;;
  if negb (fst r =? 0) then abort else
  let w := htons (u16 (width g)) in
  let h := htons (u16 (height g)) in
  let namelen := htonl (u32 (strlen name)) in
  f <- orelse (wfail (mem16 w))
      (orelse (wfail (mem16 h))
      (orelse (wfail (pf_bytes pf))
      (orelse (wfail (mem32 namelen))
              (wfail (bytes_of_string name))))) ;;
  if f : bool then abort else ret true.

(** Steps 1 to 7; [true] when ServerInit has been written, [false] when
    the connection was closed on the way. *)
Definition handshake (g : geometry) : io bool :=
  c <- negotiate ;;
  match c with
  | None => ret false
  | Some chosen =>
      if negb (chosen =? 1) then abort else server_init g
  end.

(** ** Client messages *)

(** What one pass of the client-message loop decides, with the value of
    [client_ready] at that point. *)
Inductive ctl : Type :=
| Break (ready : bool)        (* leave the client-message loop *)
| Continue (ready : bool).    (* go on with the pass, or to the next one *)

Definition flag_of (c : ctl) : bool :=
  match c with Break r => r | Continue r => r end.

(** [for (uint16_t i = 0; i < count; i++)] of SetEncodings; [n] entries
    remain.  A failed read leaves this loop only, by its [break].  The
    result tells how the loop was left: [true] by its condition, [false] by
    the [break]; the C code keeps no trace of it. *)
Fixpoint enc_loop (n : nat) : io bool :=
  match n with
  | O => ret true
  | S n' =>
      r <- read_all 4 ;;
      if negb (fst r =? 0) then ret false else enc_loop n'
  end.

(** [while (len)] of ClientCutText, [tmp] being 256 bytes.  [len] drops by
    at least one per pass, so [Z.to_nat len] passes are enough.  A failed
    read leaves this loop only, by its [break]; the result is [false]
    then, [true] when the whole text was read. *)
Fixpoint cut_loop (fuel : nat) (len : Z) : io bool :=
  if len =? 0 then ret true
  else
    match fuel with
    | O => ret true
    | S fuel' =>
        let n := if len >? 256 then 256 else len in
        r <- read_all n ;;
        if negb (fst r =? 0) then ret false else cut_loop fuel' (len - n)
    end.

(** The payload of a message of type [msgtype]. *)
Definition dispatch (msgtype : Z) (client_ready : bool) : io ctl :=
  if msgtype =? 0 then
    r <- read_all 19 ;;
    if negb (fst r =? 0) then ret (Break client_ready) else ret (Continue client_ready)
  else if msgtype =? 2 then
    r <- read_all 1 ;;
    if negb (fst r =? 0) then ret (Break client_ready) else
    r <- read_all 2 ;;
    if negb (fst r =? 0) then ret (Break client_ready) else
    let count := ntohs (load16 (snd r)) in
    enc_loop (Z.to_nat count) ;;;
    ret (Continue client_ready)
  else if msgtype =? 3 then
    r <- read_all 1 ;;
    if negb (fst r =? 0) then ret (Break client_ready) else
    f <- orelse (r <- read_all 2 ;; ret (negb (fst r =? 0)))
        (orelse (r <- read_all 2 ;; ret (negb (fst r =? 0)))
        (orelse (r <- read_all 2 ;; ret (negb (fst r =? 0)))
                (r <- read_all 2 ;; ret (negb (fst r =? 0))))) ;;
    if f : bool then ret (Break client_ready) else ret (Continue true)
  else if msgtype =? 4 then
    r <- read_all 7 ;;
    if negb (fst r =? 0) then ret (Break client_ready) else ret (Continue client_ready)
  else if msgtype =? 5 then
    r <- read_all 5 ;;
    if negb (fst r =? 0) then ret (Break client_ready) else ret (Continue client_ready)
  else if msgtype =? 6 then
    r <- read_all 3 ;;
    if negb (fst r =? 0) then ret (Break client_ready) else
    r <- read_all 4 ;;
    if negb (fst r =? 0) then ret (Break client_ready) else
    let len := ntohl (load32 (snd r)) in
    cut_loop (Z.to_nat len) len ;;;
    ret (Continue client_ready)
  else ret (Break client_ready).

(** [read(c, &msgtype, 1)]: one bare call, its return value and the byte. *)
Definition read_once : io (Z * byte) :=
  fun w =>
    match rdq w with
    | [] => ([], Pending)
    | r :: q' =>
        let '(n, _, d) := sys_read r 1 in
        ([EvRead 1 n], Val (n, nth 0 d 0) (mkWorld q' (wrq w)))
    end.

(** The body of [if (r > 0 && FD_ISSET(c, &rfds))]. *)
Definition client_message (client_ready : bool) : io ctl :=
  m <- read_once ;;
  if negb (fst m =? 1) then ret (Break client_ready)
  else dispatch (snd m) client_ready.

(** ** Frame pump *)

(** [memcpy(linebuf, fbmem + y * stride, width * 4)]. *)
Definition copy_line (g : geometry) (fbmem : list byte) (y : Z) : list byte :=
  firstn (Z.to_nat (width g * 4)) (skipn (Z.to_nat (y * stride g)) fbmem).

(** [for (int y = ...; y < height; y++)], [n] rows remaining.  A failed
    write leaves this loop only, by its [break]; the result is [false]
    then, [true] when every row was written. *)
Fixpoint scan_loop (g : geometry) (fbmem : list byte) (n : nat) (y : Z)
  : io bool :=
  match n with
  | O => ret true
  | S n' =>
      let linebuf := copy_line g fbmem y in
      rc <- write_all linebuf ;;
      if negb (rc =? 0) then ret false else scan_loop g fbmem n' (y + 1)
  end.

Definition fbup : list byte := [0; 0] ++ mem16 (htons 1).

(** The message header and the rectangle header of a FramebufferUpdate;
    [true] when one of the writes failed. *)
Definition frame_header (g : geometry) : io bool :=
  f <- wfail fbup ;;
  if f : bool then ret true else
  let x0 := 0 in
  let y0 := 0 in
  let ww := htons (u16 (width g)) in
  let hh := htons (u16 (height g)) in
  let enc_raw := htonl 0 in
  orelse (wfail (mem16 x0))
 (orelse (wfail (mem16 y0))
 (orelse (wfail (mem16 ww))
 (orelse (wfail (mem16 hh))
         (wfail (mem32 enc_raw))))).

(** From [uint8_t fbup[4]] to the frame-pacing sleep. *)
Definition send_frame (g : geometry) (fps : Z) (fbmem : list byte)
  (client_ready : bool) : io ctl :=
  f <- frame_header g ;;
  if f : bool then ret (Break client_ready) else
  scan_loop g fbmem (Z.to_nat (height g)) 0 ;;;
  msleep (frame_delay fps) ;;;
  ret (Continue client_ready).

(** ** The client-message loop *)

Section Session.

Variable g : geometry.
Variable fps : Z.
Variable fbmem : list byte.

(** The rest of a pass once the pending message, if any, is consumed:
    [if (!client_ready) { msleep(50); continue; }], else one frame. *)
Definition pump (client_ready : bool) : io ctl :=
  if negb client_ready then msleep 50 ;;; ret (Continue client_ready)
  else send_frame g fps fbmem client_ready.

(** One pass of the inner [for (;;)], given the answer of its [select]. *)
Definition tick (s : sel_resp) (client_ready : bool) : io ctl :=
  let '(r, errno, isset) := sys_select s in
  emit (EvSelect r) ;;;
  if (r <? 0) && negb (errno =? EINTR) then ret (Break client_ready) else
  c <- (if (r >? 0) && isset then client_message client_ready
        else ret (Continue client_ready)) ;;
  match c with
  | Break client_ready => ret (Break client_ready)
  | Continue client_ready => pump client_ready
  end.

(** The inner [for (;;)]; returns [client_ready] as it is when the loop is
    left. *)
Fixpoint client_loop (sel : list sel_resp) (client_ready : bool) : io bool :=
  match sel with
  | [] => fun _ => ([], Pending)
  | s :: sel' =>
      c <- tick s client_ready ;;
      match c with
      | Break client_ready' => ret client_ready'
      | Continue client_ready' => client_loop sel' client_ready'
      end
  end.

(** The accept-loop body after [accept]: handshake, [malloc], message loop,
    cleanup.  [true] when the handshake completed. *)
Definition session (malloc_ok : bool) (sel : list sel_resp) : io bool :=
  ok <- handshake g ;;
  if negb ok then ret false else
  if negb malloc_ok then emit EvClose ;;; ret true else
  let client_ready := false in
  client_loop sel client_ready ;;;
  emit EvFree ;;;
  emit EvClose ;;;
  ret true.

(** ** The accept loop *)

(** Answer to one [accept]: a client, with the kernel script of its
    connection and whether [malloc] succeeds for it, or a failure. *)
Inductive acc_resp : Type :=
| AccConn (malloc_ok : bool) (sel : list sel_resp) (w : world)
| AccFail (errno : Z).

Inductive status : Type :=
| Exited (code : Z)     (* the process ended *)
| Serving               (* inside [accept] *)
| InSession.            (* inside a call on the current connection *)

(** The outer [for (;;)]: the system calls of each connection served, in
    order of acceptance. *)
Fixpoint accept_loop (accs : list acc_resp) : list (list event) * status :=
  match accs with
  | [] => ([], Serving)
  | AccFail e :: accs' =>
      if e =? EINTR then accept_loop accs' else ([], Exited 1)
  | AccConn malloc_ok sel w :: accs' =>
      match session malloc_ok sel w with
      | (evs, Val _ _) =>
          let (rest, st) := accept_loop accs' in (evs :: rest, st)
      | (evs, Pending) => ([evs], InSession)
      end
  end.

End Session.

(** [main] from the bounds on [fps] on, with the framebuffer opened and
    mapped and the listening socket bound. *)
Definition main (fps bpp : Z) (g : geometry) (fbmem : list byte)
  (accs : list acc_resp) : list (list event) * status :=
  let fps := clamp_fps fps in
  if negb (bpp =? 32) then ([], Exited 3)
  else accept_loop g fps fbmem accs.

(** ** Vocabulary of the statements *)

(** The row numbers the scanline loop visits from [y] on, [n] of them. *)
Fixpoint rows (y : Z) (n : nat) : list Z :=
  match n with
  | O => []
  | S n' => y :: rows (y + 1) n'
  end.

(** The bytes of row [y] between the visible pixels and the next row. *)
Definition pad_line (g : geometry) (fbmem : list byte) (y : Z) : list byte :=
  firstn (Z.to_nat (stride g - width g * 4))
         (skipn (Z.to_nat (y * stride g + width g * 4)) fbmem).

(** [loop_at sel r w evs sel' r' w']: started with [client_ready = r] in
    world [w], the client-message loop has completed some passes, made the
    calls [evs], and is about to start a pass with [client_ready = r'] in
    world [w'], the answers [sel'] of [select] still to come. *)
Inductive loop_at (g : geometry) (fps : Z) (fbmem : list byte)
  : list sel_resp -> bool -> world -> list event ->
    list sel_resp -> bool -> world -> Prop :=
| loop_here sel r w : loop_at g fps fbmem sel r w [] sel r w
| loop_pass s sel r w e r1 w1 evs sel2 r2 w2 :
    tick g fps fbmem s r w = (e, Val (Continue r1) w1) ->
    loop_at g fps fbmem sel r1 w1 evs sel2 r2 w2 ->
    loop_at g fps fbmem (s :: sel) r w (e ++ evs) sel2 r2 w2.

(** A computation all of whose calls satisfy [P], whatever the kernel
    answers. *)
Definition only (P : event -> bool) {A} (m : io A) : Prop :=
  forall w, forallb P (fst (m w)) = true.

Definition not_write (e : event) : bool := negb (is_write e).

(** A run whose last call is a [read] that returned 0 or -1. *)
Definition ends_failed_read (evs : list event) : Prop :=
  exists pre l n, evs = pre ++ [EvRead l n] /\ n <= 0.

(** The message types the server knows. *)
Definition known_type (t : Z) : bool :=
  (t =? 0) || (t =? 2) || (t =? 3) || (t =? 4) || (t =? 5) || (t =? 6).

(** ** A small connection, for examples *)

(** Two rows of two pixels, four bytes of padding after each row; byte [i]
    of the framebuffer holds [i]. *)
Definition demo_g : geometry := mkGeom 2 2 12.

Definition demo_fb : list byte := map Z.of_nat (seq 0 24).

(** A kernel that takes every buffer whole, [n] times. *)
Definition accepts (n : nat) : list wr_resp := repeat (WrAccept 4096) n.

(** The client's side of the handshake: its version, choice 1, shared 1. *)
Definition demo_hello : list rd_resp :=
  [RdData (bytes_of_string ("RFB 003.008" ++ LF)); RdData [1]; RdData [1]].

(** A FramebufferUpdateRequest, field by field. *)
Definition demo_request : list rd_resp :=
  [RdData [3]; RdData [0]; RdData [0; 0]; RdData [0; 0];
   RdData [0; 2]; RdData [0; 2]].

(** ** [msleep], the command line and the setup of [main] *)

(** The [struct timeval] that [msleep(ms)] hands to [select]:
    [tv_sec = ms / 1000], [tv_usec = (ms % 1000) * 1000] (C division). *)
Definition msleep_tv (ms : Z) : Z * Z :=
  (Z.quot ms 1000, Z.rem ms 1000 * 1000).

(** The three locals the option loop sets. *)
Record config : Type :=
  mkConfig { cfg_fbpath : string; cfg_port : Z; cfg_fps : Z }.

Definition defaults : config := mkConfig "/dev/fb0" 5900 3.

Section Args.

(** [atoi] of the C library. *)
Variable atoi : string -> Z.

(** [for (int i = 1; i < argc; i++)] over [argv[i..]]; [None] is the usage
    message and [return 2].  With no argument after [argv[i]] every test
    of the chain fails, whatever [argv[i]] is. *)
Fixpoint parse_args (args : list string) (c : config) : option config :=
  match args with
  | [] => Some c
  | a :: rest =>
      match rest with
      | v :: rest' =>
          if String.eqb a "-f" then
            parse_args rest' (mkConfig v (cfg_port c) (cfg_fps c))
          else if String.eqb a "-p" then
            parse_args rest' (mkConfig (cfg_fbpath c) (atoi v) (cfg_fps c))
          else if String.eqb a "--fps" then
            parse_args rest' (mkConfig (cfg_fbpath c) (cfg_port c) (atoi v))
          else None
      | [] => None
      end
  end.

End Args.

(** What the calls of the setup answer: whether each succeeds, and the
    screen information the two [ioctl]s return. *)
Record setup_env : Type := mkEnv {
  open_ok : bool;
  vinfo_ok : bool;
  finfo_ok : bool;
  xres : Z; yres : Z; fb_bits_per_pixel : Z; line_length : Z;
  mmap_ok : bool;
  socket_ok : bool;
  bind_ok : bool;
  listen_ok : bool
}.

(** The calls of the setup, in the order made. *)
Inductive setup_event : Type :=
| SuUsage                       (* usage message on stderr *)
| SuOpen (path : string)        (* open(path, O_RDONLY) *)
| SuGetV                        (* ioctl(fb, FBIOGET_VSCREENINFO, ...) *)
| SuGetF                        (* ioctl(fb, FBIOGET_FSCREENINFO, ...) *)
| SuUnsupported (bpp : Z)       (* "Unsupported bpp" on stderr *)
| SuMmap                        (* mmap(NULL, fbsize, PROT_READ, MAP_SHARED, fb, 0) *)
| SuSocket                      (* socket(AF_INET, SOCK_STREAM, 0) *)
| SuReuseAddr                   (* setsockopt(s, SOL_SOCKET, SO_REUSEADDR, ...) *)
| SuBind (port : Z)             (* bind to INADDR_ANY and this 16-bit port *)
| SuListen (backlog : Z)        (* listen(s, backlog) *)
| SuDie (msg : string).         (* die(msg): perror and exit(1) *)

Inductive started : Type :=
| Ready (fps : Z) (g : geometry)   (* about to enter the accept loop *)
| Exit (code : Z).                  (* the process ended with this status *)

(** [main] from its first line to the accept loop. *)
Definition startup (atoi : string -> Z) (argv : list string)
  (env : setup_env) : list setup_event * started :=
  match parse_args atoi (tl argv) defaults with
  | None => ([SuUsage], Exit 2)
  | Some c =>
      let fps := clamp_fps (cfg_fps c) in
      let e := [SuOpen (cfg_fbpath c)] in
      if negb (open_ok env) then (e ++ [SuDie "open fb"], Exit 1) else
      let e := e ++ [SuGetV] in
      if negb (vinfo_ok env) then (e ++ [SuDie "FBIOGET_VSCREENINFO"], Exit 1)
      else
      let e := e ++ [SuGetF] in
      if negb (finfo_ok env) then (e ++ [SuDie "FBIOGET_FSCREENINFO"], Exit 1)
      else
      let g := mkGeom (xres env) (yres env) (line_length env) in
      let bpp := fb_bits_per_pixel env in
      if negb (bpp =? 32) then (e ++ [SuUnsupported bpp], Exit 3) else
      let e := e ++ [SuMmap] in
      if negb (mmap_ok env) then (e ++ [SuDie "mmap fb"], Exit 1) else
      let e := e ++ [SuSocket] in
      if negb (socket_ok env) then (e ++ [SuDie "socket"], Exit 1) else
      let e := e ++ [SuReuseAddr; SuBind (u16 (cfg_port c))] in
      if negb (bind_ok env) then (e ++ [SuDie "bind"], Exit 1) else
      let e := e ++ [SuListen 1] in
      if negb (listen_ok env) then (e ++ [SuDie "listen"], Exit 1) else
      (e, Ready fps g)
  end.

(** The whole of [main]: the setup, then the accept loop. *)
Definition program (atoi : string -> Z) (argv : list string)
  (env : setup_env) (fbmem : list byte) (accs : list acc_resp)
  : list setup_event * (list (list event) * status) :=
  match startup atoi argv env with
  | (e, Ready fps g) => (e, accept_loop g fps fbmem accs)
  | (e, Exit code) => (e, ([], Exited code))
  end.

(** ** More vocabulary *)

(** Bytes one call took from the client. *)
Definition consumed_of (e : event) : Z :=
  match e with
  | EvRead _ n => Z.max 0 n
  | _ => 0
  end.

Definition consumed (evs : list event) : Z :=
  fold_right (fun e acc => consumed_of e + acc) 0 evs.

Definition is_close (e : event) : bool :=
  match e with EvClose => true | _ => false end.

Definition is_free (e : event) : bool :=
  match e with EvFree => true | _ => false end.

(** Neither [free] nor [close]. *)
Definition is_io (e : event) : bool := negb (is_close e) && negb (is_free e).

(** A [read] that asks for between 1 and [bound] bytes and gets no more
    than it asked for. *)
Definition read_within (bound : Z) (e : event) : bool :=
  match e with
  | EvRead l n => (0 <? l) && (l <=? bound) && (n <=? l)
  | _ => true
  end.

(** A run whose last call is a [write] that returned 0 or -1. *)
Definition ends_failed_write (evs : list event) : Prop :=
  exists pre p n, evs = pre ++ [EvWrite p n] /\ n <= 0.

(** A [read] or a [write]. *)
Definition is_rw (e : event) : bool := is_read e || is_write e.

(** Not a sleep, or one of the two sleeps of the client-message loop. *)
Definition sleep_ok (fps : Z) (e : event) : bool :=
  match e with
  | EvSleep ms => (ms =? 50) || (ms =? frame_delay fps)
  | _ => true
  end.

(** Reads and writes, then [close]. *)
Definition ends_closed (evs : list event) : Prop :=
  exists pre, evs = pre ++ [EvClose] /\ forallb is_rw pre = true.

(** An [accept] that was interrupted. *)
Definition is_eintr (a : acc_resp) : bool :=
  match a with AccFail e => e =? EINTR | AccConn _ _ _ => false end.

(** The result of a run without the world it leaves. *)
Definition val_of {A} (r : res A) : option A :=
  match r with Val a _ => Some a | Pending => None end.

(** Two runs that made the same calls and ended alike. *)
Definition same_run {A} (x y : list event * res A) : Prop :=
  fst x = fst y /\ val_of (snd x) = val_of (snd y).

Definition is_conn (a : acc_resp) : bool :=
  match a with AccConn _ _ _ => true | AccFail _ => false end.

(** The calls of the session run on an accepted connection. *)
Definition conn_events (g : geometry) (fps : Z) (fbmem : list byte)
  (a : acc_resp) : list event :=
  match a with
  | AccConn malloc_ok sel w => fst (session g fps fbmem malloc_ok sel w)
  | AccFail _ => []
  end.

(** The bytes a sequence of [read] answers holds, in order. *)
Definition brought (used : list rd_resp) : list byte :=
  flat_map (fun r => match r with RdData bs => bs | RdFail _ => [] end) used.

(** ** [atoi]

    The C library's [atoi(s)] is [(int) strtol(s, NULL, 10)]: leading white
    space, an optional sign, then decimal digits up to the first other
    character; [strtol] stops at [LONG_MAX] or [LONG_MIN] when the number
    does not fit a [long], and the conversion to [int] keeps the low 32
    bits.  A [long] has 64 bits here, as on the hosts the server was run
    on. *)

Definition is_space (c : ascii) : bool :=
  let n := Z.of_N (N_of_ascii c) in
  (n =? 32) || ((9 <=? n) && (n <=? 13)).

Definition digit_of (c : ascii) : option Z :=
  let n := Z.of_N (N_of_ascii c) in
  if (48 <=? n) && (n <=? 57) then Some (n - 48) else None.

Fixpoint digits (s : string) (acc : Z) : Z :=
  match s with
  | EmptyString => acc
  | String c s' =>
      match digit_of c with
      | Some d => digits s' (acc * 10 + d)
      | None => acc
      end
  end.

Fixpoint skip_space (s : string) : string :=
  match s with
  | EmptyString => EmptyString
  | String c s' => if is_space c then skip_space s' else s
  end.

(** The integer a string spells, without any bound. *)
Definition decimal (s : string) : Z :=
  match skip_space s with
  | String "-"%char s' => - digits s' 0
  | String "+"%char s' => digits s' 0
  | s' => digits s' 0
  end.

Definition LONG_MAX : Z := 9223372036854775807.
Definition LONG_MIN : Z := -9223372036854775808.
Definition INT_MAX : Z := 2147483647.
Definition INT_MIN : Z := -2147483648.

Definition strtol (s : string) : Z :=
  Z.max LONG_MIN (Z.min LONG_MAX (decimal s)).

(** Conversion of a [long] to [int]. *)
Definition to_int (x : Z) : Z := (x + 2147483648) mod 4294967296 - 2147483648.

Definition atoi (s : string) : Z := to_int (strtol s).

(** A device of two rows of two pixels at 32 bits, every setup call
    succeeding. *)
Definition demo_env : setup_env :=
  mkEnv true true true 2 2 32 12 true true true true.

(** * Properties *)

(** ** Byte order *)

Lemma land_255 x : Z.land x 255 = x mod 256.
Proof. change 255 with (Z.ones 8). rewrite Z.land_ones by lia. reflexivity. Qed.

Lemma land_65535 x : Z.land x 65535 = x mod 65536.
Proof. change 65535 with (Z.ones 16). rewrite Z.land_ones by lia. reflexivity. Qed.

Lemma shiftr_8 x : Z.shiftr x 8 = x / 256.
Proof. rewrite Z.shiftr_div_pow2 by lia. reflexivity. Qed.

Lemma lor_shiftl_8 a b : 0 <= b < 256 -> Z.lor (Z.shiftl a 8) b = a * 256 + b.
Proof.
  intros Hb.
  assert (Hland : Z.land (Z.shiftl a 8) b = 0).
  { apply Z.bits_inj'. intros n Hn. rewrite Z.land_spec, Z.bits_0.
    destruct (Z.ltb_spec n 8).
    - rewrite Z.shiftl_spec_low by lia. reflexivity.
    - replace (Z.testbit b n) with false; [apply andb_false_r|].
      symmetry. destruct (Z.eq_dec b 0) as [->|]; [apply Z.bits_0|].
      apply Z.bits_above_log2; try lia.
      apply Z.log2_lt_pow2; try lia.
      apply Z.lt_le_trans with (2 ^ 8); try lia.
      apply Z.pow_le_mono_r; lia. }
  rewrite <- Z.lxor_lor by exact Hland.
  rewrite <- Z.add_nocarry_lxor by exact Hland.
  rewrite Z.shiftl_mul_pow2 by lia. reflexivity.
Qed.

Lemma mem16_htons x : mem16 (htons (u16 x)) = be16 x.
Proof.
  unfold mem16, htons, u16, be16.
  rewrite !land_255, !shiftr_8, land_65535.
  rewrite lor_shiftl_8 by (apply Z.mod_pos_bound; lia).
  assert (H1 : (x mod 65536) mod 256 = x mod 256).
  { symmetry. rewrite (Z.div_mod x 65536) at 1 by lia.
    replace (65536 * (x / 65536) + x mod 65536) with (x mod 65536 + (256 * (x / 65536)) * 256) by lia.
    apply Z.mod_add. lia. }
  assert (H2 : ((x mod 65536) / 256) mod 256 = (x / 256) mod 256).
  { symmetry. rewrite (Z.div_mod x 65536) at 1 by lia.
    replace (65536 * (x / 65536) + x mod 65536) with (x mod 65536 + (256 * (x / 65536)) * 256) by lia.
    rewrite Z.div_add by lia. rewrite Z.add_comm.
    replace (256 * (x / 65536) + x mod 65536 / 256) with (x mod 65536 / 256 + (x / 65536) * 256) by lia.
    apply Z.mod_add. lia. }
  rewrite H1, H2.
  set (a := x mod 256). set (b := (x / 256) mod 256).
  assert (0 <= a < 256) by (apply Z.mod_pos_bound; lia).
  assert (0 <= b < 256) by (apply Z.mod_pos_bound; lia).
  f_equal.
  - rewrite Z.add_comm, Z.mod_add by lia. apply Z.mod_small; lia.
  - f_equal. rewrite Z.add_comm, Z.div_add by lia.
    rewrite (Z.div_small b) by lia. simpl. apply Z.mod_small; lia.
Qed.

(** ** The monad *)

Lemma bind_val {A B} (m : io A) (f : A -> io B) w e1 a w1 :
  m w = (e1, Val a w1) ->
  bind m f w = (e1 ++ fst (f a w1), snd (f a w1)).
Proof. unfold bind. intros ->. destruct (f a w1); reflexivity. Qed.

Lemma bind_pending {A B} (m : io A) (f : A -> io B) w e1 :
  m w = (e1, Pending) -> bind m f w = (e1, Pending).
Proof. unfold bind. intros ->. reflexivity. Qed.

(** A run of [bind] that returned splits into its two halves. *)
Lemma bind_inv {A B} (m : io A) (f : A -> io B) w evs b w' :
  bind m f w = (evs, Val b w') ->
  exists e1 a w1 e2,
    m w = (e1, Val a w1) /\ f a w1 = (e2, Val b w') /\ evs = e1 ++ e2.
Proof.
  unfold bind. destruct (m w) as [e1 [a w1|]]; [|discriminate].
  destruct (f a w1) as [e2 r] eqn:Hf. intros H. inversion H; subst.
  exists e1, a, w1, e2. auto.
Qed.

Lemma ret_inv {A} (a b : A) w evs w' :
  ret a w = (evs, Val b w') -> evs = [] /\ b = a /\ w' = w.
Proof. unfold ret. intros H. inversion H. auto. Qed.

Lemma emit_inv e w evs u w' :
  emit e w = (evs, Val u w') -> evs = [e] /\ w' = w.
Proof. unfold emit. intros H. inversion H. auto. Qed.

(** ** Event lists *)

Lemma sent_app e1 e2 : sent (e1 ++ e2) = sent e1 ++ sent e2.
Proof. unfold sent. apply flat_map_app. Qed.

Lemma sent_cons e evs : sent (e :: evs) = sent_of e ++ sent evs.
Proof. reflexivity. Qed.

(** ** [write_all] *)

Lemma write_loop_nil q : write_loop q [] = ([], Some (0, q)).
Proof. destruct q; reflexivity. Qed.

Lemma write_loop_cons r q b p :
  write_loop (r :: q) (b :: p) =
  let (n, errno) := sys_write r (b :: p) in
  if n <? 0 then
    if errno =? EINTR then
      let (evs, o) := write_loop q (b :: p) in (EvWrite (b :: p) n :: evs, o)
    else ([EvWrite (b :: p) n], Some (-1, q))
  else if n =? 0 then ([EvWrite (b :: p) n], Some (-1, q))
  else
    let (evs, o) := write_loop q (skipn (Z.to_nat n) (b :: p)) in
    (EvWrite (b :: p) n :: evs, o).
Proof. reflexivity. Qed.

(** Whatever the kernel answers, what has reached the client is the front
    of the buffer. *)
Lemma write_loop_prefix q : forall p,
  exists tl, p = sent (fst (write_loop q p)) ++ tl.
Proof.
  induction q as [|r q IH]; intros p.
  - destruct p; simpl; eauto.
  - destruct p as [|b p]; [rewrite write_loop_nil; simpl; eauto|].
    rewrite write_loop_cons. destruct r as [k|e]; cbn [sys_write].
    + set (n := Z.of_nat (Nat.min k (length (b :: p)))).
      destruct (Z.ltb_spec n 0); [unfold n in *; lia|].
      destruct (n =? 0).
      * cbn [fst]. exists (skipn (Z.to_nat n) (b :: p)).
        unfold sent. cbn [flat_map sent_of]. rewrite app_nil_r.
        symmetry. apply firstn_skipn.
      * destruct (IH (skipn (Z.to_nat n) (b :: p))) as [tl Htl].
        destruct (write_loop q (skipn (Z.to_nat n) (b :: p))) as [evs' o].
        cbn [fst] in *. exists tl. rewrite sent_cons. cbn [sent_of].
        rewrite <- app_assoc, <- Htl. symmetry. apply firstn_skipn.
    + change (-1 <? 0) with true. cbv iota.
      destruct (e =? EINTR).
      * destruct (IH (b :: p)) as [tl Htl].
        destruct (write_loop q (b :: p)) as [evs' o].
        cbn [fst] in *. exists tl. rewrite sent_cons. exact Htl.
      * cbn [fst]. exists (b :: p). reflexivity.
Qed.

Lemma write_loop_cases q : forall p evs rc q',
  write_loop q p = (evs, Some (rc, q')) ->
  (rc = 0 /\ sent evs = p) \/
  (rc = -1 /\ exists pre p' n, evs = pre ++ [EvWrite p' n] /\ n <= 0).
Proof.
  induction q as [|r q IH]; intros p evs rc q' H.
  - destruct p; simpl in H; inversion H; subst. left; auto.
  - destruct p as [|b p]; [rewrite write_loop_nil in H; inversion H; left; auto|].
    rewrite write_loop_cons in H. destruct r as [k|e]; cbn [sys_write] in H.
    + set (n := Z.of_nat (Nat.min k (length (b :: p)))) in *.
      assert (Hn : 0 <= n) by (unfold n; lia).
      destruct (Z.ltb_spec n 0); [lia|].
      destruct (Z.eqb_spec n 0).
      * inversion H; subst. right. split; [reflexivity|].
        exists [], (b :: p), n. split; [reflexivity|lia].
      * destruct (write_loop q (skipn (Z.to_nat n) (b :: p))) as [evs' o] eqn:E.
        inversion H; subst.
        destruct (IH _ _ _ _ E) as [(-> & Hs)|(-> & pre & p' & m & -> & Hm)].
        -- left. split; [reflexivity|].
           rewrite sent_cons, Hs. cbn [sent_of]. apply firstn_skipn.
        -- right. split; [reflexivity|].
           exists (EvWrite (b :: p) n :: pre), p', m. auto.
    + change (-1 <? 0) with true in H. cbv iota in H.
      destruct (Z.eqb_spec e EINTR).
      * destruct (write_loop q (b :: p)) as [evs' o] eqn:E.
        inversion H; subst o evs.
        destruct (IH _ _ _ _ E) as [(-> & Hs)|(-> & pre & p' & m & -> & Hm)].
        -- left. split; [reflexivity|]. rewrite sent_cons, Hs. reflexivity.
        -- right. split; [reflexivity|].
           exists (EvWrite (b :: p) (-1) :: pre), p', m. auto.
      * inversion H; subst. right. split; [reflexivity|].
        exists [], (b :: p), (-1). split; [reflexivity|lia].
Qed.

(** Out of script is the only way not to return. *)
Lemma write_loop_pending q : forall p evs,
  write_loop q p = (evs, None) -> length evs = length q.
Proof.
  induction q as [|r q IH]; intros p evs H.
  - destruct p; simpl in H; inversion H; reflexivity.
  - destruct p as [|b p]; [rewrite write_loop_nil in H; discriminate|].
    rewrite write_loop_cons in H.
    destruct (sys_write r (b :: p)) as [n errno].
    destruct (n <? 0).
    + destruct (errno =? EINTR); [|discriminate].
      destruct (write_loop q (b :: p)) as [evs' o] eqn:E.
      inversion H; subst. simpl. f_equal. eapply IH; eauto.
    + destruct (n =? 0); [discriminate|].
      destruct (write_loop q (skipn (Z.to_nat n) (b :: p))) as [evs' o] eqn:E.
      inversion H; subst. simpl. f_equal. eapply IH; eauto.
Qed.

Lemma write_all_cases buf w evs rc w' :
  write_all buf w = (evs, Val rc w') ->
  rdq w' = rdq w /\
  ((rc = 0 /\ sent evs = buf) \/
   (rc = -1 /\ exists pre p' n, evs = pre ++ [EvWrite p' n] /\ n <= 0)).
Proof.
  unfold write_all. destruct (write_loop (wrq w) buf) as [e [[c q']|]] eqn:E;
    [|discriminate].
  intros H. inversion H; subst. split; [reflexivity|].
  eapply write_loop_cases; eauto.
Qed.

Lemma write_all_prefix buf w :
  exists tl, buf = sent (fst (write_all buf w)) ++ tl.
Proof.
  unfold write_all. destruct (write_loop_prefix (wrq w) buf) as [tl Htl].
  destruct (write_loop (wrq w) buf) as [e [[c q']|]]; cbn [fst] in *; eauto.
Qed.

(** ** [read_all] *)

Lemma read_loop_zero q got : read_loop q 0 got = ([], Some (0, got, q)).
Proof. destruct q; reflexivity. Qed.

Lemma read_loop_cons r q len got :
  len <> 0 ->
  read_loop (r :: q) len got =
  let '(n, errno, d) := sys_read r len in
  if n <? 0 then
    if errno =? EINTR then
      let (evs, o) := read_loop q len got in (EvRead len n :: evs, o)
    else ([EvRead len n], Some (-1, got, q))
  else if n =? 0 then ([EvRead len n], Some (-1, got, q))
  else
    let (evs, o) := read_loop q (len - n) (got ++ d) in
    (EvRead len n :: evs, o).
Proof.
  intros H. cbn [read_loop]. destruct (Z.eqb_spec len 0); [contradiction|].
  reflexivity.
Qed.

Lemma read_loop_cases q : forall len got evs rc buf q',
  read_loop q len got = (evs, Some (rc, buf, q')) ->
  (rc = 0 /\ exists d, buf = got ++ d /\ Z.of_nat (length d) = len) \/
  (rc = -1 /\ exists pre l n, evs = pre ++ [EvRead l n] /\ n <= 0).
Proof.
  induction q as [|r q IH]; intros len got evs rc buf q' H.
  - cbn [read_loop] in H. destruct (Z.eqb_spec len 0); [|discriminate].
    inversion H; subst. left. split; [reflexivity|].
    exists []. rewrite app_nil_r. auto.
  - destruct (Z.eq_dec len 0) as [->|Hlen].
    { rewrite read_loop_zero in H. inversion H; subst. left.
      split; [reflexivity|]. exists []. rewrite app_nil_r. auto. }
    rewrite read_loop_cons in H by assumption.
    destruct r as [bs|e]; cbn [sys_read] in H.
    + set (d := firstn (Z.to_nat len) bs) in *.
      destruct (Z.ltb_spec (Z.of_nat (length d)) 0); [lia|].
      destruct (Z.eqb_spec (Z.of_nat (length d)) 0).
      * inversion H; subst. right. split; [reflexivity|].
        exists [], len, (Z.of_nat (length d)). split; [reflexivity|lia].
      * destruct (read_loop q (len - Z.of_nat (length d)) (got ++ d))
          as [evs' o] eqn:E.
        inversion H; subst.
        destruct (IH _ _ _ _ _ _ E)
          as [(-> & d' & -> & Hd)|(-> & pre & l & m & -> & Hm)].
        -- left. split; [reflexivity|]. exists (d ++ d').
           rewrite app_assoc. split; [reflexivity|].
           rewrite length_app. lia.
        -- right. split; [reflexivity|].
           exists (EvRead len (Z.of_nat (length d)) :: pre), l, m. auto.
    + change (-1 <? 0) with true in H. cbv iota in H.
      destruct (Z.eqb_spec e EINTR).
      * destruct (read_loop q len got) as [evs' o] eqn:E.
        inversion H; subst o evs.
        destruct (IH _ _ _ _ _ _ E)
          as [(-> & d' & -> & Hd)|(-> & pre & l & m & -> & Hm)].
        -- left. split; [reflexivity|]. exists d'. auto.
        -- right. split; [reflexivity|].
           exists (EvRead len (-1) :: pre), l, m. auto.
      * inversion H; subst. right. split; [reflexivity|].
        exists [], len, (-1). split; [reflexivity|lia].
Qed.

(** [read_all] makes [read] calls only. *)
Lemma read_loop_reads q : forall len got,
  forallb is_read (fst (read_loop q len got)) = true.
Proof.
  induction q as [|r q IH]; intros len got.
  - cbn [read_loop]. destruct (len =? 0); reflexivity.
  - destruct (Z.eq_dec len 0) as [->|Hlen]; [rewrite read_loop_zero; reflexivity|].
    rewrite read_loop_cons by assumption.
    destruct (sys_read r len) as [[n errno] d].
    destruct (n <? 0).
    + destruct (errno =? EINTR); [|reflexivity].
      specialize (IH len got). destruct (read_loop q len got). exact IH.
    + destruct (n =? 0); [reflexivity|].
      specialize (IH (len - n) (got ++ d)).
      destruct (read_loop q (len - n) (got ++ d)). exact IH.
Qed.

Lemma read_loop_pending q : forall len got evs,
  read_loop q len got = (evs, None) -> length evs = length q.
Proof.
  induction q as [|r q IH]; intros len got evs H.
  - cbn [read_loop] in H. destruct (len =? 0); inversion H; reflexivity.
  - destruct (Z.eq_dec len 0) as [->|Hlen]; [rewrite read_loop_zero in H; discriminate|].
    rewrite read_loop_cons in H by assumption.
    destruct (sys_read r len) as [[n errno] d].
    destruct (n <? 0).
    + destruct (errno =? EINTR); [|discriminate].
      destruct (read_loop q len got) as [evs' o] eqn:E.
      inversion H; subst. simpl. f_equal. eapply IH; eauto.
    + destruct (n =? 0); [discriminate|].
      destruct (read_loop q (len - n) (got ++ d)) as [evs' o] eqn:E.
      inversion H; subst. simpl. f_equal. eapply IH; eauto.
Qed.

Lemma read_all_cases len w evs rc buf w' :
  read_all len w = (evs, Val (rc, buf) w') ->
  wrq w' = wrq w /\
  ((rc = 0 /\ Z.of_nat (length buf) = len) \/
   (rc = -1 /\ exists pre l n, evs = pre ++ [EvRead l n] /\ n <= 0)).
Proof.
  unfold read_all.
  destruct (read_loop (rdq w) len []) as [e [[[c got] q']|]] eqn:E;
    [|discriminate].
  intros H. inversion H; subst. split; [reflexivity|].
  destruct (read_loop_cases _ _ _ _ _ _ _ E) as [(-> & d & -> & Hd)|Hf]; auto.
Qed.

Lemma read_all_reads len w : forallb is_read (fst (read_all len w)) = true.
Proof.
  unfold read_all. pose proof (read_loop_reads (rdq w) len []) as H.
  destruct (read_loop (rdq w) len []) as [e [[[c got] q']|]]; exact H.
Qed.

(** C9. [write_all] and [read_all] are all-or-nothing.  A call interrupted
    by EINTR is repeated and changes nothing in what follows.  The result
    is 0 or -1 and nothing else: 0 only once the whole buffer has reached
    the client (resp. exactly [len] bytes are in the buffer), -1 after a
    call that moved nothing (zero progress, end of stream) or failed.  A
    [write] of zero bytes or with another [errno] fails [write_all] on the
    spot, an end of stream or another [errno] fails [read_all] on the spot,
    wherever in the transfer it happens.  Only an exhausted kernel script
    keeps either from returning. *)
Theorem C9_exact_transfer :
  (forall q p, p <> [] ->
     write_loop (WrFail EINTR :: q) p =
     (EvWrite p (-1) :: fst (write_loop q p), snd (write_loop q p))) /\
  (forall q len got, len <> 0 ->
     read_loop (RdFail EINTR :: q) len got =
     (EvRead len (-1) :: fst (read_loop q len got),
      snd (read_loop q len got))) /\
  (forall buf w evs rc w',
     write_all buf w = (evs, Val rc w') ->
     (rc = 0 /\ sent evs = buf) \/
     (rc = -1 /\ exists pre p n, evs = pre ++ [EvWrite p n] /\ n <= 0)) /\
  (forall len w evs rc buf w',
     read_all len w = (evs, Val (rc, buf) w') ->
     (rc = 0 /\ Z.of_nat (length buf) = len) \/
     (rc = -1 /\ exists pre l n, evs = pre ++ [EvRead l n] /\ n <= 0)) /\
  (forall q p, p <> [] ->
     write_loop (WrAccept 0 :: q) p = ([EvWrite p 0], Some (-1, q))) /\
  (forall e q p, p <> [] -> e <> EINTR ->
     write_loop (WrFail e :: q) p = ([EvWrite p (-1)], Some (-1, q))) /\
  (forall q len got, len <> 0 ->
     read_loop (RdData [] :: q) len got = ([EvRead len 0], Some (-1, got, q))) /\
  (forall e q len got, len <> 0 -> e <> EINTR ->
     read_loop (RdFail e :: q) len got =
     ([EvRead len (-1)], Some (-1, got, q))) /\
  (forall q p evs, write_loop q p = (evs, None) -> length evs = length q) /\
  (forall q len got evs,
     read_loop q len got = (evs, None) -> length evs = length q).
Proof.
  repeat split.
  - intros q [|b p] Hp; [contradiction|]. rewrite write_loop_cons.
    cbn [sys_write]. change (-1 <? 0) with true.
    rewrite Z.eqb_refl. cbv iota. destruct (write_loop q (b :: p)); reflexivity.
  - intros q len got Hlen. rewrite read_loop_cons by assumption.
    cbn [sys_read]. change (-1 <? 0) with true.
    rewrite Z.eqb_refl. cbv iota. destruct (read_loop q len got); reflexivity.
  - intros buf w evs rc w' H. apply write_all_cases in H. tauto.
  - intros len w evs rc buf w' H. apply read_all_cases in H. tauto.
  - intros q [|b p] Hp; [contradiction|]. reflexivity.
  - intros e q [|b p] Hp He; [contradiction|]. rewrite write_loop_cons.
    cbn [sys_write]. change (-1 <? 0) with true. cbv iota.
    destruct (Z.eqb_spec e EINTR); [contradiction|reflexivity].
  - intros q len got Hlen. rewrite read_loop_cons by assumption.
    cbn [sys_read]. rewrite firstn_nil. reflexivity.
  - intros e q len got Hlen He. rewrite read_loop_cons by assumption.
    cbn [sys_read]. change (-1 <? 0) with true. cbv iota.
    destruct (Z.eqb_spec e EINTR); [contradiction|reflexivity].
  - apply write_loop_pending.
  - apply read_loop_pending.
Qed.

(** ** Inverting runs *)

Ltac inv_io :=
  repeat match goal with
  | H : bind _ _ _ = (_, Val _ _) |- _ =>
      let e1 := fresh "e" in let a := fresh "a" in
      let w1 := fresh "w" in let e2 := fresh "e" in
      let H1 := fresh "H" in let H2 := fresh "H" in
      apply bind_inv in H as (e1 & a & w1 & e2 & H1 & H2 & ->)
  | H : ret _ _ = (_, Val _ _) |- _ =>
      let Hb := fresh "Hb" in
      apply ret_inv in H as (-> & Hb & ->);
      first [discriminate Hb | injection Hb as -> | subst | idtac]
  | H : emit _ _ = (_, Val _ _) |- _ => apply emit_inv in H as (-> & ->)
  end.

Lemma abort_inv w evs b w' :
  abort w = (evs, Val b w') -> b = false /\ evs = [EvClose] /\ w' = w.
Proof. unfold abort, bind, emit, ret. intros H. inversion H. auto. Qed.

Lemma reads_sent evs : forallb is_read evs = true -> sent evs = [].
Proof.
  induction evs as [|e evs IH]; [reflexivity|]. cbn [forallb].
  intros H. apply andb_prop in H as [He H]. rewrite sent_cons, IH by assumption.
  destruct e; try discriminate. reflexivity.
Qed.

Lemma read_all_sent len w evs r :
  read_all len w = (evs, r) -> sent evs = [].
Proof.
  intros H. apply reads_sent. pose proof (read_all_reads len w) as Hr.
  rewrite H in Hr. exact Hr.
Qed.

Lemma wfail_inv buf w evs f w' :
  wfail buf w = (evs, Val f w') ->
  rdq w' = rdq w /\
  ((f = false /\ sent evs = buf) \/
   (f = true /\ exists pre p n, evs = pre ++ [EvWrite p n] /\ n <= 0)).
Proof.
  unfold wfail. intros H. inv_io. rewrite app_nil_r.
  apply write_all_cases in H0 as [Hq [(-> & Hs)|(-> & Hf)]]; auto.
Qed.

Lemma orelse_inv (a b : io bool) w evs f w' :
  orelse a b w = (evs, Val f w') ->
  (f = true /\ a w = (evs, Val true w')) \/
  (exists e1 w1 e2,
     a w = (e1, Val false w1) /\ b w1 = (e2, Val f w') /\ evs = e1 ++ e2).
Proof.
  unfold orelse. intros H. inv_io. destruct a0.
  - inv_io. left. rewrite app_nil_r. auto.
  - right. eauto 10.
Qed.

(** A chain of [write_all(...) || ...] that ended false wrote every buffer. *)
Ltac inv_writes :=
  repeat match goal with
  | H : orelse _ _ _ = (_, Val false _) |- _ =>
      let e1 := fresh "e" in let w1 := fresh "w" in let e2 := fresh "e" in
      let H1 := fresh "H" in let H2 := fresh "H" in
      apply orelse_inv in H as [[? _]|(e1 & w1 & e2 & H1 & H2 & ->)];
      [discriminate|]
  | H : wfail _ _ = (_, Val false _) |- _ =>
      let Hq := fresh "Hq" in let Hs := fresh "Hs" in
      apply wfail_inv in H as [Hq [(_ & Hs)|(? & _)]]; [|discriminate]
  end.

(** Follow a run through its sequence of calls and tests. *)
Ltac inv_run :=
  repeat first
    [ progress inv_io
    | match goal with
      | H : abort _ = (_, Val true _) |- _ =>
          apply abort_inv in H as [? _]; discriminate
      | H : (if ?c then _ else _) _ = (_, Val _ _) |- _ => destruct c eqn:?
      end ].

(** Replace what each part of a run sent by the buffer it wrote. *)
Ltac sent_facts :=
  inv_writes; rewrite ?sent_app;
  repeat match goal with
  | H : read_all _ _ = (?e, _) |- context [sent ?e] =>
      rewrite (read_all_sent _ _ _ _ H)
  | H : sent ?e = _ |- context [sent ?e] => rewrite H
  end.

Lemma negotiate_sent w e b w1 :
  negotiate w = (e, Val (Some b) w1) -> sent e = ver ++ sec_types.
Proof.
  unfold negotiate. intros H. inv_run. sent_facts.
  rewrite !app_nil_r. reflexivity.
Qed.

Lemma server_init_sent g w e w' :
  server_init g w = (e, Val true w') ->
  sent e = mem32 (htonl 0)
           ++ mem16 (htons (u16 (width g))) ++ mem16 (htons (u16 (height g)))
           ++ pf_bytes pf
           ++ mem32 (htonl (u32 (strlen name))) ++ bytes_of_string name.
Proof.
  unfold server_init. intros H. inv_run. sent_facts.
  rewrite !app_nil_r. reflexivity.
Qed.

Lemma handshake_inv g w evs w' :
  handshake g w = (evs, Val true w') ->
  exists e1 w1 e2,
    negotiate w = (e1, Val (Some 1) w1) /\
    server_init g w1 = (e2, Val true w') /\ evs = e1 ++ e2.
Proof.
  unfold handshake. intros H. inv_io. destruct a as [b|]; [|inv_io].
  destruct (Z.eqb_spec b 1) as [->|]; cbn [negb] in H1.
  - eauto 10.
  - apply abort_inv in H1 as [? _]; discriminate.
Qed.

(** C1. Whenever the handshake completes, the bytes the server has sent by
    then are, in order: the 12 bytes of "RFB 003.008" and a line feed, the
    security offer [1;1], the security result 0 on four bytes, the width
    and the height on two big-endian bytes each, the 16 bytes of the pixel
    format, the length of the name on four big-endian bytes and the bytes
    of the name.  These are the first calls of the session whatever the
    frame rate, the framebuffer contents and the later traffic; of the
    geometry only the width and height fields show. *)
Theorem C1_handshake_bytes :
  forall g w evs w',
    handshake g w = (evs, Val true w') ->
    sent evs =
      bytes_of_string "RFB 003.008" ++ [10]
      ++ [1; 1]
      ++ be32 0
      ++ be16 (width g) ++ be16 (height g)
      ++ [32; 24; 0; 1; 0; 255; 0; 255; 0; 255; 16; 8; 0; 0; 0; 0]
      ++ be32 (Z.of_nat (length (bytes_of_string name)))
      ++ bytes_of_string name
    /\ length (bytes_of_string "RFB 003.008" ++ [10]) = 12%nat
    /\ Z.of_nat (length (sent evs))
       = 12 + 2 + 4 + (2 + 2 + 16 + 4 + Z.of_nat (length (bytes_of_string name)))
    /\ forall fps fbmem malloc_ok sel,
         exists rest,
           fst (session g fps fbmem malloc_ok sel w) = evs ++ rest.
Proof.
  intros g w evs w' H.
  assert (Hsent : sent evs =
      bytes_of_string "RFB 003.008" ++ [10] ++ [1; 1] ++ be32 0
      ++ be16 (width g) ++ be16 (height g)
      ++ [32; 24; 0; 1; 0; 255; 0; 255; 0; 255; 16; 8; 0; 0; 0; 0]
      ++ be32 (Z.of_nat (length (bytes_of_string name)))
      ++ bytes_of_string name).
  { destruct (handshake_inv _ _ _ _ H) as (e1 & w1 & e2 & Hn & Hs & ->).
    rewrite sent_app, (negotiate_sent _ _ _ _ Hn), (server_init_sent _ _ _ _ Hs).
    rewrite !mem16_htons. reflexivity. }
  split; [exact Hsent|]. split; [reflexivity|]. split.
  - rewrite Hsent. rewrite !length_app. cbn [be16 be32 length].
    change (length (bytes_of_string "RFB 003.008")) with 11%nat. lia.
  - intros fps fbmem malloc_ok sel. unfold session.
    rewrite (bind_val _ _ _ _ _ _ H). cbn [fst]. eauto.
Qed.

(** ** Scanlines *)

Lemma firstn_plus {A} (a b : nat) (l : list A) :
  firstn (a + b) l = firstn a l ++ firstn b (skipn a l).
Proof.
  revert l. induction a as [|a IH]; intros l; [reflexivity|].
  destruct l as [|x l]; [simpl; rewrite firstn_nil; reflexivity|].
  simpl. f_equal. apply IH.
Qed.

Section Scanlines.

Variable g : geometry.
Variable fbmem : list byte.
Hypothesis Hw : 0 <= width g.
Hypothesis Hh : 0 <= height g.
Hypothesis Hs : width g * 4 <= stride g.
Hypothesis Hfb : Z.of_nat (length fbmem) = stride g * height g.

Lemma row_in_range y : 0 <= y < height g ->
  0 <= y * stride g /\ y * stride g + stride g <= Z.of_nat (length fbmem).
Proof.
  intros Hy. split; [apply Z.mul_nonneg_nonneg; lia|].
  rewrite Hfb. replace (y * stride g + stride g) with (stride g * (y + 1)) by lia.
  apply Z.mul_le_mono_nonneg_l; lia.
Qed.

Lemma copy_line_length y : 0 <= y < height g ->
  Z.of_nat (length (copy_line g fbmem y)) = width g * 4.
Proof.
  intros Hy. destruct (row_in_range y Hy) as [H0 H1].
  unfold copy_line. rewrite length_firstn, length_skipn. lia.
Qed.

Lemma row_split y : 0 <= y < height g ->
  firstn (Z.to_nat (stride g)) (skipn (Z.to_nat (y * stride g)) fbmem)
  = copy_line g fbmem y ++ pad_line g fbmem y.
Proof.
  intros Hy. destruct (row_in_range y Hy) as [H0 H1].
  unfold copy_line, pad_line.
  replace (Z.to_nat (stride g))
    with (Z.to_nat (width g * 4) + Z.to_nat (stride g - width g * 4))%nat
    by lia.
  rewrite firstn_plus, skipn_skipn. do 3 f_equal. lia.
Qed.

Lemma rows_split n : forall y,
  0 <= y -> y + Z.of_nat n <= height g ->
  firstn (n * Z.to_nat (stride g)) (skipn (Z.to_nat (y * stride g)) fbmem)
  = flat_map (fun y => copy_line g fbmem y ++ pad_line g fbmem y) (rows y n).
Proof.
  induction n as [|n IH]; intros y Hy Hn; [reflexivity|].
  cbn [rows flat_map Nat.mul]. rewrite firstn_plus, skipn_skipn.
  rewrite row_split by lia. f_equal.
  rewrite <- IH by lia. f_equal. f_equal.
  assert (0 <= y * stride g) by (apply Z.mul_nonneg_nonneg; lia).
  assert (0 <= stride g) by lia.
  replace ((y + 1) * stride g) with (y * stride g + stride g) by lia.
  lia.
Qed.

Lemma rows_length n : forall y,
  0 <= y -> y + Z.of_nat n <= height g ->
  Z.of_nat (length (flat_map (copy_line g fbmem) (rows y n)))
  = Z.of_nat n * (width g * 4).
Proof.
  induction n as [|n IH]; intros y Hy Hn; [reflexivity|].
  cbn [rows flat_map]. rewrite length_app, Nat2Z.inj_add.
  rewrite copy_line_length, IH by lia. lia.
Qed.

End Scanlines.

Lemma scan_loop_sent g fbmem n : forall y w evs w',
  scan_loop g fbmem n y w = (evs, Val true w') ->
  sent evs = flat_map (copy_line g fbmem) (rows y n).
Proof.
  induction n as [|n IH]; intros y w evs w' H; cbn [scan_loop] in H.
  - inv_io. reflexivity.
  - inv_io. destruct (Z.eqb_spec a 0) as [->|]; cbn [negb] in H1; [|inv_io].
    apply write_all_cases in H0 as [_ [[_ Hs]|[? _]]]; [|discriminate].
    rewrite sent_app, Hs, (IH _ _ _ _ H1). reflexivity.
Qed.

Lemma scan_loop_prefix g fbmem n : forall y w,
  exists tl,
    flat_map (copy_line g fbmem) (rows y n)
    = sent (fst (scan_loop g fbmem n y w)) ++ tl.
Proof.
  induction n as [|n IH]; intros y w; cbn [scan_loop rows flat_map].
  - exists []. reflexivity.
  - unfold bind at 1.
    destruct (write_all_prefix (copy_line g fbmem y) w) as [tl Htl].
    destruct (write_all (copy_line g fbmem y) w) as [e1 [rc w1|]] eqn:E;
      cbn [fst] in Htl.
    + destruct (Z.eqb_spec rc 0) as [->|]; cbn [negb].
      * destruct (IH (y + 1) w1) as [tl' Htl'].
        destruct (scan_loop g fbmem n (y + 1) w1) as [e2 r]. cbn [fst] in *.
        apply write_all_cases in E as [_ [[_ Hs]|[? _]]]; [|discriminate].
        exists tl'. rewrite sent_app, Hs, <- app_assoc, <- Htl'. reflexivity.
      * cbn [ret fst]. rewrite app_nil_r. eexists.
        rewrite Htl at 1. rewrite <- app_assoc. reflexivity.
    + cbn [fst]. eexists. rewrite Htl at 1. rewrite <- app_assoc. reflexivity.
Qed.

Lemma frame_header_sent g w e w1 :
  frame_header g w = (e, Val false w1) ->
  sent e = fbup ++ mem16 0 ++ mem16 0
           ++ mem16 (htons (u16 (width g))) ++ mem16 (htons (u16 (height g)))
           ++ mem32 (htonl 0).
Proof.
  unfold frame_header. intros H. inv_io.
  destruct a; [inv_io|]. sent_facts. reflexivity.
Qed.

(** C2. With a framebuffer of [height] rows of [stride] bytes and
    [stride >= width*4]: the line copied for row [y] is exactly the
    [width*4] bytes found at offset [y*stride]; the framebuffer is the
    sequence, row after row, of such a line followed by its padding; a
    scanline loop that wrote every row has sent the lines of rows
    [0 .. height-1] in order and nothing else, [height*width*4] bytes; a
    scanline loop stopped anywhere has sent a front part of that sequence,
    so no padding byte is ever sent; and a complete FramebufferUpdate is
    its 4-byte header, the 12-byte rectangle header and these lines. *)
Theorem C2_scanline_payload :
  forall g fbmem,
    0 <= width g -> 0 <= height g -> width g * 4 <= stride g ->
    Z.of_nat (length fbmem) = stride g * height g ->
    (forall y, 0 <= y < height g ->
       copy_line g fbmem y
       = firstn (Z.to_nat (width g * 4))
                (skipn (Z.to_nat (y * stride g)) fbmem)
       /\ Z.of_nat (length (copy_line g fbmem y)) = width g * 4) /\
    fbmem = flat_map (fun y => copy_line g fbmem y ++ pad_line g fbmem y)
                     (rows 0 (Z.to_nat (height g))) /\
    (forall w evs w',
       scan_loop g fbmem (Z.to_nat (height g)) 0 w = (evs, Val true w') ->
       sent evs = flat_map (copy_line g fbmem) (rows 0 (Z.to_nat (height g)))
       /\ Z.of_nat (length (sent evs)) = height g * width g * 4) /\
    (forall w, exists tl,
       flat_map (copy_line g fbmem) (rows 0 (Z.to_nat (height g)))
       = sent (fst (scan_loop g fbmem (Z.to_nat (height g)) 0 w)) ++ tl) /\
    (forall fps ready w e1 w1 e2 w2,
       frame_header g w = (e1, Val false w1) ->
       scan_loop g fbmem (Z.to_nat (height g)) 0 w1 = (e2, Val true w2) ->
       send_frame g fps fbmem ready w
       = (e1 ++ e2 ++ [EvSleep (frame_delay fps)], Val (Continue ready) w2)
       /\ sent (e1 ++ e2 ++ [EvSleep (frame_delay fps)])
          = [0; 0; 0; 1] ++ [0; 0; 0; 0] ++ be16 (width g) ++ be16 (height g)
            ++ [0; 0; 0; 0]
            ++ flat_map (copy_line g fbmem) (rows 0 (Z.to_nat (height g)))).
Proof.
  intros g fbmem Hw Hh Hs Hfb. repeat split.
  - apply copy_line_length; assumption.
  - rewrite <- (rows_split g fbmem) with (y := 0) by (assumption || lia).
    cbn [Z.mul Z.to_nat skipn]. symmetry. apply firstn_all2.
    assert (0 <= stride g) by lia. nia.
  - eapply scan_loop_sent; eauto.
  - rewrite (scan_loop_sent _ _ _ _ _ _ _ H).
    rewrite (rows_length g fbmem) by (assumption || lia). lia.
  - apply scan_loop_prefix.
  - unfold send_frame. rewrite (bind_val _ _ _ _ _ _ H). cbn [fst snd].
    rewrite (bind_val _ _ _ _ _ _ H0). reflexivity.
  - rewrite !sent_app, (frame_header_sent _ _ _ _ H).
    rewrite (scan_loop_sent _ _ _ _ _ _ _ H0). rewrite !mem16_htons.
    cbn [sent flat_map sent_of]. rewrite !app_nil_r.
    rewrite <- !app_assoc. reflexivity.
Qed.

(** ** Client messages make [read] calls only *)

Lemma only_ret P {A} (a : A) : only P (ret a).
Proof. intros w. reflexivity. Qed.

Lemma only_bind P {A B} (m : io A) (f : A -> io B) :
  only P m -> (forall a, only P (f a)) -> only P (bind m f).
Proof.
  intros Hm Hf w. unfold bind. specialize (Hm w).
  destruct (m w) as [e1 [a w1|]]; cbn [fst] in *; [|exact Hm].
  specialize (Hf a w1). destruct (f a w1) as [e2 r]. cbn [fst] in *.
  rewrite forallb_app, Hm, Hf. reflexivity.
Qed.

Lemma only_read_all len : only is_read (read_all len).
Proof. intros w. apply read_all_reads. Qed.

Lemma only_if P {A} (c : bool) (a b : io A) :
  only P a -> only P b -> only P (if c then a else b).
Proof. destruct c; auto. Qed.

Lemma only_enc_loop n : only is_read (enc_loop n).
Proof.
  induction n as [|n IH]; cbn [enc_loop]; [apply only_ret|].
  apply only_bind; [apply only_read_all|].
  intros r. apply only_if; [apply only_ret|exact IH].
Qed.

Lemma only_cut_loop fuel : forall len, only is_read (cut_loop fuel len).
Proof.
  induction fuel as [|fuel IH]; intros len; cbn [cut_loop];
    (apply only_if; [apply only_ret|]); [apply only_ret|].
  apply only_bind; [apply only_read_all|].
  intros r. apply only_if; [apply only_ret|apply IH].
Qed.

Lemma only_orelse P (a b : io bool) :
  only P a -> only P b -> only P (orelse a b).
Proof.
  intros Ha Hb. unfold orelse. apply only_bind; [assumption|].
  intros x. apply only_if; [apply only_ret|assumption].
Qed.

Lemma only_dispatch t r : only is_read (dispatch t r).
Proof.
  unfold dispatch. cbv zeta.
  repeat first
    [ apply only_ret | apply only_read_all | apply only_enc_loop
    | apply only_cut_loop | apply only_if | apply only_orelse
    | (apply only_bind; [|intros ?]) ].
Qed.

Lemma only_read_once : only is_read read_once.
Proof.
  intros w. unfold read_once. destruct (rdq w) as [|r q]; [reflexivity|].
  destruct (sys_read r 1) as [[n e] d]. reflexivity.
Qed.

Lemma only_client_message r : only is_read (client_message r).
Proof.
  unfold client_message. apply only_bind; [apply only_read_once|].
  intros m. apply only_if; [apply only_ret|apply only_dispatch].
Qed.

Lemma only_run P {A} (m : io A) w evs x :
  only P m -> m w = (evs, x) -> forallb P evs = true.
Proof. intros H E. specialize (H w). rewrite E in H. exact H. Qed.

Lemma reads_not_write evs :
  forallb is_read evs = true -> forallb not_write evs = true.
Proof.
  induction evs as [|e evs IH]; [reflexivity|]. cbn [forallb].
  intros H. apply andb_prop in H as [He H]. rewrite IH by assumption.
  destruct e; try discriminate; reflexivity.
Qed.

(** ** The write script and the ready flag across a message *)

Lemma dispatch_ready t r w evs c w' :
  dispatch t r w = (evs, Val c w') ->
  flag_of c = r \/ (t = 3 /\ c = Continue true).
Proof.
  unfold dispatch. intros H.
  destruct (Z.eqb_spec t 0); [inv_run; auto|].
  destruct (Z.eqb_spec t 2); [inv_run; auto|].
  destruct (Z.eqb_spec t 3); [inv_run; auto|].
  destruct (Z.eqb_spec t 4); [inv_run; auto|].
  destruct (Z.eqb_spec t 5); [inv_run; auto|].
  destruct (Z.eqb_spec t 6); [inv_run; auto|].
  inv_run; auto.
Qed.

Lemma client_message_ready r w evs c w' :
  client_message r w = (evs, Val c w') ->
  flag_of c = r \/ c = Continue true.
Proof.
  unfold client_message. intros H. inv_run; auto.
  apply dispatch_ready in H1. tauto.
Qed.

(** ** One pass of the client-message loop *)

Section Passes.

Variable g : geometry.
Variable fps : Z.
Variable fbmem : list byte.

Lemma tick_readable r :
  tick g fps fbmem SelReadable r =
  (emit (EvSelect 1) ;;;
   c <- client_message r ;;
   match c with
   | Break r' => ret (Break r')
   | Continue r' => pump g fps fbmem r'
   end).
Proof. reflexivity. Qed.

Lemma tick_idle r :
  tick g fps fbmem SelIdle r =
  (emit (EvSelect 0) ;;; c <- ret (Continue r) ;;
   match c with
   | Break r' => ret (Break r')
   | Continue r' => pump g fps fbmem r'
   end).
Proof. reflexivity. Qed.

Lemma tick_fail e r :
  tick g fps fbmem (SelFail e) r =
  (emit (EvSelect (-1)) ;;;
   if negb (e =? EINTR) then ret (Break r) else
   c <- ret (Continue r) ;;
   match c with
   | Break r' => ret (Break r')
   | Continue r' => pump g fps fbmem r'
   end).
Proof. reflexivity. Qed.

(** The four ways through a pass that returns. *)
Lemma tick_inv s r w e c w' :
  tick g fps fbmem s r w = (e, Val c w') ->
  exists n em ep,
    e = EvSelect n :: em ++ ep /\
    ((n = -1 /\ em = [] /\ ep = [] /\ c = Break r /\ w' = w) \/
     (n = 1 /\ ep = [] /\ exists r1,
        c = Break r1 /\ client_message r w = (em, Val (Break r1) w')) \/
     (n = 1 /\ exists r1 w1,
        client_message r w = (em, Val (Continue r1) w1) /\
        pump g fps fbmem r1 w1 = (ep, Val c w')) \/
     ((n = 0 \/ n = -1) /\ em = [] /\ pump g fps fbmem r w = (ep, Val c w'))).
Proof.
  intros H. destruct s as [| |err].
  - rewrite tick_readable in H. unfold bind at 1 in H. cbn [emit] in H.
    unfold bind in H.
    destruct (client_message r w) as [em [[r1|r1] w1|]] eqn:Ecm.
    + cbn [ret] in H. inversion H; subst. exists 1, em, [].
      split; [reflexivity|]. right. left. eauto 10.
    + destruct (pump g fps fbmem r1 w1) as [ep x] eqn:Ep.
      inversion H; subst. exists 1, em, ep.
      split; [reflexivity|]. right. right. left. eauto 10.
    + discriminate.
  - rewrite tick_idle in H. unfold bind, emit, ret in H.
    destruct (pump g fps fbmem r w) as [ep x] eqn:Ep.
    inversion H; subst. exists 0, [], ep.
    split; [reflexivity|]. right. right. right. auto.
  - rewrite tick_fail in H. unfold bind at 1 in H. cbn [emit] in H.
    destruct (negb (err =? EINTR)).
    + cbn [ret] in H. inversion H; subst. exists (-1), [], [].
      split; [reflexivity|]. left. auto.
    + unfold bind, ret in H.
      destruct (pump g fps fbmem r w) as [ep x] eqn:Ep.
      inversion H; subst. exists (-1), [], ep.
      split; [reflexivity|]. right. right. right. auto.
Qed.

Lemma send_frame_flag r w e c w' :
  send_frame g fps fbmem r w = (e, Val c w') -> flag_of c = r.
Proof. unfold send_frame, msleep. intros H. inv_run; reflexivity. Qed.

Lemma pump_flag r w e c w' :
  pump g fps fbmem r w = (e, Val c w') -> flag_of c = r.
Proof.
  unfold pump, msleep. destruct r; cbn [negb].
  - apply send_frame_flag.
  - intros H. inv_io. reflexivity.
Qed.

Lemma pump_not_ready w :
  pump g fps fbmem false w = ([EvSleep 50], Val (Continue false) w).
Proof. reflexivity. Qed.

(** [client_ready] never goes back to 0 in a pass. *)
Lemma tick_flag s r w e c w' :
  tick g fps fbmem s r w = (e, Val c w') -> flag_of c = r \/ flag_of c = true.
Proof.
  intros H. apply tick_inv in H as (n & em & ep & -> & H).
  destruct H as [(_ & _ & _ & -> & _)|[(_ & _ & r1 & -> & H)|
    [(_ & r1 & w1 & H & Hp)|(_ & _ & Hp)]]].
  - left. reflexivity.
  - apply client_message_ready in H as [H|H]; [left; exact H|discriminate].
  - apply pump_flag in Hp. rewrite Hp.
    apply client_message_ready in H as [H|H]; [left; exact H|].
    inversion H. right. reflexivity.
  - left. eapply pump_flag; eauto.
Qed.

(** A pass that starts and ends with [client_ready = 0]. *)
Lemma tick_not_ready s w e c w' :
  tick g fps fbmem s false w = (e, Val c w') ->
  flag_of c = false ->
  forallb not_write e = true /\
  (c = Continue false ->
   exists n reads,
     e = EvSelect n :: reads ++ [EvSleep 50] /\
     forallb is_read reads = true /\
     ((reads = [] /\ w' = w) \/
      client_message false w = (reads, Val (Continue false) w'))).
Proof.
  intros H Hc. apply tick_inv in H as (n & em & ep & -> & H).
  destruct H as [(_ & -> & -> & -> & ->)|[(_ & -> & r1 & -> & H)|
    [(_ & r1 & w1 & H & Hp)|(_ & -> & Hp)]]].
  - split; [reflexivity|discriminate].
  - split; [|discriminate]. cbn [forallb app]. rewrite app_nil_r.
    apply reads_not_write. eapply only_run; [apply only_client_message|eauto].
  - pose proof (pump_flag _ _ _ _ _ Hp) as Hr. rewrite Hc in Hr. subst r1.
    rewrite pump_not_ready in Hp. inversion Hp; subst.
    pose proof (only_run _ _ _ _ _ (only_client_message false) H) as Hrd.
    split.
    + cbn [forallb]. rewrite forallb_app, (reads_not_write _ Hrd). reflexivity.
    + intros _. exists n, em. auto.
  - rewrite pump_not_ready in Hp. inversion Hp; subst. split; [reflexivity|].
    intros _. exists n, []. auto.
Qed.

(** ** Several passes *)

Lemma loop_at_flag sel r w evs sel' r' w' :
  loop_at g fps fbmem sel r w evs sel' r' w' -> r = true -> r' = true.
Proof.
  induction 1 as [|s sel r w e r1 w1 evs sel2 r2 w2 Ht _ IH]; [auto|].
  intros ->. apply IH. apply tick_flag in Ht as [Ht|Ht]; exact Ht.
Qed.

Lemma loop_at_length sel r w evs sel' r' w' :
  loop_at g fps fbmem sel r w evs sel' r' w' ->
  (length sel' <= length sel)%nat.
Proof. induction 1; cbn [length]; lia. Qed.

Lemma client_loop_at sel r w evs sel' r' w' :
  loop_at g fps fbmem sel r w evs sel' r' w' ->
  client_loop g fps fbmem sel r w
  = (evs ++ fst (client_loop g fps fbmem sel' r' w'),
     snd (client_loop g fps fbmem sel' r' w')).
Proof.
  induction 1 as [|s sel r w e r1 w1 evs sel2 r2 w2 Ht _ IH].
  - destruct (client_loop g fps fbmem sel r w); reflexivity.
  - cbn [client_loop]. rewrite (bind_val _ _ _ _ _ _ Ht). rewrite IH.
    cbn [fst snd]. rewrite app_assoc. reflexivity.
Qed.

(** A loop that was left went through complete passes and then a pass
    that ended in [break]. *)
Lemma client_loop_inv sel : forall r w evs r' w',
  client_loop g fps fbmem sel r w = (evs, Val r' w') ->
  exists evs1 s sel2 r2 w2 e,
    loop_at g fps fbmem sel r w evs1 (s :: sel2) r2 w2 /\
    tick g fps fbmem s r2 w2 = (e, Val (Break r') w') /\
    evs = evs1 ++ e.
Proof.
  induction sel as [|s sel IH]; intros r w evs r' w' H; cbn [client_loop] in H.
  - discriminate.
  - unfold bind in H.
    destruct (tick g fps fbmem s r w) as [e [[r1|r1] w1|]] eqn:Et;
      [| |discriminate].
    + cbn [ret] in H. inversion H; subst.
      exists [], s, sel, r, w, e. rewrite app_nil_r.
      split; [constructor|]. auto.
    + destruct (client_loop g fps fbmem sel r1 w1) as [e' x] eqn:El.
      inversion H; subst.
      apply IH in El as (evs1 & s2 & sel2 & r2 & w2 & e2 & Hl & Ht & ->).
      exists (e ++ evs1), s2, sel2, r2, w2, e2. rewrite app_assoc.
      split; [econstructor; eauto|]. auto.
Qed.

Lemma reads_no_sleep evs :
  forallb is_read evs = true ->
  filter is_sleep evs = [] /\ filter is_select evs = [].
Proof.
  induction evs as [|e evs IH]; [auto|]. cbn [forallb].
  intros H. apply andb_prop in H as [He H]. destruct (IH H) as [H1 H2].
  destruct e; try discriminate. cbn [filter is_sleep is_select]. auto.
Qed.

(** While [client_ready] is 0: no [write] call at all, and per pass one
    [select] and one 50 ms sleep. *)
Lemma loop_at_not_ready sel r w evs sel' r' w' :
  loop_at g fps fbmem sel r w evs sel' r' w' ->
  r = false -> r' = false ->
  forallb not_write evs = true /\
  filter is_sleep evs = repeat (EvSleep 50) (length sel - length sel') /\
  length (filter is_select evs) = (length sel - length sel')%nat.
Proof.
  induction 1 as [sel r w|s sel r w e r1 w1 evs sel2 r2 w2 Ht Hl IH];
    intros Hr Hr'.
  - rewrite Nat.sub_diag. auto.
  - subst r r2. destruct r1.
    { pose proof (loop_at_flag _ _ _ _ _ _ _ Hl eq_refl). discriminate. }
    destruct (IH eq_refl eq_refl) as (Hnw & Hsl & Hse).
    destruct (tick_not_ready _ _ _ _ _ Ht eq_refl) as [Hw1 Hshape].
    destruct (Hshape eq_refl) as (n & reads & -> & Hrd & _).
    destruct (reads_no_sleep _ Hrd) as [Hs1 Hs2].
    pose proof (loop_at_length _ _ _ _ _ _ _ Hl) as Hlen.
    replace (length (s :: sel) - length sel2)%nat
      with (S (length sel - length sel2)) by (cbn [length]; lia).
    split; [rewrite forallb_app, Hw1, Hnw; reflexivity|]. split.
    + rewrite filter_app. cbn [filter is_sleep]. rewrite filter_app, Hs1, Hsl.
      reflexivity.
    + rewrite filter_app. cbn [filter is_select].
      rewrite filter_app, Hs2. cbn [filter is_select app length].
      rewrite Hse. lia.
Qed.

End Passes.

(** ** Message types *)

(** A [read] that delivers the whole request at once. *)
Lemma read_all_exact bs q wq :
  bs <> [] ->
  read_all (Z.of_nat (length bs)) (mkWorld (RdData bs :: q) wq)
  = ([EvRead (Z.of_nat (length bs)) (Z.of_nat (length bs))],
     Val (0, bs) (mkWorld q wq)).
Proof.
  intros Hbs. unfold read_all. cbn [rdq wrq].
  assert (Hlen : Z.of_nat (length bs) <> 0) by (destruct bs; [contradiction|cbn [length]; lia]).
  rewrite read_loop_cons by exact Hlen. cbn [sys_read].
  rewrite Nat2Z.id, firstn_all.
  destruct (Z.ltb_spec (Z.of_nat (length bs)) 0); [lia|].
  destruct (Z.eqb_spec (Z.of_nat (length bs)) 0); [contradiction|].
  rewrite Z.sub_diag, read_loop_zero. reflexivity.
Qed.



Lemma dispatch_3 r :
  dispatch 3 r =
  (r1 <- read_all 1 ;;
   if negb (fst r1 =? 0) then ret (Break r) else
   f <- orelse (r <- read_all 2 ;; ret (negb (fst r =? 0)))
       (orelse (r <- read_all 2 ;; ret (negb (fst r =? 0)))
       (orelse (r <- read_all 2 ;; ret (negb (fst r =? 0)))
               (r <- read_all 2 ;; ret (negb (fst r =? 0))))) ;;
   if f : bool then ret (Break r) else ret (Continue true)).
Proof. reflexivity. Qed.

Lemma ends_failed_read_app e1 e2 :
  ends_failed_read e2 -> ends_failed_read (e1 ++ e2).
Proof.
  intros (pre & l & n & -> & Hn). exists (e1 ++ pre), l, n.
  rewrite app_assoc. auto.
Qed.




Lemma dispatch_3_result r w e c w' :
  dispatch 3 r w = (e, Val c w') -> c = Continue true \/ c = Break r.
Proof. rewrite dispatch_3. intros H. inv_run; auto. Qed.

Lemma dispatch_unknown t r :
  known_type t = false -> dispatch t r = ret (Break r).
Proof.
  unfold known_type, dispatch. intros H.
  repeat (apply orb_false_elim in H as [H ?]).
  repeat match goal with
  | Hx : (_ =? _) = false |- _ => rewrite Hx; clear Hx
  end.
  reflexivity.
Qed.

Lemma not_write_sent evs : forallb not_write evs = true -> sent evs = [].
Proof.
  induction evs as [|e evs IH]; [reflexivity|]. cbn [forallb].
  intros H. apply andb_prop in H as [He H]. rewrite sent_cons, IH by assumption.
  destruct e; try discriminate; reflexivity.
Qed.

(** The session once the handshake is through and [malloc] succeeded. *)
Lemma session_after_handshake g fps fbmem sel w e1 w1 :
  handshake g w = (e1, Val true w1) ->
  session g fps fbmem true sel w =
  (e1 ++ fst ((client_loop g fps fbmem sel false ;;;
               emit EvFree ;;; emit EvClose ;;; ret true) w1),
   snd ((client_loop g fps fbmem sel false ;;;
         emit EvFree ;;; emit EvClose ;;; ret true) w1)).
Proof. intros H. unfold session. rewrite (bind_val _ _ _ _ _ _ H). reflexivity. Qed.

(** A session whose loop is left: the calls of the handshake, those of the
    loop, then [free] and [close], and back to [accept]. *)
Lemma session_left g fps fbmem sel w e1 w1 e2 r w2 :
  handshake g w = (e1, Val true w1) ->
  client_loop g fps fbmem sel false w1 = (e2, Val r w2) ->
  session g fps fbmem true sel w = (e1 ++ e2 ++ [EvFree; EvClose], Val true w2).
Proof.
  intros H1 H2. rewrite (session_after_handshake _ _ _ _ _ _ _ H1).
  rewrite (bind_val _ _ _ _ _ _ H2). reflexivity.
Qed.

Lemma accept_loop_next g fps fbmem malloc_ok sel w evs b w' accs :
  session g fps fbmem malloc_ok sel w = (evs, Val b w') ->
  accept_loop g fps fbmem (AccConn malloc_ok sel w :: accs)
  = (evs :: fst (accept_loop g fps fbmem accs),
     snd (accept_loop g fps fbmem accs)).
Proof.
  intros H. cbn [accept_loop]. rewrite H.
  destruct (accept_loop g fps fbmem accs); reflexivity.
Qed.

(** A pass whose one-byte read brings an unknown type. *)
Lemma tick_unknown_type g fps fbmem r t rest q wq :
  known_type t = false ->
  tick g fps fbmem SelReadable r (mkWorld (RdData (t :: rest) :: q) wq)
  = ([EvSelect 1; EvRead 1 1], Val (Break r) (mkWorld q wq)).
Proof.
  intros Ht. rewrite tick_readable.
  assert (Hro : read_once (mkWorld (RdData (t :: rest) :: q) wq)
                = ([EvRead 1 1], Val (1, t) (mkWorld q wq))) by reflexivity.
  assert (Hcm : client_message r (mkWorld (RdData (t :: rest) :: q) wq)
                = ([EvRead 1 1], Val (Break r) (mkWorld q wq))).
  { unfold client_message. rewrite (bind_val _ _ _ _ _ _ Hro).
    cbn [fst snd Z.eqb Pos.eqb negb]. rewrite dispatch_unknown by exact Ht.
    reflexivity. }
  unfold bind at 1. cbn [emit]. rewrite (bind_val _ _ _ _ _ _ Hcm).
  reflexivity.
Qed.

(** A pass whose one-byte read does not return 1. *)
Lemma tick_type_read_fails g fps fbmem r rd q wq :
  fst (fst (sys_read rd 1)) <> 1 ->
  tick g fps fbmem SelReadable r (mkWorld (rd :: q) wq)
  = ([EvSelect 1; EvRead 1 (fst (fst (sys_read rd 1)))],
     Val (Break r) (mkWorld q wq)).
Proof.
  intros Hn. rewrite tick_readable.
  assert (Hcm : client_message r (mkWorld (rd :: q) wq)
                = ([EvRead 1 (fst (fst (sys_read rd 1)))],
                   Val (Break r) (mkWorld q wq))).
  { unfold client_message, bind, read_once. cbn [rdq wrq].
    destruct (sys_read rd 1) as [[n e] d]. cbn [fst snd] in *.
    destruct (Z.eqb_spec n 1); [contradiction|]. reflexivity. }
  unfold bind at 1. cbn [emit]. rewrite (bind_val _ _ _ _ _ _ Hcm).
  reflexivity.
Qed.

(** The loop is left by a pass that ends in [break]. *)
Lemma client_loop_break g fps fbmem s sel r w e r' w' :
  tick g fps fbmem s r w = (e, Val (Break r') w') ->
  client_loop g fps fbmem (s :: sel) r w = (e, Val r' w').
Proof.
  intros H. cbn [client_loop]. rewrite (bind_val _ _ _ _ _ _ H).
  cbn [fst snd ret]. rewrite app_nil_r. reflexivity.
Qed.


(** The first four steps of the handshake when each transfer succeeds:
    the choice is the byte the last read brought. *)
Lemma wfail_ok buf w e w1 :
  write_all buf w = (e, Val 0 w1) -> wfail buf w = (e, Val false w1).
Proof.
  intros H. unfold wfail. rewrite (bind_val _ _ _ _ _ _ H).
  cbn [Z.eqb negb ret fst snd]. rewrite app_nil_r. reflexivity.
Qed.

Lemma negotiate_run w ev1 w1 er1 cver w2 ev2 w3 er2 buf w4 :
  write_all ver w = (ev1, Val 0 w1) ->
  read_all 12 w1 = (er1, Val (0, cver) w2) ->
  write_all sec_types w2 = (ev2, Val 0 w3) ->
  read_all 1 w3 = (er2, Val (0, buf) w4) ->
  negotiate w = (ev1 ++ er1 ++ ev2 ++ er2, Val (Some (nth 0 buf 0)) w4).
Proof.
  intros H1 H2 H3 H4. apply wfail_ok in H1. apply wfail_ok in H3.
  unfold negotiate.
  rewrite (bind_val _ _ _ _ _ _ H1). cbv iota.
  rewrite (bind_val _ _ _ _ _ _ H2). cbn [fst snd Z.eqb negb].
  rewrite (bind_val _ _ _ _ _ _ H3). cbv iota.
  rewrite (bind_val _ _ _ _ _ _ H4). cbn [fst snd Z.eqb negb ret].
  rewrite app_nil_r. reflexivity.
Qed.

(** A session whose client chose another security type than 1. *)
Lemma session_bad_choice g fps fbmem malloc_ok sel w e1 b w1 :
  negotiate w = (e1, Val (Some b) w1) ->
  b <> 1 ->
  session g fps fbmem malloc_ok sel w = (e1 ++ [EvClose], Val false w1).
Proof.
  intros Hn Hb.
  assert (Hh : handshake g w = (e1 ++ [EvClose], Val false w1)).
  { unfold handshake. rewrite (bind_val _ _ _ _ _ _ Hn).
    destruct (Z.eqb_spec b 1); [contradiction|]. reflexivity. }
  unfold session. rewrite (bind_val _ _ _ _ _ _ Hh). cbn [negb fst snd ret].
  rewrite app_nil_r. reflexivity.
Qed.

(** One [write] that takes the whole buffer. *)
Lemma write_all_whole p k rq wq :
  p <> [] -> (length p <= k)%nat ->
  write_all p (mkWorld rq (WrAccept k :: wq))
  = ([EvWrite p (Z.of_nat (length p))], Val 0 (mkWorld rq wq)).
Proof.
  intros Hp Hk. unfold write_all. cbn [wrq rdq].
  destruct p as [|b p]; [contradiction|].
  rewrite write_loop_cons. cbn [sys_write].
  rewrite Nat.min_r by exact Hk.
  destruct (Z.ltb_spec (Z.of_nat (length (b :: p))) 0); [lia|].
  destruct (Z.eqb_spec (Z.of_nat (length (b :: p))) 0);
    [cbn [length] in *; lia|].
  rewrite Nat2Z.id, skipn_all, write_loop_nil. reflexivity.
Qed.

(** One [read] of one byte when the client has sent at least one. *)
Lemma read_all_first b rest q wq :
  read_all 1 (mkWorld (RdData (b :: rest) :: q) wq)
  = ([EvRead 1 1], Val (0, [b]) (mkWorld q wq)).
Proof.
  unfold read_all. cbn [rdq wrq].
  rewrite read_loop_cons by discriminate.
  cbn [sys_read Z.to_nat Pos.to_nat Pos.iter_op Nat.add firstn length
       Z.of_nat Pos.of_succ_nat Z.ltb Z.eqb Z.compare Pos.eqb Z.sub Z.add
       Z.opp Z.pos_sub app].
  rewrite read_loop_zero. reflexivity.
Qed.

(** C6. A security choice other than 1.  Whatever the kernel does on the
    way, once the server's version is written, twelve bytes are read, the
    offer is written and the one-byte read of the choice brings [b], with
    [b] other than 1, the session is those calls followed by [close]
    alone: nothing is written after the read that brought [b], and all the
    client was sent is the version and the offer.  In particular for a
    client that sends twelve bytes and then a first byte [b] other than 1,
    with a kernel that takes each buffer whole: the session is five calls,
    the last of them [close].  A message type outside 0, 2, 3, 4, 5, 6, at
    any pass of the client-message loop: after the [select] and the
    one-byte read of that pass come [free] and [close] alone.  In each case
    nothing is written after the violation, and the accept loop goes on to
    the next connection. *)
Theorem C6_protocol_violation :
  forall g fps fbmem,
    (forall malloc_ok sel w ev1 w1 er1 cver w2 ev2 w3 er2 b w4 accs,
       write_all ver w = (ev1, Val 0 w1) ->
       read_all 12 w1 = (er1, Val (0, cver) w2) ->
       write_all sec_types w2 = (ev2, Val 0 w3) ->
       read_all 1 w3 = (er2, Val (0, [b]) w4) ->
       b <> 1 ->
       session g fps fbmem malloc_ok sel w
       = (ev1 ++ er1 ++ ev2 ++ er2 ++ [EvClose], Val false w4) /\
       sent (ev1 ++ er1 ++ ev2 ++ er2 ++ [EvClose]) = ver ++ sec_types /\
       forallb not_write (er2 ++ [EvClose]) = true /\
       accept_loop g fps fbmem (AccConn malloc_ok sel w :: accs)
       = ((ev1 ++ er1 ++ ev2 ++ er2 ++ [EvClose])
            :: fst (accept_loop g fps fbmem accs),
          snd (accept_loop g fps fbmem accs))) /\
    (forall malloc_ok sel cver b rest q k1 k2 wq accs,
       length cver = 12%nat ->
       (12 <= k1)%nat -> (2 <= k2)%nat ->
       b <> 1 ->
       session g fps fbmem malloc_ok sel
         (mkWorld (RdData cver :: RdData (b :: rest) :: q)
                  (WrAccept k1 :: WrAccept k2 :: wq))
       = ([EvWrite ver 12; EvRead 12 12; EvWrite sec_types 2; EvRead 1 1;
           EvClose],
          Val false (mkWorld q wq)) /\
       accept_loop g fps fbmem
         (AccConn malloc_ok sel
            (mkWorld (RdData cver :: RdData (b :: rest) :: q)
                     (WrAccept k1 :: WrAccept k2 :: wq)) :: accs)
       = ([EvWrite ver 12; EvRead 12 12; EvWrite sec_types 2; EvRead 1 1;
           EvClose] :: fst (accept_loop g fps fbmem accs),
          snd (accept_loop g fps fbmem accs))) /\
    (forall sel w e1 w1 evs sel' r' t rest q wq accs,
       handshake g w = (e1, Val true w1) ->
       loop_at g fps fbmem sel false w1 evs (SelReadable :: sel') r'
               (mkWorld (RdData (t :: rest) :: q) wq) ->
       known_type t = false ->
       session g fps fbmem true sel w
       = (e1 ++ (evs ++ [EvSelect 1; EvRead 1 1]) ++ [EvFree; EvClose],
          Val true (mkWorld q wq)) /\
       accept_loop g fps fbmem (AccConn true sel w :: accs)
       = ((e1 ++ (evs ++ [EvSelect 1; EvRead 1 1]) ++ [EvFree; EvClose])
            :: fst (accept_loop g fps fbmem accs),
          snd (accept_loop g fps fbmem accs))).
Proof.
  intros g fps fbmem. split; [|split].
  - intros malloc_ok sel w ev1 w1 er1 cver w2 ev2 w3 er2 b w4 accs
      H1 H2 H3 H4 Hb.
    pose proof (negotiate_run _ _ _ _ _ _ _ _ _ _ _ H1 H2 H3 H4) as Hn.
    cbn [nth] in Hn.
    pose proof (session_bad_choice g fps fbmem malloc_ok sel _ _ _ _ Hn Hb)
      as Hs.
    rewrite <- !app_assoc in Hs.
    split; [exact Hs|]. split; [|split].
    + apply write_all_cases in H1 as [_ [[_ S1]|[C1 _]]]; [|discriminate].
      apply write_all_cases in H3 as [_ [[_ S3]|[C3 _]]]; [|discriminate].
      rewrite !sent_app, S1, S3.
      rewrite (read_all_sent _ _ _ _ H2), (read_all_sent _ _ _ _ H4).
      cbn [sent flat_map sent_of app]. rewrite app_nil_r. reflexivity.
    + rewrite forallb_app. apply andb_true_intro. split; [|reflexivity].
      apply reads_not_write.
      eapply only_run; [apply (only_read_all 1)|exact H4].
    + apply (accept_loop_next _ _ _ _ _ _ _ _ _ _ Hs).
  - intros malloc_ok sel cver b rest q k1 k2 wq accs Hc Hk1 Hk2 Hb.
    assert (Hs : session g fps fbmem malloc_ok sel
         (mkWorld (RdData cver :: RdData (b :: rest) :: q)
                  (WrAccept k1 :: WrAccept k2 :: wq))
       = ([EvWrite ver 12; EvRead 12 12; EvWrite sec_types 2; EvRead 1 1;
           EvClose],
          Val false (mkWorld q wq))).
    { assert (Hn : negotiate
         (mkWorld (RdData cver :: RdData (b :: rest) :: q)
                  (WrAccept k1 :: WrAccept k2 :: wq))
         = ([EvWrite ver 12] ++ [EvRead 12 12] ++ [EvWrite sec_types 2]
            ++ [EvRead 1 1], Val (Some (nth 0 [b] 0)) (mkWorld q wq))).
      { eapply negotiate_run.
        - apply (write_all_whole ver k1); [discriminate|exact Hk1].
        - assert (Hne : cver <> []) by (intros ->; discriminate).
          pose proof (read_all_exact cver (RdData (b :: rest) :: q)
                        (WrAccept k2 :: wq) Hne) as Hr.
          rewrite Hc in Hr. exact Hr.
        - apply (write_all_whole sec_types k2); [discriminate|exact Hk2].
        - apply read_all_first. }
      cbn [nth] in Hn.
      apply (session_bad_choice g fps fbmem malloc_ok sel _ _ _ _ Hn Hb). }
    split; [exact Hs|]. apply (accept_loop_next _ _ _ _ _ _ _ _ _ _ Hs).
  - intros sel w e1 w1 evs sel' r' t rest q wq accs Hh Hl Ht.
    assert (Hs : session g fps fbmem true sel w
       = (e1 ++ (evs ++ [EvSelect 1; EvRead 1 1]) ++ [EvFree; EvClose],
          Val true (mkWorld q wq))).
    { apply session_left with (w1 := w1) (r := r'); [exact Hh|].
      rewrite (client_loop_at _ _ _ _ _ _ _ _ _ _ Hl).
      rewrite (client_loop_break _ _ _ _ _ _ _ _ _ _
                 (tick_unknown_type g fps fbmem r' t rest q wq Ht)).
      reflexivity. }
    split; [exact Hs|]. apply (accept_loop_next _ _ _ _ _ _ _ _ _ _ Hs).
Qed.

(** ** Frame pacing *)

Lemma send_frame_sleeps g fps fbmem r w e r' w' :
  send_frame g fps fbmem r w = (e, Val (Continue r') w') ->
  exists pre, e = pre ++ [EvSleep (frame_delay fps)].
Proof.
  unfold send_frame, msleep. intros H. inv_run.
  eexists (_ ++ _). rewrite app_nil_r, <- app_assoc. reflexivity.
Qed.

(** C8. A pass that starts and ends with [client_ready = 0] makes no
    [write] call: it is one [select], the reads of at most one client
    message, and one sleep of 50 ms.  So are any number of such passes, and
    a whole client-message loop left with [client_ready] still 0: nothing
    is written.  [client_ready] stays 0 through every message of a type
    other than 3, and a type-3 message either sets it or ends the loop. *)
Theorem C8_nothing_sent_before_request :
  forall g fps fbmem,
    (forall s w e c w',
       tick g fps fbmem s false w = (e, Val c w') ->
       flag_of c = false ->
       forallb not_write e = true /\
       (c = Continue false ->
        exists n reads,
          e = EvSelect n :: reads ++ [EvSleep 50] /\
          forallb is_read reads = true /\
          ((reads = [] /\ w' = w) \/
           client_message false w = (reads, Val (Continue false) w')))) /\
    (forall sel w evs sel' w',
       loop_at g fps fbmem sel false w evs sel' false w' ->
       forallb not_write evs = true /\
       sent evs = [] /\
       filter is_sleep evs = repeat (EvSleep 50) (length sel - length sel') /\
       length (filter is_select evs) = (length sel - length sel')%nat) /\
    (forall sel w evs w',
       client_loop g fps fbmem sel false w = (evs, Val false w') ->
       forallb not_write evs = true /\ sent evs = []) /\
    (forall t w e c w',
       t <> 3 -> dispatch t false w = (e, Val c w') -> flag_of c = false) /\
    (forall w e c w',
       dispatch 3 false w = (e, Val c w') ->
       c = Continue true \/ c = Break false).
Proof.
  intros g fps fbmem. split; [|split; [|split; [|split]]].
  - intros s w e c w'. apply tick_not_ready.
  - intros sel w evs sel' w' H.
    destruct (loop_at_not_ready _ _ _ _ _ _ _ _ _ _ H eq_refl eq_refl)
      as (Hnw & Hsl & Hse).
    auto using not_write_sent.
  - intros sel w evs w' H.
    apply client_loop_inv in H as (evs1 & s & sel2 & r2 & w2 & e & Hl & Ht & ->).
    assert (r2 = false) as ->.
    { apply tick_flag in Ht as [Ht|Ht]; [symmetry; exact Ht|discriminate]. }
    destruct (loop_at_not_ready _ _ _ _ _ _ _ _ _ _ Hl eq_refl eq_refl)
      as (Hnw & _).
    destruct (tick_not_ready _ _ _ _ _ _ _ _ Ht eq_refl) as [Hnw' _].
    assert (Hall : forallb not_write (evs1 ++ e) = true)
      by (rewrite forallb_app, Hnw, Hnw'; reflexivity).
    auto using not_write_sent.
  - intros t w e c w' Ht H. apply dispatch_ready in H as [H|[H _]];
      [exact H|contradiction].
  - intros w e c w'. apply dispatch_3_result.
Qed.

(** C10. The message-type byte is read by one [read] call.  If that call
    returns anything but 1 (an interruption by EINTR, any other error, an
    end of stream), the pass ends the loop there, although [select] had
    reported the socket readable, and the session goes to [free] and
    [close] without another call.  A payload read interrupted in the same
    way is repeated instead. *)
Theorem C10_type_byte_read_once :
  forall g fps fbmem,
    (forall r rd q wq,
       fst (fst (sys_read rd 1)) <> 1 ->
       tick g fps fbmem SelReadable r (mkWorld (rd :: q) wq)
       = ([EvSelect 1; EvRead 1 (fst (fst (sys_read rd 1)))],
          Val (Break r) (mkWorld q wq))) /\
    (forall r e q wq,
       tick g fps fbmem SelReadable r (mkWorld (RdFail e :: q) wq)
       = ([EvSelect 1; EvRead 1 (-1)], Val (Break r) (mkWorld q wq))) /\
    (forall r q wq,
       tick g fps fbmem SelReadable r (mkWorld (RdData [] :: q) wq)
       = ([EvSelect 1; EvRead 1 0], Val (Break r) (mkWorld q wq))) /\
    (forall sel w e1 w1 evs sel' r' rd q wq,
       handshake g w = (e1, Val true w1) ->
       loop_at g fps fbmem sel false w1 evs (SelReadable :: sel') r'
               (mkWorld (rd :: q) wq) ->
       fst (fst (sys_read rd 1)) <> 1 ->
       session g fps fbmem true sel w
       = (e1 ++ (evs ++ [EvSelect 1; EvRead 1 (fst (fst (sys_read rd 1)))])
             ++ [EvFree; EvClose],
          Val true (mkWorld q wq))) /\
    (forall len q wq,
       len <> 0 ->
       read_all len (mkWorld (RdFail EINTR :: q) wq)
       = (EvRead len (-1) :: fst (read_all len (mkWorld q wq)),
          snd (read_all len (mkWorld q wq)))).
Proof.
  intros g fps fbmem. split; [|split; [|split; [|split]]].
  - intros r rd q wq. apply tick_type_read_fails.
  - intros r e q wq.
    apply (tick_type_read_fails g fps fbmem r (RdFail e)). discriminate.
  - intros r q wq.
    apply (tick_type_read_fails g fps fbmem r (RdData [])). discriminate.
  - intros sel w e1 w1 evs sel' r' rd q wq Hh Hl Hn.
    apply session_left with (w1 := w1) (r := r'); [exact Hh|].
    rewrite (client_loop_at _ _ _ _ _ _ _ _ _ _ Hl).
    rewrite (client_loop_break _ _ _ _ _ _ _ _ _ _
               (tick_type_read_fails g fps fbmem r' rd q wq Hn)).
    reflexivity.
  - intros len q wq Hlen. unfold read_all. cbn [rdq wrq].
    rewrite read_loop_cons by exact Hlen. cbn [sys_read].
    change (-1 <? 0) with true. rewrite Z.eqb_refl. cbv iota.
    destruct (read_loop q len []) as [e [[[rc got] q']|]]; reflexivity.
Qed.

(** ** Inner loops left by [break] *)

(** The text loop needs no more than [Z.to_nat len] passes. *)
Lemma cut_loop_fuel f1 : forall f2 len w,
  0 <= len -> (Z.to_nat len <= f1)%nat -> (Z.to_nat len <= f2)%nat ->
  cut_loop f1 len w = cut_loop f2 len w.
Proof.
  induction f1 as [|f1 IH]; intros f2 len w Hlen H1 H2.
  - assert (len = 0) as -> by lia. destruct f2; reflexivity.
  - destruct f2 as [|f2]; [assert (len = 0) as -> by lia; reflexivity|].
    cbn [cut_loop]. destruct (Z.eqb_spec len 0); [reflexivity|].
    unfold bind.
    destruct (read_all (if len >? 256 then 256 else len) w)
      as [e [[rc buf] w1|]]; [|reflexivity].
    cbn [fst]. destruct (negb (rc =? 0)); [reflexivity|].
    rewrite (IH f2); [reflexivity| | |];
      destruct (Z.gtb_spec len 256); lia.
Qed.

(** A failed read in the encoding list: the message counts as consumed. *)
Lemma enc_list_break_ignored r w padb e1 w1 buf e2 w2 e3 w3 :
  read_all 1 w = (e1, Val (0, padb) w1) ->
  read_all 2 w1 = (e2, Val (0, buf) w2) ->
  enc_loop (Z.to_nat (ntohs (load16 buf))) w2 = (e3, Val false w3) ->
  dispatch 2 r w = (e1 ++ e2 ++ e3, Val (Continue r) w3).
Proof.
  intros H1 H2 H3.
  change (dispatch 2 r) with
    (x <- read_all 1 ;;
     if negb (fst x =? 0) then ret (Break r) else
     y <- read_all 2 ;;
     if negb (fst y =? 0) then ret (Break r) else
     enc_loop (Z.to_nat (ntohs (load16 (snd y)))) ;;; ret (Continue r)).
  rewrite (bind_val _ _ _ _ _ _ H1). cbn [fst snd Z.eqb negb].
  rewrite (bind_val _ _ _ _ _ _ H2). cbn [fst snd Z.eqb negb].
  rewrite (bind_val _ _ _ _ _ _ H3). cbn [fst snd ret].
  rewrite app_nil_r. reflexivity.
Qed.

(** A failed read in the cut text: the message counts as consumed. *)
Lemma cut_text_break_ignored r w padb e1 w1 buf e2 w2 e3 w3 :
  read_all 3 w = (e1, Val (0, padb) w1) ->
  read_all 4 w1 = (e2, Val (0, buf) w2) ->
  cut_loop (Z.to_nat (ntohl (load32 buf))) (ntohl (load32 buf)) w2
  = (e3, Val false w3) ->
  dispatch 6 r w = (e1 ++ e2 ++ e3, Val (Continue r) w3).
Proof.
  intros H1 H2 H3.
  change (dispatch 6 r) with
    (x <- read_all 3 ;;
     if negb (fst x =? 0) then ret (Break r) else
     y <- read_all 4 ;;
     if negb (fst y =? 0) then ret (Break r) else
     cut_loop (Z.to_nat (ntohl (load32 (snd y)))) (ntohl (load32 (snd y))) ;;;
     ret (Continue r)).
  rewrite (bind_val _ _ _ _ _ _ H1). cbn [fst snd Z.eqb negb].
  rewrite (bind_val _ _ _ _ _ _ H2). cbn [fst snd Z.eqb negb].
  rewrite (bind_val _ _ _ _ _ _ H3). cbn [fst snd ret].
  rewrite app_nil_r. reflexivity.
Qed.

(** A failed scanline write: the pass sleeps and goes on. *)
Lemma scan_break_ignored g fps fbmem r w e1 w1 e2 w2 :
  frame_header g w = (e1, Val false w1) ->
  scan_loop g fbmem (Z.to_nat (height g)) 0 w1 = (e2, Val false w2) ->
  send_frame g fps fbmem r w
  = (e1 ++ e2 ++ [EvSleep (frame_delay fps)], Val (Continue r) w2).
Proof.
  intros H1 H2. unfold send_frame. rewrite (bind_val _ _ _ _ _ _ H1).
  cbn [fst snd]. rewrite (bind_val _ _ _ _ _ _ H2). reflexivity.
Qed.

(** C3, on the code.  A ready session, 3 frames per second.  The client
    sends SetEncodings with a count of 1 and closes before the entry: the
    four-byte read returns 0, and the same pass writes a whole
    FramebufferUpdate, sleeps, and asks for the next pass.  The same with a
    ClientCutText of length 5 cut after two bytes.  A KeyEvent cut in the
    same way ends the loop at the failed read. *)
Theorem C3_short_payload_read :
  tick demo_g 3 demo_fb SelReadable true
       (mkWorld [RdData [2]; RdData [0]; RdData [0; 1]; RdData []] (accepts 8))
  = ([EvSelect 1; EvRead 1 1; EvRead 1 1; EvRead 2 2; EvRead 4 0;
      EvWrite [0; 0; 0; 1] 4;
      EvWrite [0; 0] 2; EvWrite [0; 0] 2; EvWrite [0; 2] 2; EvWrite [0; 2] 2;
      EvWrite [0; 0; 0; 0] 4;
      EvWrite [0; 1; 2; 3; 4; 5; 6; 7] 8;
      EvWrite [12; 13; 14; 15; 16; 17; 18; 19] 8;
      EvSleep 333],
     Val (Continue true) (mkWorld [] [])) /\
  tick demo_g 3 demo_fb SelReadable true
       (mkWorld [RdData [6]; RdData [0; 0; 0]; RdData [0; 0; 0; 5];
                 RdData [7; 7]; RdData []] (accepts 8))
  = ([EvSelect 1; EvRead 1 1; EvRead 3 3; EvRead 4 4; EvRead 5 2; EvRead 3 0;
      EvWrite [0; 0; 0; 1] 4;
      EvWrite [0; 0] 2; EvWrite [0; 0] 2; EvWrite [0; 2] 2; EvWrite [0; 2] 2;
      EvWrite [0; 0; 0; 0] 4;
      EvWrite [0; 1; 2; 3; 4; 5; 6; 7] 8;
      EvWrite [12; 13; 14; 15; 16; 17; 18; 19] 8;
      EvSleep 333],
     Val (Continue true) (mkWorld [] [])) /\
  tick demo_g 3 demo_fb SelReadable true
       (mkWorld [RdData [4]; RdData []] (accepts 8))
  = ([EvSelect 1; EvRead 1 1; EvRead 7 0],
     Val (Break true) (mkWorld [] (accepts 8))).
Proof. repeat split; vm_compute; reflexivity. Qed.

(** C4, on the code.  A ready session, 3 frames per second, no client
    message pending.  The six header writes succeed and the write of the
    first scanline fails: the second scanline is not written, but the pass
    then sleeps 333 ms, the loop polls the socket again and writes the
    header of a next frame; only the failure of that write ends the loop.
    A failure of the first header write ends the loop at once. *)
Theorem C4_failed_scanline_write :
  client_loop demo_g 3 demo_fb [SelIdle; SelIdle] true
              (mkWorld [] (accepts 6 ++ [WrFail EPIPE; WrFail EPIPE]))
  = ([EvSelect 0;
      EvWrite [0; 0; 0; 1] 4;
      EvWrite [0; 0] 2; EvWrite [0; 0] 2; EvWrite [0; 2] 2; EvWrite [0; 2] 2;
      EvWrite [0; 0; 0; 0] 4;
      EvWrite [0; 1; 2; 3; 4; 5; 6; 7] (-1);
      EvSleep 333;
      EvSelect 0;
      EvWrite [0; 0; 0; 1] (-1)],
     Val true (mkWorld [] [])) /\
  client_loop demo_g 3 demo_fb [SelIdle; SelIdle] true
              (mkWorld [] [WrFail EPIPE; WrFail EPIPE])
  = ([EvSelect 0; EvWrite [0; 0; 0; 1] (-1)],
     Val true (mkWorld [] [WrFail EPIPE])).
Proof. split; vm_compute; reflexivity. Qed.

(** ** The theorems at work on the example connection *)

(** Handshake, one FramebufferUpdateRequest, one frame: after the 64 bytes
    of the handshake come the header, the rectangle and the two lines of
    pixels, without the padding bytes 8..11 and 20..23. *)
Example session_one_frame :
  skipn 64
    (sent (fst (session demo_g 3 demo_fb true [SelReadable]
                  (mkWorld (demo_hello ++ demo_request) (accepts 16)))))
  = [0; 0; 0; 1;
     0; 0; 0; 0; 0; 2; 0; 2; 0; 0; 0; 0;
     0; 1; 2; 3; 4; 5; 6; 7;
     12; 13; 14; 15; 16; 17; 18; 19].
Proof. vm_compute. reflexivity. Qed.

Lemma C1_handshake_bytes_witness :
  snd (handshake demo_g (mkWorld demo_hello (accepts 8)))
  = Val true (mkWorld [] []) /\
  sent (fst (handshake demo_g (mkWorld demo_hello (accepts 8))))
  = [82; 70; 66; 32; 48; 48; 51; 46; 48; 48; 56; 10;
     1; 1;
     0; 0; 0; 0;
     0; 2; 0; 2;
     32; 24; 0; 1; 0; 255; 0; 255; 0; 255; 16; 8; 0; 0; 0; 0;
     0; 0; 0; 22;
     79; 112; 101; 110; 67; 101; 110; 116; 97; 117; 114; 105; 32;
     102; 98; 48; 32; 40; 82; 65; 87; 41].
Proof.
  split; [reflexivity|].
  exact (proj1 (C1_handshake_bytes demo_g (mkWorld demo_hello (accepts 8))
                  (fst (handshake demo_g (mkWorld demo_hello (accepts 8))))
                  (mkWorld [] []) eq_refl)).
Defined.

Lemma C2_scanline_payload_witness :
  (0 <= width demo_g /\ 0 <= height demo_g /\
   width demo_g * 4 <= stride demo_g /\
   Z.of_nat (length demo_fb) = stride demo_g * height demo_g) /\
  sent (fst (scan_loop demo_g demo_fb 2 0 (mkWorld [] (accepts 2))))
  = [0; 1; 2; 3; 4; 5; 6; 7; 12; 13; 14; 15; 16; 17; 18; 19].
Proof.
  split; [repeat split; discriminate|].
  refine (proj1 (proj1 (proj2 (proj2
    (C2_scanline_payload demo_g demo_fb _ _ _ eq_refl)))
    (mkWorld [] (accepts 2))
    (fst (scan_loop demo_g demo_fb 2 0 (mkWorld [] (accepts 2))))
    (mkWorld [] []) eq_refl)); discriminate.
Defined.


(** A client that chooses security type 2: once over a kernel that
    interrupts and splits the transfers, once over one that takes each
    whole; then a client that completes the handshake and sends message
    type 99. *)
Lemma C6_protocol_violation_witness :
  (2 <> 1 /\
   session demo_g 3 demo_fb true [SelIdle]
     (mkWorld [RdData [82; 70; 66; 32; 48]; RdFail EINTR;
               RdData [48; 51; 46; 48; 48; 51; 10]; RdData [2]; RdData [9]]
              [WrAccept 5; WrFail EINTR; WrAccept 4096; WrAccept 1;
               WrAccept 1; WrAccept 4096])
   = ([EvWrite ver 5; EvWrite (skipn 5 ver) (-1); EvWrite (skipn 5 ver) 7]
      ++ [EvRead 12 5; EvRead 7 (-1); EvRead 7 7]
      ++ [EvWrite [1; 1] 1; EvWrite [1] 1]
      ++ [EvRead 1 1] ++ [EvClose],
      Val false (mkWorld [RdData [9]] [WrAccept 4096]))) /\
  (length (bytes_of_string ("RFB 003.003" ++ LF)) = 12%nat /\
   session demo_g 3 demo_fb true [SelIdle]
     (mkWorld [RdData (bytes_of_string ("RFB 003.003" ++ LF));
               RdData [2; 0; 0]; RdData [9]]
              (accepts 8))
   = ([EvWrite ver 12; EvRead 12 12; EvWrite sec_types 2; EvRead 1 1;
       EvClose],
      Val false (mkWorld [RdData [9]] (accepts 6)))) /\
  ((snd (handshake demo_g (mkWorld (demo_hello ++ [RdData [99]]) (accepts 8)))
    = Val true (mkWorld [RdData [99]] []) /\
    known_type 99 = false) /\
   session demo_g 3 demo_fb true [SelReadable; SelIdle]
           (mkWorld (demo_hello ++ [RdData [99]]) (accepts 8))
   = (fst (handshake demo_g (mkWorld (demo_hello ++ [RdData [99]]) (accepts 8)))
      ++ ([] ++ [EvSelect 1; EvRead 1 1]) ++ [EvFree; EvClose],
      Val true (mkWorld [] []))).
Proof.
  split; [|split].
  - split; [discriminate|].
    refine (proj1 (proj1 (C6_protocol_violation demo_g 3 demo_fb)
      true [SelIdle]
      (mkWorld [RdData [82; 70; 66; 32; 48]; RdFail EINTR;
                RdData [48; 51; 46; 48; 48; 51; 10]; RdData [2]; RdData [9]]
               [WrAccept 5; WrFail EINTR; WrAccept 4096; WrAccept 1;
                WrAccept 1; WrAccept 4096])
      [EvWrite ver 5; EvWrite (skipn 5 ver) (-1); EvWrite (skipn 5 ver) 7]
      (mkWorld [RdData [82; 70; 66; 32; 48]; RdFail EINTR;
                RdData [48; 51; 46; 48; 48; 51; 10]; RdData [2]; RdData [9]]
               [WrAccept 1; WrAccept 1; WrAccept 4096])
      [EvRead 12 5; EvRead 7 (-1); EvRead 7 7]
      [82; 70; 66; 32; 48; 48; 51; 46; 48; 48; 51; 10]
      (mkWorld [RdData [2]; RdData [9]]
               [WrAccept 1; WrAccept 1; WrAccept 4096])
      [EvWrite [1; 1] 1; EvWrite [1] 1]
      (mkWorld [RdData [2]; RdData [9]] [WrAccept 4096])
      [EvRead 1 1] 2
      (mkWorld [RdData [9]] [WrAccept 4096])
      [] eq_refl eq_refl eq_refl eq_refl _)).
    discriminate.
  - split; [reflexivity|].
    refine (proj1 (proj1 (proj2 (C6_protocol_violation demo_g 3 demo_fb))
      true [SelIdle] (bytes_of_string ("RFB 003.003" ++ LF)) 2 [0; 0]
      [RdData [9]] 4096%nat 4096%nat (accepts 6) [] eq_refl _ _ _)).
    + apply Nat.leb_le. reflexivity.
    + apply Nat.leb_le. reflexivity.
    + discriminate.
  - split; [split; reflexivity|].
    exact (proj1 (proj2 (proj2 (C6_protocol_violation demo_g 3 demo_fb))
             [SelReadable; SelIdle]
             (mkWorld (demo_hello ++ [RdData [99]]) (accepts 8))
             (fst (handshake demo_g
                     (mkWorld (demo_hello ++ [RdData [99]]) (accepts 8))))
             (mkWorld [RdData [99]] []) [] [SelIdle] false 99 [] [] [] []
             eq_refl
             (loop_here demo_g 3 demo_fb [SelReadable; SelIdle] false
                        (mkWorld [RdData [99]] []))
             eq_refl)).
Defined.

Lemma C8_nothing_sent_before_request_witness :
  snd (client_loop demo_g 3 demo_fb [SelIdle; SelReadable; SelFail 9] false
         (mkWorld [RdData [4]; RdData [1; 0; 0; 0; 0; 0; 65]] (accepts 8)))
  = Val false (mkWorld [] (accepts 8)) /\
  fst (client_loop demo_g 3 demo_fb [SelIdle; SelReadable; SelFail 9] false
         (mkWorld [RdData [4]; RdData [1; 0; 0; 0; 0; 0; 65]] (accepts 8)))
  = [EvSelect 0; EvSleep 50; EvSelect 1; EvRead 1 1; EvRead 7 7; EvSleep 50;
     EvSelect (-1)] /\
  sent (fst (client_loop demo_g 3 demo_fb [SelIdle; SelReadable; SelFail 9]
               false
               (mkWorld [RdData [4]; RdData [1; 0; 0; 0; 0; 0; 65]]
                        (accepts 8))))
  = [].
Proof.
  split; [reflexivity|]. split; [reflexivity|].
  exact (proj2 (proj1 (proj2 (proj2
           (C8_nothing_sent_before_request demo_g 3 demo_fb)))
           [SelIdle; SelReadable; SelFail 9]
           (mkWorld [RdData [4]; RdData [1; 0; 0; 0; 0; 0; 65]] (accepts 8))
           _ (mkWorld [] (accepts 8)) eq_refl)).
Defined.

Lemma C9_exact_transfer_witness :
  write_all [1; 2; 3] (mkWorld [] [WrAccept 2; WrFail EINTR; WrAccept 5])
  = ([EvWrite [1; 2; 3] 2; EvWrite [3] (-1); EvWrite [3] 1],
     Val 0 (mkWorld [] [])) /\
  ((0 = 0 /\
    sent [EvWrite [1; 2; 3] 2; EvWrite [3] (-1); EvWrite [3] 1] = [1; 2; 3]) \/
   (0 = -1 /\
    exists pre p n,
      [EvWrite [1; 2; 3] 2; EvWrite [3] (-1); EvWrite [3] 1]
      = pre ++ [EvWrite p n] /\ n <= 0)).
Proof.
  split; [reflexivity|].
  exact (proj1 (proj2 (proj2 C9_exact_transfer))
           [1; 2; 3] (mkWorld [] [WrAccept 2; WrFail EINTR; WrAccept 5])
           _ 0 (mkWorld [] []) eq_refl).
Defined.

Lemma C10_type_byte_read_once_witness :
  fst (fst (sys_read (RdFail EINTR) 1)) <> 1 /\
  tick demo_g 3 demo_fb SelReadable true
       (mkWorld [RdFail EINTR; RdData [3]] (accepts 8))
  = ([EvSelect 1; EvRead 1 (-1)],
     Val (Break true) (mkWorld [RdData [3]] (accepts 8))).
Proof.
  split; [discriminate|].
  refine (proj1 (C10_type_byte_read_once demo_g 3 demo_fb)
            true (RdFail EINTR) [RdData [3]] (accepts 8) _).
  discriminate.
Defined.

(** * Further properties of the program *)

(** ** [msleep] *)

Lemma clamp_fps_range fps : 1 <= clamp_fps fps <= 15.
Proof.
  unfold clamp_fps. destruct (Z.ltb_spec fps 1).
  - change (1 >? 15) with false. cbv iota. lia.
  - destruct (Z.gtb_spec fps 15); lia.
Qed.

Lemma frame_delay_div fps : 0 < fps -> frame_delay fps = 1000 / fps.
Proof. intros H. unfold frame_delay. apply Z.quot_div_nonneg; lia. Qed.

(** X1. For a non-negative number of milliseconds the [timeval] that
    [msleep] builds is well formed (microseconds below one million) and
    stands for exactly that time.  The two sleeps the program asks for, 50
    and [1000 / fps] with [fps] clamped, are between 50 and 1000 ms. *)
Theorem msleep_timeval :
  forall ms,
    0 <= ms ->
    0 <= fst (msleep_tv ms) /\
    0 <= snd (msleep_tv ms) < 1000000 /\
    fst (msleep_tv ms) * 1000000 + snd (msleep_tv ms) = ms * 1000 /\
    forall fps, 50 <= frame_delay (clamp_fps fps) <= 1000.
Proof.
  intros ms Hms. unfold msleep_tv. cbn [fst snd].
  rewrite Z.quot_div_nonneg, Z.rem_mod_nonneg by lia.
  pose proof (Z.mod_pos_bound ms 1000 ltac:(lia)) as Hm.
  pose proof (Z.div_mod ms 1000 ltac:(lia)) as Hd.
  assert (0 <= ms / 1000) by (apply Z.div_pos; lia).
  split; [assumption|]. split; [lia|]. split; [lia|].
  intros fps. pose proof (clamp_fps_range fps) as Hr.
  rewrite frame_delay_div by lia.
  split.
  - apply Z.div_le_lower_bound; lia.
  - apply Z.div_le_upper_bound; lia.
Qed.

Lemma msleep_timeval_witness :
  0 <= 333 /\ msleep_tv 333 = (0, 333000) /\
  fst (msleep_tv 333) * 1000000 + snd (msleep_tv 333) = 333 * 1000.
Proof.
  split; [discriminate|]. split; [reflexivity|].
  refine (proj1 (proj2 (proj2 (msleep_timeval 333 _)))). discriminate.
Defined.

(** ** What a failed transfer leaves behind *)

Lemma write_loop_fail q : forall p evs rc q',
  write_loop q p = (evs, Some (rc, q')) ->
  rc <> 0 ->
  exists tl, p = sent evs ++ tl /\ tl <> [].
Proof.
  induction q as [|r q IH]; intros p evs rc q' H Hrc.
  - destruct p; simpl in H; inversion H; subst. contradiction.
  - destruct p as [|b p];
      [rewrite write_loop_nil in H; inversion H; subst; contradiction|].
    rewrite write_loop_cons in H. destruct r as [k|e]; cbn [sys_write] in H.
    + set (n := Z.of_nat (Nat.min k (length (b :: p)))) in *.
      destruct (Z.ltb_spec n 0); [unfold n in *; lia|].
      destruct (Z.eqb_spec n 0) as [Hn|Hn].
      * inversion H; subst evs. exists (b :: p). rewrite Hn.
        split; [reflexivity|discriminate].
      * destruct (write_loop q (skipn (Z.to_nat n) (b :: p))) as [evs' o] eqn:E.
        inversion H; subst.
        destruct (IH _ _ _ _ E Hrc) as (tl & Htl & Hne).
        exists tl. split; [|exact Hne].
        rewrite sent_cons. cbn [sent_of]. rewrite <- app_assoc, <- Htl.
        symmetry. apply firstn_skipn.
    + change (-1 <? 0) with true in H. cbv iota in H.
      destruct (e =? EINTR).
      * destruct (write_loop q (b :: p)) as [evs' o] eqn:E.
        inversion H; subst o evs.
        destruct (IH _ _ _ _ E Hrc) as (tl & Htl & Hne).
        exists tl. split; [|exact Hne]. rewrite sent_cons. exact Htl.
      * inversion H; subst. exists (b :: p). split; [reflexivity|discriminate].
Qed.

(** X2. When [write_all] fails, what has reached the client is a front
    part of the buffer that stops short of its end: possibly some bytes,
    never all of them, and the call that ended it returned 0 or -1. *)
Theorem write_all_failure_is_partial :
  forall buf w evs rc w',
    write_all buf w = (evs, Val rc w') ->
    rc <> 0 ->
    rc = -1 /\
    (exists tl, buf = sent evs ++ tl /\ tl <> []) /\
    ends_failed_write evs.
Proof.
  intros buf w evs rc w' H Hrc.
  pose proof (write_all_cases _ _ _ _ _ H) as [_ [[Hz _]|[Hm Hf]]];
    [contradiction|].
  split; [exact Hm|]. split; [|exact Hf].
  unfold write_all in H.
  destruct (write_loop (wrq w) buf) as [e [[c q']|]] eqn:E; [|discriminate].
  inversion H; subst. eapply write_loop_fail; eauto.
Qed.

Lemma write_all_failure_is_partial_witness :
  write_all [1; 2; 3] (mkWorld [] [WrAccept 2; WrFail EPIPE])
  = ([EvWrite [1; 2; 3] 2; EvWrite [3] (-1)], Val (-1) (mkWorld [] [])) /\
  -1 <> 0 /\
  exists tl,
    [1; 2; 3] = sent [EvWrite [1; 2; 3] 2; EvWrite [3] (-1)] ++ tl /\ tl <> [].
Proof.
  split; [reflexivity|]. split; [discriminate|].
  refine (proj1 (proj2 (write_all_failure_is_partial
            [1; 2; 3] (mkWorld [] [WrAccept 2; WrFail EPIPE])
            _ (-1) (mkWorld [] []) eq_refl _))).
  discriminate.
Defined.

Lemma consumed_app e1 e2 : consumed (e1 ++ e2) = consumed e1 + consumed e2.
Proof.
  induction e1 as [|e e1 IH]; [reflexivity|].
  cbn [app consumed fold_right] in *. fold (consumed (e1 ++ e2)).
  fold (consumed e1). rewrite IH. lia.
Qed.

Lemma consumed_cons e evs : consumed (e :: evs) = consumed_of e + consumed evs.
Proof. reflexivity. Qed.

Lemma read_within_le a b e : a <= b -> read_within a e = true ->
  read_within b e = true.
Proof.
  intros Hab. destruct e; cbn [read_within]; auto.
  intros H. apply andb_prop in H as [H Hn]. apply andb_prop in H as [H0 Hl].
  rewrite H0, Hn. cbn [andb]. rewrite andb_true_r.
  apply Z.leb_le in Hl. apply Z.leb_le. lia.
Qed.

Lemma forallb_read_within_le a b evs : a <= b ->
  forallb (read_within a) evs = true -> forallb (read_within b) evs = true.
Proof.
  intros Hab. induction evs as [|e evs IH]; [reflexivity|]. cbn [forallb].
  intros H. apply andb_prop in H as [He H].
  rewrite (read_within_le _ _ _ Hab He), IH by assumption. reflexivity.
Qed.

(** What the loop of [read_all] asks for and gets, whether it returns
    or not. *)
Lemma read_loop_within q : forall len got,
  0 <= len ->
  forallb (read_within len) (fst (read_loop q len got)) = true /\
  0 <= consumed (fst (read_loop q len got)) <= len /\
  forall evs rc buf q',
    read_loop q len got = (evs, Some (rc, buf, q')) ->
    Z.of_nat (length buf) = Z.of_nat (length got) + consumed evs /\
    (rc = 0 -> consumed evs = len) /\
    (rc <> 0 -> consumed evs < len).
Proof.
  induction q as [|r q IH]; intros len got Hlen.
  - cbn [read_loop]. destruct (Z.eqb_spec len 0).
    + subst. cbn [fst forallb consumed fold_right]. repeat split; try lia.
      all: inversion H; subst; cbn; lia.
    + cbn [fst forallb consumed fold_right]. repeat split; try lia.
      all: discriminate.
  - destruct (Z.eq_dec len 0) as [->|Hne].
    { rewrite read_loop_zero. cbn [fst forallb consumed fold_right].
      repeat split; try lia. all: inversion H; subst; cbn; lia. }
    rewrite read_loop_cons by assumption.
    destruct r as [bs|e]; cbn [sys_read].
    + unfold byte in *. remember (firstn (Z.to_nat len) bs) as d eqn:Ed.
      assert (Hd : Z.of_nat (length d) <= len).
      { rewrite Ed, length_firstn. lia. }
      clear Ed.
      destruct (Z.ltb_spec (Z.of_nat (length d)) 0); [lia|].
      destruct (Z.eqb_spec (Z.of_nat (length d)) 0) as [Hz|Hz].
      * cbn [fst forallb read_within].
        cbn [consumed fold_right consumed_of]. split.
        { destruct (Z.ltb_spec 0 len); [|lia].
          destruct (Z.leb_spec len len); [|lia].
          destruct (Z.leb_spec (Z.of_nat (length d)) len); [reflexivity|lia]. }
        split; [lia|]. intros evs rc buf q' H0. inversion H0; subst evs rc buf q'.
        cbn [consumed fold_right consumed_of].
        repeat split; lia.
      * destruct (IH (len - Z.of_nat (length d)) (got ++ d) ltac:(lia))
          as (Hw & Hc & Hres).
        destruct (read_loop q (len - Z.of_nat (length d)) (got ++ d))
          as [evs' o] eqn:E.
        cbn [fst] in *. split.
        { cbn [forallb read_within].
          rewrite (forallb_read_within_le (len - Z.of_nat (length d)) len)
            by (assumption || lia).
          destruct (Z.ltb_spec 0 len); [|lia].
          destruct (Z.leb_spec len len); [|lia].
          destruct (Z.leb_spec (Z.of_nat (length d)) len); [reflexivity|lia]. }
        rewrite consumed_cons. cbn [consumed_of]. split; [lia|].
        intros evs rc buf q' H0. inversion H0; subst.
        destruct (Hres _ _ _ _ eq_refl) as (Hb & H1 & H2).
        rewrite consumed_cons. cbn [consumed_of].
        rewrite length_app in Hb.
        split; [lia|].
        split; intros Hx; [specialize (H1 Hx)|specialize (H2 Hx)]; lia.
    + change (-1 <? 0) with true. cbv iota.
      destruct (e =? EINTR).
      * destruct (IH len got Hlen) as (Hw & Hc & Hres).
        destruct (read_loop q len got) as [evs' o] eqn:E.
        cbn [fst] in *. split.
        { cbn [forallb read_within]. rewrite Hw.
          destruct (Z.ltb_spec 0 len); [|lia].
          destruct (Z.leb_spec len len); [|lia].
          destruct (Z.leb_spec (-1) len); [reflexivity|lia]. }
        rewrite consumed_cons. cbn [consumed_of]. split; [lia|].
        intros evs rc buf q' H0. inversion H0; subst.
        destruct (Hres _ _ _ _ eq_refl) as (Hb & H1 & H2).
        rewrite consumed_cons. cbn [consumed_of].
        split; [lia|].
        split; intros Hx; [specialize (H1 Hx)|specialize (H2 Hx)]; lia.
      * cbn [fst forallb read_within consumed fold_right consumed_of]. split.
        { destruct (Z.ltb_spec 0 len); [|lia].
          destruct (Z.leb_spec len len); [|lia].
          destruct (Z.leb_spec (-1) len); [reflexivity|lia]. }
        split; [lia|]. intros evs rc buf q' H0. inversion H0; subst.
        cbn [consumed fold_right consumed_of]. repeat split; lia.
Qed.

(** The buffer of [read_all] holds the bytes of the answers the loop used,
    in order, and nothing else. *)
Lemma read_loop_brought q : forall len got evs rc buf q',
  0 <= len ->
  read_loop q len got = (evs, Some (rc, buf, q')) ->
  exists used,
    q = used ++ q' /\ length used = length evs /\
    buf = got ++ firstn (Z.to_nat len) (brought used).
Proof.
  induction q as [|r q IH]; intros len got evs rc buf q' Hlen H.
  - cbn [read_loop] in H. destruct (Z.eqb_spec len 0); [|discriminate].
    inversion H; subst. exists []. cbn. rewrite app_nil_r. auto.
  - destruct (Z.eq_dec len 0) as [->|Hne].
    { rewrite read_loop_zero in H. inversion H; subst. exists [].
      cbn. rewrite app_nil_r. auto. }
    rewrite read_loop_cons in H by assumption.
    destruct r as [bs|e]; cbn [sys_read] in H.
    + unfold byte in *.
      assert (Hd : length (firstn (Z.to_nat len) bs)
                   = Nat.min (Z.to_nat len) (length bs))
        by apply length_firstn.
      destruct (Z.ltb_spec (Z.of_nat (length (firstn (Z.to_nat len) bs))) 0);
        [lia|].
      destruct (Z.eqb_spec (Z.of_nat (length (firstn (Z.to_nat len) bs))) 0)
        as [Hz|Hz].
      * inversion H; subst. exists [RdData bs].
        split; [reflexivity|]. split; [reflexivity|].
        cbn [brought flat_map]. rewrite app_nil_r.
        assert (Hn : firstn (Z.to_nat len) bs = []).
        { apply length_zero_iff_nil. lia. }
        rewrite Hn, app_nil_r. reflexivity.
      * destruct (read_loop q (len - Z.of_nat (length (firstn (Z.to_nat len) bs)))
                    (got ++ firstn (Z.to_nat len) bs)) as [evs' o] eqn:E.
        inversion H; subst.
        assert (Hr : 0 <= len - Z.of_nat (length (firstn (Z.to_nat len) bs)))
          by lia.
        destruct (IH _ _ _ _ _ _ Hr E) as (used & Hq & Hl & Hb).
        exists (RdData bs :: used).
        split; [cbn [app]; rewrite <- Hq; reflexivity|].
        split; [cbn [length]; rewrite Hl; reflexivity|].
        rewrite Hb, <- app_assoc. f_equal.
        cbn [brought flat_map]. fold (brought used).
        rewrite firstn_app. f_equal. f_equal. unfold byte in *. lia.
    + destruct (Z.ltb_spec (-1) 0); [|lia].
      destruct (Z.eqb_spec e EINTR).
      * destruct (read_loop q len got) as [evs' o] eqn:E.
        inversion H; subst.
        destruct (IH _ _ _ _ _ _ Hlen E) as (used & Hq & Hl & Hb).
        exists (RdFail EINTR :: used).
        split; [cbn [app]; rewrite <- Hq; reflexivity|].
        split; [cbn [length]; rewrite Hl; reflexivity|].
        exact Hb.
      * inversion H; subst. exists [RdFail e].
        split; [reflexivity|]. split; [reflexivity|].
        cbn. rewrite firstn_nil, app_nil_r. reflexivity.
Qed.

(** X3. [read_all] never overruns its buffer: each [read] asks for at
    least one byte and for no more than [len], all reads together bring at
    most [len] bytes, the buffer holds exactly the bytes brought, [len] of
    them on success and fewer on failure.  The bytes brought are those of
    the answers the reads got, one answer for each read, in the order of
    the reads, cut after [len] bytes; the answers not used stay for the
    calls that follow. *)
Theorem read_all_stays_within :
  forall len w,
    0 <= len ->
    forallb (read_within len) (fst (read_all len w)) = true /\
    0 <= consumed (fst (read_all len w)) <= len /\
    forall evs rc buf w',
      read_all len w = (evs, Val (rc, buf) w') ->
      Z.of_nat (length buf) = consumed evs /\
      (rc = 0 -> consumed evs = len) /\
      (rc <> 0 -> consumed evs < len) /\
      wrq w' = wrq w /\
      exists used,
        rdq w = used ++ rdq w' /\
        length used = length evs /\
        buf = firstn (Z.to_nat len) (brought used).
Proof.
  intros len w Hlen. unfold read_all.
  destruct (read_loop_within (rdq w) len [] Hlen) as (Hw & Hc & Hres).
  pose proof (read_loop_brought (rdq w) len []) as Hbr.
  destruct (read_loop (rdq w) len []) as [e [[[c got] q']|]] eqn:E;
    cbn [fst] in *.
  - split; [exact Hw|]. split; [exact Hc|].
    intros evs rc buf w' H. inversion H; subst.
    destruct (Hres _ _ _ _ eq_refl) as (Hb & H1 & H2). cbn [length] in Hb.
    destruct (Hbr _ _ _ _ Hlen eq_refl) as (used & Hq & Hl & Hbuf).
    split; [lia|]. split; [exact H1|]. split; [exact H2|].
    split; [reflexivity|].
    exists used. cbn [rdq]. auto.
  - split; [exact Hw|]. split; [exact Hc|]. discriminate.
Qed.

Lemma read_all_stays_within_witness :
  0 <= 4 /\
  read_all 4 (mkWorld [RdData [9; 8; 7]; RdFail EINTR; RdData []; RdData [6]] [])
  = ([EvRead 4 3; EvRead 1 (-1); EvRead 1 0],
     Val (-1, [9; 8; 7]) (mkWorld [RdData [6]] []))
  /\ consumed [EvRead 4 3; EvRead 1 (-1); EvRead 1 0] < 4
  /\ exists used,
       [RdData [9; 8; 7]; RdFail EINTR; RdData []; RdData [6]]
       = used ++ [RdData [6]] /\
       length used = 3%nat /\
       [9; 8; 7] = firstn (Z.to_nat 4) (brought used).
Proof.
  split; [discriminate|]. split; [reflexivity|].
  pose proof (proj2 (proj2
    (read_all_stays_within 4
       (mkWorld [RdData [9; 8; 7]; RdFail EINTR; RdData []; RdData [6]] [])
       ltac:(discriminate)))
    _ (-1) [9; 8; 7] (mkWorld [RdData [6]] []) eq_refl) as H.
  split; [apply H; discriminate|].
  exact (proj2 (proj2 (proj2 (proj2 H)))).
Defined.

(** ** The command line *)

Lemma list_pair_ind {A} (P : list A -> Prop) :
  P [] -> (forall a, P [a]) -> (forall a b l, P l -> P (a :: b :: l)) ->
  forall l, P l.
Proof.
  intros H0 H1 H2 l.
  assert (H : P l /\ forall a, P (a :: l)).
  { induction l as [|x l [IHl IHxl]]; [auto|]. split; [apply IHxl|].
    intros a. apply H2. exact IHl. }
  exact (proj1 H).
Qed.

Lemma parse_args_pair atoi a v l c :
  parse_args atoi (a :: v :: l) c =
  if String.eqb a "-f" then
    parse_args atoi l (mkConfig v (cfg_port c) (cfg_fps c))
  else if String.eqb a "-p" then
    parse_args atoi l (mkConfig (cfg_fbpath c) (atoi v) (cfg_fps c))
  else if String.eqb a "--fps" then
    parse_args atoi l (mkConfig (cfg_fbpath c) (cfg_port c) (atoi v))
  else None.
Proof. reflexivity. Qed.

Lemma parse_args_app atoi a1 : forall a2 c c1,
  parse_args atoi a1 c = Some c1 ->
  parse_args atoi (a1 ++ a2) c = parse_args atoi a2 c1.
Proof.
  induction a1 as [|a|a v l IH] using list_pair_ind; intros a2 c c1 H.
  - inversion H. reflexivity.
  - discriminate.
  - cbn [app]. rewrite parse_args_pair in *.
    destruct (String.eqb a "-f"); [apply IH; exact H|].
    destruct (String.eqb a "-p"); [apply IH; exact H|].
    destruct (String.eqb a "--fps"); [apply IH; exact H|discriminate].
Qed.

Lemma parse_args_even atoi args : forall c c1,
  parse_args atoi args c = Some c1 -> Nat.even (length args) = true.
Proof.
  induction args as [|a|a v l IH] using list_pair_ind; intros c c1 H.
  - reflexivity.
  - discriminate.
  - cbn [length Nat.even]. rewrite parse_args_pair in H.
    destruct (String.eqb a "-f"); [eapply IH; exact H|].
    destruct (String.eqb a "-p"); [eapply IH; exact H|].
    destruct (String.eqb a "--fps"); [eapply IH; exact H|discriminate].
Qed.

(** X4. The option loop.  Arguments that parse are consumed in pairs, and
    parsing what follows them goes on from the configuration they gave.
    One argument left over after such pairs, be it an option without its
    value or anything else, gives the usage error.  An option given again
    replaces the earlier value: the last [--fps], [-p] or [-f] wins. *)
Theorem parse_args_in_pairs :
  forall atoi,
    (forall a1 a2 c c1,
       parse_args atoi a1 c = Some c1 ->
       parse_args atoi (a1 ++ a2) c = parse_args atoi a2 c1) /\
    (forall args c c1,
       parse_args atoi args c = Some c1 -> Nat.even (length args) = true) /\
    (forall a1 c c1 x,
       parse_args atoi a1 c = Some c1 ->
       parse_args atoi (a1 ++ [x]) c = None) /\
    (forall a1 c c1 v,
       parse_args atoi a1 c = Some c1 ->
       parse_args atoi (a1 ++ ["--fps"%string; v]) c
       = Some (mkConfig (cfg_fbpath c1) (cfg_port c1) (atoi v)) /\
       parse_args atoi (a1 ++ ["-p"%string; v]) c
       = Some (mkConfig (cfg_fbpath c1) (atoi v) (cfg_fps c1)) /\
       parse_args atoi (a1 ++ ["-f"%string; v]) c
       = Some (mkConfig v (cfg_port c1) (cfg_fps c1))).
Proof.
  intros atoi. split; [|split; [|split]].
  - intros a1 a2 c c1. apply parse_args_app.
  - intros args c c1. apply parse_args_even.
  - intros a1 c c1 x H. rewrite (parse_args_app _ _ _ _ _ H). reflexivity.
  - intros a1 c c1 v H. rewrite !(parse_args_app _ _ _ _ _ H).
    repeat split; reflexivity.
Qed.

Lemma parse_args_in_pairs_witness :
  parse_args (fun _ => 7) ["-p"%string; "5901"%string] defaults
  = Some (mkConfig "/dev/fb0"%string 7 3) /\
  parse_args (fun _ => 7) (["-p"%string; "5901"%string] ++ ["--fps"%string]) defaults = None.
Proof.
  split; [reflexivity|].
  exact (proj1 (proj2 (proj2 (parse_args_in_pairs (fun _ => 7))))
           ["-p"%string; "5901"%string] defaults (mkConfig "/dev/fb0"%string 7 3) "--fps"%string eq_refl).
Defined.

(** ** From the command line to the accept loop *)


(** ** Which calls each part of a session makes *)

Lemma only_weaken (P Q : event -> bool) {A} (m : io A) :
  (forall e, Q e = true -> P e = true) -> only Q m -> only P m.
Proof.
  intros HQP Hm w. specialize (Hm w).
  induction (fst (m w)) as [|e evs IH]; [reflexivity|].
  cbn [forallb] in *. apply andb_prop in Hm as [He Hm].
  rewrite (HQP _ He), IH by assumption. reflexivity.
Qed.

Lemma write_loop_writes q : forall p,
  forallb is_write (fst (write_loop q p)) = true.
Proof.
  induction q as [|r q IH]; intros p.
  - destruct p; reflexivity.
  - destruct p as [|b p]; [rewrite write_loop_nil; reflexivity|].
    rewrite write_loop_cons. destruct (sys_write r (b :: p)) as [n errno].
    destruct (n <? 0).
    + destruct (errno =? EINTR); [|reflexivity].
      specialize (IH (b :: p)). destruct (write_loop q (b :: p)). exact IH.
    + destruct (n =? 0); [reflexivity|].
      specialize (IH (skipn (Z.to_nat n) (b :: p))).
      destruct (write_loop q (skipn (Z.to_nat n) (b :: p))). exact IH.
Qed.

Lemma only_write_all buf : only is_write (write_all buf).
Proof.
  intros w. unfold write_all. pose proof (write_loop_writes (wrq w) buf) as H.
  destruct (write_loop (wrq w) buf) as [e [[rc q']|]]; exact H.
Qed.

Lemma only_wfail buf : only is_write (wfail buf).
Proof.
  unfold wfail. apply only_bind; [apply only_write_all|].
  intros rc. apply only_ret.
Qed.

Lemma only_frame_header g : only is_write (frame_header g).
Proof.
  unfold frame_header. cbv zeta.
  repeat first
    [ apply only_ret | apply only_wfail | apply only_if | apply only_orelse
    | (apply only_bind; [|intros ?]) ].
Qed.

Lemma only_scan_loop g fbmem n : forall y, only is_write (scan_loop g fbmem n y).
Proof.
  induction n as [|n IH]; intros y; cbn [scan_loop]; [apply only_ret|].
  apply only_bind; [apply only_write_all|].
  intros rc. apply only_if; [apply only_ret|apply IH].
Qed.

Lemma only_emit P e : P e = true -> only P (emit e).
Proof. intros H w. cbn [emit fst forallb]. rewrite H. reflexivity. Qed.

Section Calls.

Variable g : geometry.
Variable fps : Z.
Variable fbmem : list byte.
Variable P : event -> bool.
Hypothesis HPw : forall p n, P (EvWrite p n) = true.
Hypothesis HPr : forall l n, P (EvRead l n) = true.
Hypothesis HPs : forall r, P (EvSelect r) = true.
Hypothesis HP50 : P (EvSleep 50) = true.
Hypothesis HPd : P (EvSleep (frame_delay fps)) = true.

Lemma writes_P e : is_write e = true -> P e = true.
Proof. destruct e; try discriminate. intros _. apply HPw. Qed.

Lemma reads_P e : is_read e = true -> P e = true.
Proof. destruct e; try discriminate. intros _. apply HPr. Qed.

Lemma only_send_frame r : only P (send_frame g fps fbmem r).
Proof.
  unfold send_frame, msleep.
  apply only_bind;
    [apply (only_weaken P is_write); [exact writes_P|apply only_frame_header]|].
  intros f. apply only_if; [apply only_ret|].
  apply only_bind;
    [apply (only_weaken P is_write); [exact writes_P|apply only_scan_loop]|].
  intros _. apply only_bind; [apply only_emit; exact HPd|].
  intros _. apply only_ret.
Qed.

Lemma only_pump r : only P (pump g fps fbmem r).
Proof.
  unfold pump, msleep. apply only_if; [|apply only_send_frame].
  apply only_bind; [apply only_emit; exact HP50|]. intros _. apply only_ret.
Qed.

Lemma only_tick s r : only P (tick g fps fbmem s r).
Proof.
  unfold tick. destruct (sys_select s) as [[n errno] isset].
  apply only_bind; [apply only_emit; apply HPs|]. intros _.
  apply only_if; [apply only_ret|].
  apply only_bind.
  - apply only_if; [|apply only_ret].
    apply (only_weaken P is_read); [exact reads_P|apply only_client_message].
  - intros [r'|r']; [apply only_ret|apply only_pump].
Qed.

Lemma only_client_loop sel : forall r, only P (client_loop g fps fbmem sel r).
Proof.
  induction sel as [|s sel IH]; intros r; cbn [client_loop].
  - intros w. reflexivity.
  - apply only_bind; [apply only_tick|].
    intros [r'|r']; [apply only_ret|apply IH].
Qed.

End Calls.

(** X6. Inside the client-message loop the program only polls, reads,
    writes and sleeps, whatever the kernel answers and however far the loop
    gets: it never frees the line buffer or closes the socket there, and
    every sleep is of 50 ms or of [1000 / fps] ms. *)
Theorem client_loop_calls :
  forall g fps fbmem sel r w,
    forallb is_io (fst (client_loop g fps fbmem sel r w)) = true /\
    forallb (sleep_ok fps) (fst (client_loop g fps fbmem sel r w)) = true.
Proof.
  intros g fps fbmem sel r w. split.
  - apply (only_client_loop g fps fbmem is_io); reflexivity.
  - apply (only_client_loop g fps fbmem (sleep_ok fps)); try reflexivity.
    cbn [sleep_ok]. rewrite Z.eqb_refl. apply orb_true_r.
Qed.

(** ** Opening and closing a connection *)

Lemma writes_rw evs : forallb is_write evs = true -> forallb is_rw evs = true.
Proof.
  induction evs as [|e evs IH]; [reflexivity|]. cbn [forallb].
  intros H. apply andb_prop in H as [He H]. rewrite IH by assumption.
  unfold is_rw. rewrite He, orb_true_r. reflexivity.
Qed.

Lemma reads_rw evs : forallb is_read evs = true -> forallb is_rw evs = true.
Proof.
  induction evs as [|e evs IH]; [reflexivity|]. cbn [forallb].
  intros H. apply andb_prop in H as [He H]. rewrite IH by assumption.
  unfold is_rw. rewrite He. reflexivity.
Qed.

Lemma rw_io evs : forallb is_rw evs = true -> forallb is_io evs = true.
Proof.
  induction evs as [|e evs IH]; [reflexivity|]. cbn [forallb].
  intros H. apply andb_prop in H as [He H]. rewrite IH by assumption.
  destruct e; try discriminate; reflexivity.
Qed.

Lemma writes_consumed evs : forallb is_write evs = true -> consumed evs = 0.
Proof.
  induction evs as [|e evs IH]; [reflexivity|]. cbn [forallb].
  intros H. apply andb_prop in H as [He H]. rewrite consumed_cons, IH by assumption.
  destruct e; try discriminate; reflexivity.
Qed.

Lemma read_all_consumed len w e a w' :
  read_all len w = (e, Val a w') -> 0 <= len ->
  negb (fst a =? 0) = false -> consumed e = len.
Proof.
  intros H Hlen Ha. destruct a as [rc buf]. cbn [fst] in Ha.
  destruct (Z.eqb_spec rc 0) as [->|]; [|discriminate].
  unfold read_all in H.
  destruct (read_loop_within (rdq w) len [] Hlen) as (_ & _ & Hres).
  destruct (read_loop (rdq w) len []) as [e0 [[[c got] q']|]] eqn:E;
    [|discriminate].
  inversion H; subst. destruct (Hres _ _ _ _ eq_refl) as (_ & H1 & _). auto.
Qed.

Lemma ends_closed_app e1 e2 :
  forallb is_rw e1 = true -> ends_closed e2 -> ends_closed (e1 ++ e2).
Proof.
  intros H1 (pre & -> & Hp). exists (e1 ++ pre).
  rewrite app_assoc, forallb_app, H1, Hp. auto.
Qed.

Lemma ends_closed_last : ends_closed ([EvClose] ++ []).
Proof. exists []. auto. Qed.

(** What is known of each call of a run that has been followed. *)
Ltac call_facts :=
  repeat match goal with
  | H : read_all ?n ?w = (?e, Val ?a _), Hq : negb (fst ?a =? 0) = false |- _ =>
      pose proof (read_all_consumed _ _ _ _ _ H ltac:(discriminate) Hq);
      pose proof (reads_rw _ (only_run _ _ _ _ _ (only_read_all n) H));
      clear H
  | H : read_all ?n ?w = (?e, _) |- _ =>
      pose proof (reads_rw _ (only_run _ _ _ _ _ (only_read_all n) H));
      clear H
  | H : wfail ?b ?w = (?e, _) |- _ =>
      pose proof (writes_rw _ (only_run _ _ _ _ _ (only_wfail b) H));
      pose proof (writes_consumed _ (only_run _ _ _ _ _ (only_wfail b) H));
      clear H
  | H : orelse ?a ?b ?w = (?e, _) |- _ =>
      let Hw := fresh "Hw" in
      assert (Hw : forallb is_write e = true)
        by (refine (only_run _ _ _ _ _ _ H);
            repeat first [apply only_orelse | apply only_wfail]);
      pose proof (writes_rw _ Hw); pose proof (writes_consumed _ Hw);
      clear H Hw
  end.

Ltac use_rw :=
  rewrite ?forallb_app;
  repeat match goal with
  | Hf : forallb is_rw ?e = true |- context [forallb is_rw ?e] => rewrite Hf
  end.

Ltac close_run :=
  repeat first
    [ apply ends_closed_last
    | (apply ends_closed_app; [assumption|]) ].

Lemma negotiate_shape w e c w1 :
  negotiate w = (e, Val c w1) ->
  match c with
  | Some _ => forallb is_rw e = true /\ consumed e = 13
  | None => ends_closed e
  end.
Proof.
  unfold negotiate. intros H. inv_run; call_facts; try close_run.
  split; [use_rw; reflexivity|].
  rewrite !consumed_app. cbn [consumed fold_right]. lia.
Qed.

Lemma abort_closed w e b w' : abort w = (e, Val b w') -> ends_closed e.
Proof. intros H. apply abort_inv in H as (_ & -> & _). exists []. auto. Qed.

Lemma server_init_shape g w e b w1 :
  server_init g w = (e, Val b w1) ->
  if b then forallb is_rw e = true /\ consumed e = 1 else ends_closed e.
Proof.
  unfold server_init. intros H. cbv zeta in H.
  repeat first
    [ progress inv_io
    | match goal with
      | H : (if ?c then _ else _) _ = (_, Val _ _) |- _ => destruct c eqn:?
      end ];
  repeat match goal with
  | H : abort _ = (_, Val ?b _) |- _ =>
      let Ha := fresh "Ha" in
      pose proof (abort_closed _ _ _ _ H) as Ha;
      apply abort_inv in H as (-> & _ & _)
  end;
  call_facts.
  all: try (repeat (apply ends_closed_app; [assumption|]); assumption).
  split; [use_rw; reflexivity|].
  rewrite !consumed_app. cbn [consumed fold_right]. lia.
Qed.

Lemma handshake_shape g w e b w1 :
  handshake g w = (e, Val b w1) ->
  if b then forallb is_rw e = true /\ consumed e = 14 else ends_closed e.
Proof.
  unfold handshake. intros H.
  apply bind_inv in H as (e1 & c & w2 & e2 & H1 & H2 & ->).
  apply negotiate_shape in H1. destruct c as [chosen|].
  - destruct H1 as [Hrw Hc]. destruct (negb (chosen =? 1)).
    + pose proof (abort_closed _ _ _ _ H2) as Ha.
      apply abort_inv in H2 as (-> & _ & _).
      apply ends_closed_app; assumption.
    + apply server_init_shape in H2. destruct b.
      * destruct H2 as [Hrw2 Hc2]. rewrite forallb_app, Hrw, Hrw2.
        rewrite consumed_app. split; [reflexivity|lia].
      * apply ends_closed_app; assumption.
  - apply ret_inv in H2 as (-> & -> & ->). rewrite app_nil_r. exact H1.
Qed.

(** X7. A handshake that completes has only read and written, and has
    taken exactly 14 bytes from the client (12 of version, the security
    choice, the shared flag).  A handshake that fails, at whatever step and
    for whatever reason, has only read and written and then closed the
    socket: [close] is its last call and it is made once. *)
Theorem handshake_closes_on_failure :
  forall g w evs b w',
    handshake g w = (evs, Val b w') ->
    (b = true -> forallb is_rw evs = true /\ consumed evs = 14) /\
    (b = false ->
     exists pre, evs = pre ++ [EvClose] /\ forallb is_rw pre = true).
Proof.
  intros g w evs b w' H. apply handshake_shape in H.
  split; intros ->; exact H.
Qed.

Lemma handshake_closes_on_failure_witness :
  handshake demo_g
    (mkWorld [RdData (bytes_of_string ("RFB 003.008" ++ LF)); RdData [2]]
             (accepts 8))
  = ([EvWrite ver 12; EvRead 12 12; EvWrite [1; 1] 2; EvRead 1 1] ++ [EvClose],
     Val false (mkWorld [] (accepts 6))) /\
  exists pre,
    [EvWrite ver 12; EvRead 12 12; EvWrite [1; 1] 2; EvRead 1 1] ++ [EvClose]
    = pre ++ [EvClose] /\ forallb is_rw pre = true.
Proof.
  split; [reflexivity|].
  exact (proj2 (handshake_closes_on_failure demo_g
           (mkWorld [RdData (bytes_of_string ("RFB 003.008" ++ LF)); RdData [2]]
                    (accepts 8))
           _ false (mkWorld [] (accepts 6)) eq_refl) eq_refl).
Defined.

(** X8. A session that returns has released what it held, once and in
    order: if the handshake completed and [malloc] succeeded, its last two
    calls are [free] and [close]; otherwise its last call is [close] and
    nothing is freed.  Before that there is no [free] and no [close]. *)
Theorem session_releases :
  forall g fps fbmem malloc_ok sel w evs b w',
    session g fps fbmem malloc_ok sel w = (evs, Val b w') ->
    exists pre,
      forallb is_io pre = true /\
      evs = pre ++ (if b && malloc_ok then [EvFree; EvClose] else [EvClose]).
Proof.
  intros g fps fbmem malloc_ok sel w evs b w' H. unfold session in H.
  apply bind_inv in H as (e1 & ok & w1 & e2 & H1 & H2 & ->).
  apply handshake_shape in H1. destruct ok; cbn [negb] in H2.
  - destruct H1 as [Hrw _]. apply rw_io in Hrw.
    destruct malloc_ok; cbn [negb] in H2.
    + apply bind_inv in H2 as (e3 & r & w2 & e4 & H3 & H4 & ->).
      inv_io. exists (e1 ++ e3). split.
      * rewrite forallb_app, Hrw.
        apply (only_run _ _ _ _ _
                 (only_client_loop g fps fbmem is_io
                    (fun _ _ => eq_refl) (fun _ _ => eq_refl)
                    (fun _ => eq_refl) eq_refl eq_refl sel false) H3).
      * cbn [andb app]. rewrite <- app_assoc. reflexivity.
    + inv_io. exists e1. split; [exact Hrw|]. reflexivity.
  - apply ret_inv in H2 as (-> & -> & ->).
    destruct H1 as (pre & -> & Hrw). exists pre. rewrite app_nil_r.
    split; [apply rw_io; exact Hrw|reflexivity].
Qed.

Lemma session_releases_witness :
  session demo_g 3 demo_fb true [SelFail 9]
          (mkWorld demo_hello (accepts 8))
  = (fst (handshake demo_g (mkWorld demo_hello (accepts 8)))
     ++ [EvSelect (-1); EvFree; EvClose],
     Val true (mkWorld [] [])) /\
  exists pre,
    forallb is_io pre = true /\
    fst (handshake demo_g (mkWorld demo_hello (accepts 8)))
    ++ [EvSelect (-1); EvFree; EvClose]
    = pre ++ [EvFree; EvClose].
Proof.
  split; [reflexivity|].
  exact (session_releases demo_g 3 demo_fb true [SelFail 9]
           (mkWorld demo_hello (accepts 8)) _ true (mkWorld [] []) eq_refl).
Defined.

Lemma read_all_len n bs q wq :
  length bs = n -> n <> O ->
  read_all (Z.of_nat n) (mkWorld (RdData bs :: q) wq)
  = ([EvRead (Z.of_nat n) (Z.of_nat n)], Val (0, bs) (mkWorld q wq)).
Proof.
  intros <- Hn. apply read_all_exact. destruct bs; [contradiction|discriminate].
Qed.

(** ** Integers on the wire *)

Lemma lor_shiftl a b k :
  0 <= k -> 0 <= b < 2 ^ k -> Z.lor (Z.shiftl a k) b = a * 2 ^ k + b.
Proof.
  intros Hk Hb.
  assert (Hland : Z.land (Z.shiftl a k) b = 0).
  { apply Z.bits_inj'. intros n Hn. rewrite Z.land_spec, Z.bits_0.
    destruct (Z.ltb_spec n k).
    - rewrite Z.shiftl_spec_low by lia. reflexivity.
    - replace (Z.testbit b n) with false; [apply andb_false_r|].
      symmetry. destruct (Z.eq_dec b 0) as [->|]; [apply Z.bits_0|].
      apply Z.bits_above_log2; try lia.
      apply Z.log2_lt_pow2; try lia.
      apply Z.lt_le_trans with (2 ^ k); try lia.
      apply Z.pow_le_mono_r; lia. }
  rewrite <- Z.lxor_lor by exact Hland.
  rewrite <- Z.add_nocarry_lxor by exact Hland.
  rewrite Z.shiftl_mul_pow2 by lia. reflexivity.
Qed.

Lemma pack4 a b c d :
  0 <= b < 256 -> 0 <= c < 256 -> 0 <= d < 256 ->
  Z.lor (Z.lor (Z.shiftl a 24) (Z.shiftl b 16)) (Z.lor (Z.shiftl c 8) d)
  = a * 16777216 + b * 65536 + c * 256 + d.
Proof.
  intros Hb Hc Hd.
  rewrite (lor_shiftl c d 8) by lia.
  replace (Z.shiftl a 24) with (Z.shiftl (Z.shiftl a 8) 16)
    by (rewrite Z.shiftl_shiftl by lia; reflexivity).
  rewrite <- Z.shiftl_lor. rewrite (lor_shiftl a b 8) by lia.
  rewrite lor_shiftl by lia. lia.
Qed.

Lemma unpack4 a b c d :
  0 <= a < 256 -> 0 <= b < 256 -> 0 <= c < 256 -> 0 <= d < 256 ->
  let v := a * 16777216 + b * 65536 + c * 256 + d in
  Z.land v 255 = d /\ Z.land (Z.shiftr v 8) 255 = c /\
  Z.land (Z.shiftr v 16) 255 = b /\ Z.land (Z.shiftr v 24) 255 = a.
Proof.
  intros Ha Hb Hc Hd v.
  change 255 with (Z.ones 8). rewrite !Z.land_ones by lia.
  rewrite !Z.shiftr_div_pow2 by lia.
  change (2 ^ 8) with 256. change (2 ^ 16) with 65536.
  change (2 ^ 24) with 16777216.
  assert (H8 : v / 256 = a * 65536 + b * 256 + c)
    by (symmetry; apply (Z.div_unique v 256 _ d); [lia|unfold v; lia]).
  assert (H16 : v / 65536 = a * 256 + b)
    by (symmetry; apply (Z.div_unique v 65536 _ (c * 256 + d));
        [lia|unfold v; lia]).
  assert (H24 : v / 16777216 = a)
    by (symmetry; apply (Z.div_unique v 16777216 _ (b * 65536 + c * 256 + d));
        [lia|unfold v; lia]).
  rewrite H8, H16, H24. repeat split.
  - symmetry. apply (Z.mod_unique v 256 (a * 65536 + b * 256 + c)); [lia|unfold v; lia].
  - symmetry. apply (Z.mod_unique _ 256 (a * 256 + b)); lia.
  - symmetry. apply (Z.mod_unique _ 256 a); lia.
  - apply Z.mod_small; lia.
Qed.

Lemma htonl_bytes a b c d :
  0 <= a < 256 -> 0 <= b < 256 -> 0 <= c < 256 -> 0 <= d < 256 ->
  htonl (a * 16777216 + b * 65536 + c * 256 + d)
  = d * 16777216 + c * 65536 + b * 256 + a.
Proof.
  intros Ha Hb Hc Hd. unfold htonl.
  destruct (unpack4 a b c d Ha Hb Hc Hd) as (H0 & H1 & H2 & H3).
  cbv zeta in *. rewrite H0, H1, H2, H3. apply pack4; lia.
Qed.

Lemma load32_bytes b0 b1 b2 b3 :
  load32 [b0; b1; b2; b3]
  = (b3 mod 256) * 16777216 + (b2 mod 256) * 65536 + (b1 mod 256) * 256
    + b0 mod 256.
Proof.
  unfold load32, u8. cbn [nth]. rewrite !land_255.
  rewrite (Z.lor_comm (b0 mod 256)), (Z.lor_comm (Z.shiftl (b2 mod 256) 16)).
  rewrite Z.lor_comm. apply pack4; apply Z.mod_pos_bound; lia.
Qed.

Lemma u32_bytes x :
  u32 x = ((x / 16777216) mod 256) * 16777216 + ((x / 65536) mod 256) * 65536
          + ((x / 256) mod 256) * 256 + x mod 256.
Proof.
  unfold u32. change 4294967295 with (Z.ones 32). rewrite Z.land_ones by lia.
  change (2 ^ 32) with 4294967296.
  pose proof (Z.div_mod x 256 ltac:(lia)).
  pose proof (Z.div_mod (x / 256) 256 ltac:(lia)).
  pose proof (Z.div_mod (x / 256 / 256) 256 ltac:(lia)).
  pose proof (Z.div_mod (x / 256 / 256 / 256) 256 ltac:(lia)).
  pose proof (Z.mod_pos_bound x 256 ltac:(lia)).
  pose proof (Z.mod_pos_bound (x / 256) 256 ltac:(lia)).
  pose proof (Z.mod_pos_bound (x / 256 / 256) 256 ltac:(lia)).
  pose proof (Z.mod_pos_bound (x / 256 / 256 / 256) 256 ltac:(lia)).
  replace (x / 65536) with (x / 256 / 256)
    by (rewrite Z.div_div by lia; reflexivity).
  replace (x / 16777216) with (x / 256 / 256 / 256)
    by (rewrite !Z.div_div by lia; reflexivity).
  symmetry. apply (Z.mod_unique x 4294967296 (x / 256 / 256 / 256 / 256)); lia.
Qed.

Lemma load16_bytes b0 b1 :
  load16 [b0; b1] = (b1 mod 256) * 256 + b0 mod 256.
Proof.
  unfold load16, u8. cbn [nth]. rewrite !land_255, Z.lor_comm.
  pose proof (Z.mod_pos_bound b0 256 ltac:(lia)).
  rewrite lor_shiftl by lia. reflexivity.
Qed.

Lemma htons_bytes a b :
  0 <= a < 256 -> 0 <= b < 256 -> htons (a * 256 + b) = b * 256 + a.
Proof.
  intros Ha Hb. unfold htons. rewrite !land_255, shiftr_8.
  replace ((a * 256 + b) mod 256) with b
    by (apply (Z.mod_unique _ 256 a); lia).
  replace ((a * 256 + b) / 256) with a
    by (apply (Z.div_unique _ 256 a b); lia).
  rewrite (Z.mod_small a) by lia.
  rewrite lor_shiftl by lia. reflexivity.
Qed.

Lemma ntohs_load16 b0 b1 :
  ntohs (load16 [b0; b1]) = (b0 mod 256) * 256 + b1 mod 256.
Proof.
  unfold ntohs. rewrite load16_bytes.
  apply htons_bytes; apply Z.mod_pos_bound; lia.
Qed.

Lemma ntohl_load32 b0 b1 b2 b3 :
  ntohl (load32 [b0; b1; b2; b3])
  = (b0 mod 256) * 16777216 + (b1 mod 256) * 65536 + (b2 mod 256) * 256
    + b3 mod 256.
Proof.
  unfold ntohl. rewrite load32_bytes.
  apply htonl_bytes; apply Z.mod_pos_bound; lia.
Qed.

Lemma mem32_htonl x : mem32 (htonl (u32 x)) = be32 x.
Proof.
  rewrite u32_bytes.
  assert (Ha : 0 <= (x / 16777216) mod 256 < 256) by (apply Z.mod_pos_bound; lia).
  assert (Hb : 0 <= (x / 65536) mod 256 < 256) by (apply Z.mod_pos_bound; lia).
  assert (Hc : 0 <= (x / 256) mod 256 < 256) by (apply Z.mod_pos_bound; lia).
  assert (Hd : 0 <= x mod 256 < 256) by (apply Z.mod_pos_bound; lia).
  rewrite htonl_bytes by assumption.
  destruct (unpack4 _ _ _ _ Hd Hc Hb Ha) as (H0 & H1 & H2 & H3).
  cbv zeta in *. unfold mem32, be32. rewrite H0, H1, H2, H3. reflexivity.
Qed.

(** X9. Integers cross the wire most significant byte first, in both
    directions: what is written for a 16-bit or 32-bit value is its
    big-endian encoding, what is read from two or four bytes is their
    big-endian value, and reading back what was written gives the value
    modulo 2^16 or 2^32. *)
Theorem wire_integers_big_endian :
  (forall x, mem16 (htons (u16 x)) = be16 x) /\
  (forall x, mem32 (htonl (u32 x)) = be32 x) /\
  (forall b0 b1,
     ntohs (load16 [b0; b1]) = (b0 mod 256) * 256 + b1 mod 256) /\
  (forall b0 b1 b2 b3,
     ntohl (load32 [b0; b1; b2; b3])
     = (b0 mod 256) * 16777216 + (b1 mod 256) * 65536 + (b2 mod 256) * 256
       + b3 mod 256) /\
  (forall x, ntohs (load16 (mem16 (htons (u16 x)))) = x mod 65536) /\
  (forall x, ntohl (load32 (mem32 (htonl (u32 x)))) = x mod 4294967296).
Proof.
  split; [exact mem16_htons|]. split; [exact mem32_htonl|].
  split; [exact ntohs_load16|]. split; [exact ntohl_load32|]. split.
  - intros x. rewrite mem16_htons. unfold be16. rewrite ntohs_load16.
    rewrite !Z.mod_mod by lia.
    pose proof (Z.div_mod x 256 ltac:(lia)).
    pose proof (Z.div_mod (x / 256) 256 ltac:(lia)).
    pose proof (Z.mod_pos_bound x 256 ltac:(lia)).
    pose proof (Z.mod_pos_bound (x / 256) 256 ltac:(lia)).
    apply (Z.mod_unique x 65536 (x / 256 / 256)); lia.
  - intros x. rewrite mem32_htonl. unfold be32. rewrite ntohl_load32.
    rewrite !Z.mod_mod by lia. rewrite <- u32_bytes. unfold u32.
    change 4294967295 with (Z.ones 32). rewrite Z.land_ones by lia.
    reflexivity.
Qed.

(** ** How many bytes a message takes *)

Lemma read_all_ok len w e buf w' :
  read_all len w = (e, Val (0, buf) w') -> 0 <= len ->
  consumed e = len /\ Z.of_nat (length buf) = len.
Proof.
  intros H Hlen. split.
  - apply (read_all_consumed _ _ _ _ _ H Hlen). reflexivity.
  - apply read_all_cases in H as [_ [[_ Hb]|[Hc _]]]; [exact Hb|discriminate].
Qed.

Lemma read_all_failed len w e rc buf w' :
  read_all len w = (e, Val (rc, buf) w') -> 0 <= len -> rc <> 0 ->
  consumed e < len /\ ends_failed_read e.
Proof.
  intros H Hlen Hrc. split.
  - unfold read_all in H.
    destruct (read_loop_within (rdq w) len [] Hlen) as (_ & _ & Hres).
    destruct (read_loop (rdq w) len []) as [e0 [[[c got] q']|]] eqn:E;
      [|discriminate].
    inversion H; subst. destruct (Hres _ _ _ _ eq_refl) as (_ & _ & H2). auto.
  - apply read_all_cases in H as [_ [[Hz _]|[_ Hf]]]; [contradiction|exact Hf].
Qed.

Lemma read_all_within len w :
  0 <= len -> forallb (read_within len) (fst (read_all len w)) = true.
Proof.
  intros Hlen. unfold read_all.
  destruct (read_loop_within (rdq w) len [] Hlen) as (Hw & _).
  destruct (read_loop (rdq w) len []) as [e [[[c got] q']|]]; exact Hw.
Qed.

Lemma rfail_false len w e w' :
  (r <- read_all len ;; ret (negb (fst r =? 0))) w = (e, Val false w') ->
  0 <= len -> consumed e = len.
Proof.
  intros H Hlen. apply bind_inv in H as (e1 & a & w1 & e2 & H1 & H2 & ->).
  apply ret_inv in H2 as (-> & Hb & ->). rewrite app_nil_r.
  apply (read_all_consumed _ _ _ _ _ H1 Hlen). symmetry. exact Hb.
Qed.

Lemma ends_failed_read_nil_r e : ends_failed_read e -> ends_failed_read (e ++ []).
Proof. rewrite app_nil_r. auto. Qed.

Lemma enc_loop_consumed n : forall w e b w',
  enc_loop n w = (e, Val b w') ->
  (b = true -> consumed e = 4 * Z.of_nat n) /\
  (b = false -> consumed e < 4 * Z.of_nat n /\ ends_failed_read e).
Proof.
  induction n as [|n IH]; intros w e b w' H; cbn [enc_loop] in H.
  - apply ret_inv in H as (-> & -> & ->). split; [reflexivity|discriminate].
  - apply bind_inv in H as (e1 & [rc buf] & w1 & e2 & H1 & H2 & ->).
    cbn [fst] in H2. destruct (Z.eqb_spec rc 0) as [->|Hrc]; cbn [negb] in H2.
    + destruct (read_all_ok _ _ _ _ _ H1 ltac:(lia)) as [Hc _].
      destruct (IH _ _ _ _ H2) as [Ht Hf]. rewrite consumed_app, Hc.
      split; intros Hb.
      * rewrite (Ht Hb). lia.
      * destruct (Hf Hb) as [Hlt He]. split; [lia|].
        apply ends_failed_read_app. exact He.
    + apply ret_inv in H2 as (-> & -> & ->).
      destruct (read_all_failed _ _ _ _ _ _ H1 ltac:(lia) Hrc) as [Hlt He].
      split; [discriminate|]. intros _. rewrite app_nil_r. split; [lia|exact He].
Qed.

Lemma cut_loop_consumed fuel : forall len w,
  0 <= len -> (Z.to_nat len <= fuel)%nat ->
  forallb (read_within 256) (fst (cut_loop fuel len w)) = true /\
  forall e b w',
    cut_loop fuel len w = (e, Val b w') ->
    (b = true -> consumed e = len) /\
    (b = false -> consumed e < len /\ ends_failed_read e).
Proof.
  induction fuel as [|fuel IH]; intros len w Hlen Hfuel.
  - assert (len = 0) as -> by lia. cbn [cut_loop Z.eqb ret fst forallb].
    split; [reflexivity|]. intros e b w' H. inversion H; subst.
    split; [reflexivity|discriminate].
  - cbn [cut_loop]. destruct (Z.eqb_spec len 0) as [->|Hne].
    { cbn [ret fst forallb]. split; [reflexivity|].
      intros e b w' H. inversion H; subst. split; [reflexivity|discriminate]. }
    set (n := if len >? 256 then 256 else len).
    assert (Hn : 1 <= n <= 256 /\ n <= len)
      by (unfold n; destruct (Z.gtb_spec len 256); lia).
    pose proof (read_all_within n w ltac:(lia)) as Hw1.
    unfold bind.
    destruct (read_all n w) as [e1 [[rc buf] w1|]] eqn:E1; cbn [fst] in *.
    + destruct (Z.eqb_spec rc 0) as [->|Hrc]; cbn [negb].
      * destruct (IH (len - n) w1 ltac:(lia) ltac:(lia)) as [Hw2 Hres].
        destruct (cut_loop fuel (len - n) w1) as [e2 x] eqn:E2.
        cbn [fst] in *. split.
        { rewrite forallb_app, Hw2.
          rewrite (forallb_read_within_le n 256) by (assumption || lia).
          reflexivity. }
        intros e b w' H. inversion H; subst.
        destruct (read_all_ok _ _ _ _ _ E1 ltac:(lia)) as [Hc _].
        destruct (Hres _ _ _ eq_refl) as [Ht Hf]. rewrite consumed_app, Hc.
        split; intros Hb.
        -- rewrite (Ht Hb). lia.
        -- destruct (Hf Hb) as [Hlt He]. split; [lia|].
           apply ends_failed_read_app. exact He.
      * cbn [ret fst]. rewrite app_nil_r. split.
        { apply (forallb_read_within_le n 256); [lia|exact Hw1]. }
        intros e b w' H. inversion H; subst.
        destruct (read_all_failed _ _ _ _ _ _ E1 ltac:(lia) Hrc) as [Hlt He].
        split; [discriminate|]. intros _. split; [lia|exact He].
    + split; [apply (forallb_read_within_le n 256); [lia|exact Hw1]|].
      discriminate.
Qed.

(** X10. A message of fixed size that is read to its end has taken
    exactly its payload from the client: 19 bytes after the type byte for
    SetPixelFormat, 9 for FramebufferUpdateRequest, 7 for KeyEvent, 5 for
    PointerEvent.  The type byte itself is one more: a message that is
    read to its end starts with a read of one byte that returned 1. *)
Theorem fixed_messages_take_their_length :
  (forall t r w e r' w',
     dispatch t r w = (e, Val (Continue r') w') ->
     (t = 0 -> consumed e = 19) /\ (t = 3 -> consumed e = 9) /\
     (t = 4 -> consumed e = 7) /\ (t = 5 -> consumed e = 5)) /\
  (forall r w e r' w',
     client_message r w = (e, Val (Continue r') w') ->
     exists t e' w1,
       e = EvRead 1 1 :: e' /\
       dispatch t r w1 = (e', Val (Continue r') w') /\
       consumed e = 1 + consumed e').
Proof.
  split.
  - intros t r w e r' w' H. repeat split; intros ->.
    + change (dispatch 0 r) with
        (x <- read_all 19 ;;
         if negb (fst x =? 0) then ret (Break r) else ret (Continue r)) in H.
      inv_run. rewrite consumed_app. cbn [consumed fold_right].
      rewrite (read_all_consumed _ _ _ _ _ H0) by (assumption || lia). lia.
    + rewrite dispatch_3 in H. unfold orelse in H. inv_run.
      repeat match goal with
      | Hx : (r <- read_all ?n ;; ret (negb (fst r =? 0))) _ = (_, Val false _)
        |- _ => apply rfail_false in Hx; [|lia]
      | Hx : read_all ?n _ = (_, Val ?a _), Hq : negb (fst ?a =? 0) = false
        |- _ => apply read_all_consumed in Hx; [|lia|exact Hq]
      | Hx : read_all ?n _ = (_, Val ?a _), Hq : false = negb (fst ?a =? 0)
        |- _ => apply read_all_consumed in Hx; [|lia|symmetry; exact Hq]
      end.
      rewrite !consumed_app. cbn [consumed fold_right]. lia.
    + change (dispatch 4 r) with
        (x <- read_all 7 ;;
         if negb (fst x =? 0) then ret (Break r) else ret (Continue r)) in H.
      inv_run. rewrite consumed_app. cbn [consumed fold_right].
      rewrite (read_all_consumed _ _ _ _ _ H0) by (assumption || lia). lia.
    + change (dispatch 5 r) with
        (x <- read_all 5 ;;
         if negb (fst x =? 0) then ret (Break r) else ret (Continue r)) in H.
      inv_run. rewrite consumed_app. cbn [consumed fold_right].
      rewrite (read_all_consumed _ _ _ _ _ H0) by (assumption || lia). lia.
  - intros r w e r' w' H. unfold client_message in H.
    apply bind_inv in H as (e1 & [n t] & w1 & e2 & H1 & H2 & ->).
    cbn [fst snd] in H2. destruct (Z.eqb_spec n 1) as [->|Hn]; cbn [negb] in H2;
      [|apply ret_inv in H2 as (_ & Hb & _); discriminate].
    unfold read_once in H1. destruct (rdq w) as [|rd q]; [discriminate|].
    destruct (sys_read rd 1) as [[n' errno] d]. inversion H1; subst.
    eexists _, e2, _. split; [reflexivity|].
    split; [exact H2|]. reflexivity.
Qed.

Lemma fixed_messages_take_their_length_witness :
  dispatch 4 false (mkWorld [RdData [1; 0; 0; 0]; RdData [0; 0; 65]] [])
  = ([EvRead 7 4; EvRead 3 3], Val (Continue false) (mkWorld [] [])) /\
  consumed [EvRead 7 4; EvRead 3 3] = 7.
Proof.
  split; [reflexivity|].
  exact (proj1 (proj2 (proj2 (proj1 fixed_messages_take_their_length
           4 false (mkWorld [RdData [1; 0; 0; 0]; RdData [0; 0; 65]] [])
           _ false (mkWorld [] []) eq_refl))) eq_refl).
Defined.

(** X11. The two messages of variable size.  SetEncodings: after one
    byte of padding the next two bytes are taken as a big-endian count, and
    that many 4-byte entries are read; read to its end the message has
    taken [3 + 4*count] bytes after the type byte.  ClientCutText: after
    three bytes of padding the next four bytes are taken as a big-endian
    length, and the text is read in pieces of at most 256 bytes; read to
    its end the message has taken [7 + length] bytes.  If a read fails
    inside the list or the text, fewer bytes were taken and that read is
    the last call of the message. *)
Theorem variable_messages_take_their_length :
  (forall r w e r' w',
     dispatch 2 r w = (e, Val (Continue r') w') ->
     exists padb hi lo e1 w1 e2 w2 e3 b,
       read_all 1 w = (e1, Val (0, padb) w1) /\
       read_all 2 w1 = (e2, Val (0, [hi; lo]) w2) /\
       enc_loop (Z.to_nat (hi mod 256 * 256 + lo mod 256)) w2
       = (e3, Val b w') /\
       e = e1 ++ e2 ++ e3 /\ r' = r /\
       (b = true -> consumed e = 3 + 4 * (hi mod 256 * 256 + lo mod 256)) /\
       (b = false ->
        consumed e < 3 + 4 * (hi mod 256 * 256 + lo mod 256) /\
        ends_failed_read e)) /\
  (forall r w e r' w',
     dispatch 6 r w = (e, Val (Continue r') w') ->
     exists padb b0 b1 b2 b3 e1 w1 e2 w2 e3 b,
       let len := b0 mod 256 * 16777216 + b1 mod 256 * 65536
                  + b2 mod 256 * 256 + b3 mod 256 in
       read_all 3 w = (e1, Val (0, padb) w1) /\
       read_all 4 w1 = (e2, Val (0, [b0; b1; b2; b3]) w2) /\
       cut_loop (Z.to_nat len) len w2 = (e3, Val b w') /\
       e = e1 ++ e2 ++ e3 /\ r' = r /\
       forallb (read_within 256) e3 = true /\
       (b = true -> consumed e = 7 + len) /\
       (b = false -> consumed e < 7 + len /\ ends_failed_read e)).
Proof.
  split.
  - intros r w e r' w' H.
    change (dispatch 2 r) with
      (x <- read_all 1 ;;
       if negb (fst x =? 0) then ret (Break r) else
       y <- read_all 2 ;;
       if negb (fst y =? 0) then ret (Break r) else
       enc_loop (Z.to_nat (ntohs (load16 (snd y)))) ;;; ret (Continue r)) in H.
    apply bind_inv in H as (e1 & [rc1 padb] & w1 & ea & H1 & H & ->).
    cbn [fst] in H. destruct (Z.eqb_spec rc1 0) as [->|]; cbn [negb] in H;
      [|apply ret_inv in H as (_ & Hb & _); discriminate].
    apply bind_inv in H as (e2 & [rc2 buf] & w2 & eb & H2 & H & ->).
    cbn [fst snd] in H. destruct (Z.eqb_spec rc2 0) as [->|]; cbn [negb] in H;
      [|apply ret_inv in H as (_ & Hb & _); discriminate].
    apply bind_inv in H as (e3 & b & w3 & ec & H3 & H & ->).
    apply ret_inv in H as (-> & Hb & ->). inversion Hb; subst r'.
    destruct (read_all_ok _ _ _ _ _ H1 ltac:(lia)) as [Hc1 _].
    destruct (read_all_ok _ _ _ _ _ H2 ltac:(lia)) as [Hc2 Hl2].
    destruct buf as [|hi [|lo [|]]]; cbn [length] in Hl2; try lia.
    rewrite ntohs_load16 in H3.
    destruct (enc_loop_consumed _ _ _ _ _ H3) as [Ht Hf].
    assert (Hcnt : 0 <= hi mod 256 * 256 + lo mod 256).
    { pose proof (Z.mod_pos_bound hi 256 ltac:(lia)).
      pose proof (Z.mod_pos_bound lo 256 ltac:(lia)). lia. }
    exists padb, hi, lo, e1, w1, e2, w2, e3, b. rewrite app_nil_r.
    repeat (split; [assumption || reflexivity|]).
    rewrite !consumed_app, Hc1, Hc2. split; intros Hb'.
    + rewrite (Ht Hb'). lia.
    + destruct (Hf Hb') as [Hlt He]. split; [lia|].
      do 2 apply ends_failed_read_app. exact He.
  - intros r w e r' w' H.
    change (dispatch 6 r) with
      (x <- read_all 3 ;;
       if negb (fst x =? 0) then ret (Break r) else
       y <- read_all 4 ;;
       if negb (fst y =? 0) then ret (Break r) else
       cut_loop (Z.to_nat (ntohl (load32 (snd y)))) (ntohl (load32 (snd y))) ;;;
       ret (Continue r)) in H.
    apply bind_inv in H as (e1 & [rc1 padb] & w1 & ea & H1 & H & ->).
    cbn [fst] in H. destruct (Z.eqb_spec rc1 0) as [->|]; cbn [negb] in H;
      [|apply ret_inv in H as (_ & Hb & _); discriminate].
    apply bind_inv in H as (e2 & [rc2 buf] & w2 & eb & H2 & H & ->).
    cbn [fst snd] in H. destruct (Z.eqb_spec rc2 0) as [->|]; cbn [negb] in H;
      [|apply ret_inv in H as (_ & Hb & _); discriminate].
    apply bind_inv in H as (e3 & b & w3 & ec & H3 & H & ->).
    apply ret_inv in H as (-> & Hb & ->). inversion Hb; subst r'.
    destruct (read_all_ok _ _ _ _ _ H1 ltac:(lia)) as [Hc1 _].
    destruct (read_all_ok _ _ _ _ _ H2 ltac:(lia)) as [Hc2 Hl2].
    destruct buf as [|b0 [|b1 [|b2 [|b3 [|]]]]]; cbn [length] in Hl2; try lia.
    rewrite ntohl_load32 in H3.
    set (len := b0 mod 256 * 16777216 + b1 mod 256 * 65536
                + b2 mod 256 * 256 + b3 mod 256) in *.
    assert (Hlen : 0 <= len).
    { pose proof (Z.mod_pos_bound b0 256 ltac:(lia)).
      pose proof (Z.mod_pos_bound b1 256 ltac:(lia)).
      pose proof (Z.mod_pos_bound b2 256 ltac:(lia)).
      pose proof (Z.mod_pos_bound b3 256 ltac:(lia)). unfold len. lia. }
    destruct (cut_loop_consumed (Z.to_nat len) len w2 Hlen (Nat.le_refl _))
      as [Hw Hres].
    rewrite H3 in Hw. cbn [fst] in Hw.
    destruct (Hres _ _ _ H3) as [Ht Hf].
    exists padb, b0, b1, b2, b3, e1, w1, e2, w2, e3, b. rewrite app_nil_r.
    cbv zeta. fold len.
    repeat (split; [assumption || reflexivity|]).
    rewrite !consumed_app, Hc1, Hc2. split; intros Hb'.
    + rewrite (Ht Hb'). lia.
    + destruct (Hf Hb') as [Hlt He]. split; [lia|].
      do 2 apply ends_failed_read_app. exact He.
Qed.

Lemma variable_messages_take_their_length_witness :
  dispatch 2 true
    (mkWorld [RdData [0]; RdData [1; 2]; RdData []] [])
  = ([EvRead 1 1; EvRead 2 2; EvRead 4 0], Val (Continue true) (mkWorld [] []))
  /\
  exists padb hi lo e1 w1 e2 w2 e3 b,
    read_all 1 (mkWorld [RdData [0]; RdData [1; 2]; RdData []] [])
    = (e1, Val (0, padb) w1) /\
    read_all 2 w1 = (e2, Val (0, [hi; lo]) w2) /\
    enc_loop (Z.to_nat (hi mod 256 * 256 + lo mod 256)) w2
    = (e3, Val b (mkWorld [] [])) /\
    [EvRead 1 1; EvRead 2 2; EvRead 4 0] = e1 ++ e2 ++ e3 /\ true = true /\
    (b = true ->
     consumed [EvRead 1 1; EvRead 2 2; EvRead 4 0]
     = 3 + 4 * (hi mod 256 * 256 + lo mod 256)) /\
    (b = false ->
     consumed [EvRead 1 1; EvRead 2 2; EvRead 4 0]
     < 3 + 4 * (hi mod 256 * 256 + lo mod 256) /\
     ends_failed_read [EvRead 1 1; EvRead 2 2; EvRead 4 0]).
Proof.
  split; [reflexivity|].
  exact (proj1 variable_messages_take_their_length true
           (mkWorld [RdData [0]; RdData [1; 2]; RdData []] [])
           _ true (mkWorld [] []) eq_refl).
Defined.

(** ** A pass of a ready session *)

Lemma writes_no_sleep evs :
  forallb is_write evs = true ->
  filter is_sleep evs = [] /\ filter is_select evs = [].
Proof.
  induction evs as [|e evs IH]; [auto|]. cbn [forallb].
  intros H. apply andb_prop in H as [He H]. destruct (IH H) as [H1 H2].
  destruct e; try discriminate. cbn [filter is_sleep is_select]. auto.
Qed.

Lemma send_frame_inv g fps fbmem r w e r' w' :
  send_frame g fps fbmem r w = (e, Val (Continue r') w') ->
  r' = r /\
  exists eh w1 es b,
    frame_header g w = (eh, Val false w1) /\
    scan_loop g fbmem (Z.to_nat (height g)) 0 w1 = (es, Val b w') /\
    e = eh ++ es ++ [EvSleep (frame_delay fps)].
Proof.
  unfold send_frame, msleep. intros H.
  apply bind_inv in H as (eh & f & w1 & ea & H1 & H & ->).
  destruct f; [apply ret_inv in H as (_ & Hb & _); discriminate|].
  apply bind_inv in H as (es & b & w2 & eb & H2 & H & ->).
  apply bind_inv in H as (e3 & u & w3 & ec & H3 & H & ->).
  apply emit_inv in H3 as (-> & ->).
  apply ret_inv in H as (-> & Hb & ->). inversion Hb; subst r'.
  split; [reflexivity|]. exists eh, w1, es, b. auto.
Qed.

(** A pass that goes on with [client_ready] set has sent one frame. *)
Lemma tick_frame_shape g fps fbmem s r w e w' :
  tick g fps fbmem s r w = (e, Val (Continue true) w') ->
  exists n em eh es b w1 w2,
    e = EvSelect n :: em ++ eh ++ es ++ [EvSleep (frame_delay fps)] /\
    forallb is_read em = true /\
    frame_header g w1 = (eh, Val false w2) /\
    scan_loop g fbmem (Z.to_nat (height g)) 0 w2 = (es, Val b w') /\
    forallb is_write (eh ++ es) = true /\
    sent eh = [0; 0; 0; 1] ++ [0; 0; 0; 0]
              ++ be16 (width g) ++ be16 (height g) ++ [0; 0; 0; 0] /\
    filter is_sleep e = [EvSleep (frame_delay fps)] /\
    length (filter is_select e) = 1%nat.
Proof.
  intros H.
  apply tick_inv in H as (n & em & ep & -> & H).
  assert (Hcase : exists w1,
             forallb is_read em = true /\
             pump g fps fbmem true w1 = (ep, Val (Continue true) w')).
  { destruct H as [(_ & _ & _ & Hc & _)|[(_ & _ & r1 & Hc & _)|
      [(_ & r1 & w1 & Hm & Hp)|(_ & -> & Hp)]]]; try discriminate.
    - exists w1. split.
      + eapply only_run; [apply only_client_message|exact Hm].
      + pose proof (pump_flag _ _ _ _ _ _ _ _ Hp) as Hf.
        cbn [flag_of] in Hf. subst r1. exact Hp.
    - exists w. split; [reflexivity|].
      pose proof (pump_flag _ _ _ _ _ _ _ _ Hp) as Hf.
      cbn [flag_of] in Hf. subst r. exact Hp. }
  clear H. destruct Hcase as (w1 & Hrd & Hp).
  change (pump g fps fbmem true w1) with (send_frame g fps fbmem true w1) in Hp.
  apply send_frame_inv in Hp as (_ & eh & w2 & es & b & Hh & Hs & ->).
  pose proof (only_run _ _ _ _ _ (only_frame_header g) Hh) as Hwh.
  pose proof (only_run _ _ _ _ _
                (only_scan_loop g fbmem (Z.to_nat (height g)) 0) Hs) as Hws.
  exists n, em, eh, es, b, w1, w2.
  split; [reflexivity|]. split; [exact Hrd|]. split; [exact Hh|].
  split; [exact Hs|]. split; [rewrite forallb_app, Hwh, Hws; reflexivity|].
  split.
  { rewrite (frame_header_sent _ _ _ _ Hh), !mem16_htons. reflexivity. }
  destruct (reads_no_sleep _ Hrd) as [Hr1 Hr2].
  destruct (writes_no_sleep _ Hwh) as [Hh1 Hh2].
  destruct (writes_no_sleep _ Hws) as [Hs1 Hs2].
  split.
  - cbn [filter is_sleep]. rewrite !filter_app, Hr1, Hh1, Hs1. reflexivity.
  - cbn [filter is_select]. rewrite !filter_app, Hr2, Hh2, Hs2. reflexivity.
Qed.

(** What came before the frame of such a pass: nothing, in a session that
    was ready already, or one client message. *)
Lemma tick_frame_message g fps fbmem s r w e w' :
  tick g fps fbmem s r w = (e, Val (Continue true) w') ->
  exists n em ep w1,
    e = EvSelect n :: em ++ ep /\
    ((n <> 1 /\ r = true /\ em = [] /\ w1 = w) \/
     (n = 1 /\ client_message r w = (em, Val (Continue true) w1))) /\
    send_frame g fps fbmem true w1 = (ep, Val (Continue true) w').
Proof.
  intros H.
  apply tick_inv in H as (n & em & ep & -> & H).
  destruct H as [(_ & _ & _ & Hc & _)|[(_ & _ & r1 & Hc & _)|
    [(Hn & r1 & w1 & Hm & Hp)|(Hn & -> & Hp)]]]; try discriminate.
  - pose proof (pump_flag _ _ _ _ _ _ _ _ Hp) as Hf.
    cbn [flag_of] in Hf. subst r1.
    exists n, em, ep, w1. split; [reflexivity|]. split; [right; auto|].
    exact Hp.
  - pose proof (pump_flag _ _ _ _ _ _ _ _ Hp) as Hf.
    cbn [flag_of] in Hf. subst r.
    exists n, [], ep, w. split; [reflexivity|].
    split; [left; repeat split; lia|]. exact Hp.
Qed.

(** X12. A pass that goes on to the next pass with [client_ready] set,
    be it the pass that read the first FramebufferUpdateRequest or a later
    one, has polled once, read at most one client message, and then
    written one FramebufferUpdate header announcing one rectangle of the
    full size in raw encoding, followed by scanline writes only; it has
    slept once, for [1000 / fps] ms and never for 50 ms, as its last call.
    At most one message: either [select] did not answer 1, the session
    was ready, and nothing was read before the header, which was written
    in the state the pass began in; or [select] answered 1 and what was
    read is one run of [client_message], one type byte and the payload of
    that type, after which the header was written.  A pass of a ready
    session that goes on always leaves [client_ready] set. *)
Theorem ready_pass_sends_one_frame :
  forall g fps fbmem s w,
    (forall r e w',
       tick g fps fbmem s r w = (e, Val (Continue true) w') ->
       exists n em eh es b w1 w2,
         e = EvSelect n :: em ++ eh ++ es ++ [EvSleep (frame_delay fps)] /\
         ((n <> 1 /\ r = true /\ em = [] /\ w1 = w) \/
          (n = 1 /\ client_message r w = (em, Val (Continue true) w1))) /\
         forallb is_read em = true /\
         frame_header g w1 = (eh, Val false w2) /\
         scan_loop g fbmem (Z.to_nat (height g)) 0 w2 = (es, Val b w') /\
         forallb is_write (eh ++ es) = true /\
         sent eh = [0; 0; 0; 1] ++ [0; 0; 0; 0]
                   ++ be16 (width g) ++ be16 (height g) ++ [0; 0; 0; 0] /\
         filter is_sleep e = [EvSleep (frame_delay fps)] /\
         length (filter is_select e) = 1%nat) /\
    (forall e r' w',
       tick g fps fbmem s true w = (e, Val (Continue r') w') -> r' = true).
Proof.
  intros g fps fbmem s w. split.
  - intros r e w' H.
    apply tick_frame_message in H as (n & em & ep & w1 & -> & Hm & Hp).
    assert (Hrd : forallb is_read em = true).
    { destruct Hm as [(_ & _ & -> & _)|(_ & Hm)]; [reflexivity|].
      eapply only_run; [apply only_client_message|exact Hm]. }
    apply send_frame_inv in Hp as (_ & eh & w2 & es & b & Hh & Hs & ->).
    pose proof (only_run _ _ _ _ _ (only_frame_header g) Hh) as Hwh.
    pose proof (only_run _ _ _ _ _
                  (only_scan_loop g fbmem (Z.to_nat (height g)) 0) Hs) as Hws.
    exists n, em, eh, es, b, w1, w2.
    split; [reflexivity|]. split; [exact Hm|]. split; [exact Hrd|].
    split; [exact Hh|]. split; [exact Hs|].
    split; [rewrite forallb_app, Hwh, Hws; reflexivity|].
    split.
    { rewrite (frame_header_sent _ _ _ _ Hh), !mem16_htons. reflexivity. }
    destruct (reads_no_sleep _ Hrd) as [Hr1 Hr2].
    destruct (writes_no_sleep _ Hwh) as [Hh1 Hh2].
    destruct (writes_no_sleep _ Hws) as [Hs1 Hs2].
    split.
    + cbn [filter is_sleep]. rewrite !filter_app, Hr1, Hh1, Hs1. reflexivity.
    + cbn [filter is_select]. rewrite !filter_app, Hr2, Hh2, Hs2. reflexivity.
  - intros e r' w' H. apply tick_flag in H as [H|H]; exact H.
Qed.

(** The pass that reads the first FramebufferUpdateRequest: one message,
    then one frame. *)
Lemma ready_pass_sends_one_frame_witness :
  tick demo_g 3 demo_fb SelReadable false (mkWorld demo_request (accepts 8))
  = (EvSelect 1 ::
     [EvRead 1 1; EvRead 1 1; EvRead 2 2; EvRead 2 2; EvRead 2 2; EvRead 2 2]
     ++ [EvWrite [0; 0; 0; 1] 4; EvWrite [0; 0] 2; EvWrite [0; 0] 2;
         EvWrite [0; 2] 2; EvWrite [0; 2] 2; EvWrite [0; 0; 0; 0] 4]
     ++ [EvWrite [0; 1; 2; 3; 4; 5; 6; 7] 8;
         EvWrite [12; 13; 14; 15; 16; 17; 18; 19] 8]
     ++ [EvSleep 333],
     Val (Continue true) (mkWorld [] [])) /\
  exists n em eh es b w1 w2,
    EvSelect 1 ::
     [EvRead 1 1; EvRead 1 1; EvRead 2 2; EvRead 2 2; EvRead 2 2; EvRead 2 2]
     ++ [EvWrite [0; 0; 0; 1] 4; EvWrite [0; 0] 2; EvWrite [0; 0] 2;
         EvWrite [0; 2] 2; EvWrite [0; 2] 2; EvWrite [0; 0; 0; 0] 4]
     ++ [EvWrite [0; 1; 2; 3; 4; 5; 6; 7] 8;
         EvWrite [12; 13; 14; 15; 16; 17; 18; 19] 8]
     ++ [EvSleep 333]
    = EvSelect n :: em ++ eh ++ es ++ [EvSleep (frame_delay 3)] /\
    ((n <> 1 /\ false = true /\ em = [] /\
      w1 = mkWorld demo_request (accepts 8)) \/
     (n = 1 /\
      client_message false (mkWorld demo_request (accepts 8))
      = (em, Val (Continue true) w1))) /\
    forallb is_read em = true /\
    frame_header demo_g w1 = (eh, Val false w2) /\
    scan_loop demo_g demo_fb (Z.to_nat (height demo_g)) 0 w2
    = (es, Val b (mkWorld [] [])) /\
    forallb is_write (eh ++ es) = true /\
    sent eh = [0; 0; 0; 1] ++ [0; 0; 0; 0]
              ++ be16 (width demo_g) ++ be16 (height demo_g) ++ [0; 0; 0; 0] /\
    filter is_sleep
      (EvSelect 1 ::
       [EvRead 1 1; EvRead 1 1; EvRead 2 2; EvRead 2 2; EvRead 2 2; EvRead 2 2]
       ++ [EvWrite [0; 0; 0; 1] 4; EvWrite [0; 0] 2; EvWrite [0; 0] 2;
           EvWrite [0; 2] 2; EvWrite [0; 2] 2; EvWrite [0; 0; 0; 0] 4]
       ++ [EvWrite [0; 1; 2; 3; 4; 5; 6; 7] 8;
           EvWrite [12; 13; 14; 15; 16; 17; 18; 19] 8]
       ++ [EvSleep 333])
    = [EvSleep (frame_delay 3)] /\
    length (filter is_select
      (EvSelect 1 ::
       [EvRead 1 1; EvRead 1 1; EvRead 2 2; EvRead 2 2; EvRead 2 2; EvRead 2 2]
       ++ [EvWrite [0; 0; 0; 1] 4; EvWrite [0; 0] 2; EvWrite [0; 0] 2;
           EvWrite [0; 2] 2; EvWrite [0; 2] 2; EvWrite [0; 0; 0; 0] 4]
       ++ [EvWrite [0; 1; 2; 3; 4; 5; 6; 7] 8;
           EvWrite [12; 13; 14; 15; 16; 17; 18; 19] 8]
       ++ [EvSleep 333])) = 1%nat.
Proof.
  split; [reflexivity|].
  exact (proj1 (ready_pass_sends_one_frame demo_g 3 demo_fb SelReadable
                  (mkWorld demo_request (accepts 8)))
           false _ (mkWorld [] []) eq_refl).
Defined.

(** ** The accept loop *)

Lemma accept_loop_conn g fps fbmem malloc_ok sel w accs :
  accept_loop g fps fbmem (AccConn malloc_ok sel w :: accs) =
  match session g fps fbmem malloc_ok sel w with
  | (evs, Val _ _) =>
      let (rest, st) := accept_loop g fps fbmem accs in (evs :: rest, st)
  | (evs, Pending) => ([evs], InSession)
  end.
Proof. reflexivity. Qed.

Lemma accept_loop_skips_eintr g fps fbmem accs :
  accept_loop g fps fbmem (filter (fun a => negb (is_eintr a)) accs)
  = accept_loop g fps fbmem accs.
Proof.
  induction accs as [|a accs IH]; [reflexivity|].
  destruct a as [malloc_ok sel w|e]; cbn [filter is_eintr negb].
  - rewrite !accept_loop_conn, IH. reflexivity.
  - cbn [accept_loop]. destruct (e =? EINTR) eqn:He; cbn [negb].
    + exact IH.
    + cbn [accept_loop]. rewrite He. reflexivity.
Qed.

Lemma accept_loop_logs g fps fbmem accs : forall logs st,
  accept_loop g fps fbmem accs = (logs, st) ->
  logs = firstn (length logs)
                (map (conn_events g fps fbmem) (filter is_conn accs)) /\
  (st = Serving ->
   logs = map (conn_events g fps fbmem) (filter is_conn accs)) /\
  (forall c, st = Exited c ->
             c = 1 /\ exists e, e <> EINTR /\ In (AccFail e) accs).
Proof.
  induction accs as [|a accs IH]; intros logs st H.
  - inversion H; subst. repeat split; try reflexivity; discriminate.
  - destruct a as [malloc_ok sel w|e].
    + rewrite accept_loop_conn in H. cbn [filter is_conn map conn_events].
      destruct (session g fps fbmem malloc_ok sel w) as [evs [b w'|]].
      * destruct (accept_loop g fps fbmem accs) as [rest st'] eqn:E.
        inversion H; subst. destruct (IH _ _ eq_refl) as (Hp & Hs & Hx).
        cbn [fst length firstn]. split; [f_equal; exact Hp|]. split.
        -- intros Hst. f_equal. auto.
        -- intros c Hc. destruct (Hx c Hc) as (Hc1 & e & He & Hin).
           split; [exact Hc1|]. exists e. split; [exact He|right; exact Hin].
      * inversion H; subst. cbn [fst length firstn].
        split; [reflexivity|]. split; discriminate.
    + cbn [accept_loop] in H. cbn [filter is_conn].
      destruct (Z.eqb_spec e EINTR) as [He|He].
      * destruct (IH _ _ H) as (Hp & Hs & Hx). split; [exact Hp|].
        split; [exact Hs|]. intros c Hc.
        destruct (Hx c Hc) as (Hc1 & e' & He' & Hin).
        split; [exact Hc1|]. exists e'. split; [exact He'|right; exact Hin].
      * inversion H; subst. split; [reflexivity|]. split; [discriminate|].
        intros c Hc. inversion Hc; subst. split; [reflexivity|].
        exists e. split; [exact He|left; reflexivity].
Qed.

(** X13. The accept loop serves the connections one after the other:
    what it has done is the whole session of each connection accepted so
    far, in order of acceptance, each depending on its own connection
    only.  An [accept] interrupted by EINTR is repeated and changes
    nothing; any other failure of [accept] is the only way the loop ends
    the process, and the exit status is then 1. *)
Theorem accept_loop_serves_in_turn :
  forall g fps fbmem accs logs st,
    accept_loop g fps fbmem accs = (logs, st) ->
    accept_loop g fps fbmem (filter (fun a => negb (is_eintr a)) accs)
    = (logs, st) /\
    logs = firstn (length logs)
                  (map (conn_events g fps fbmem) (filter is_conn accs)) /\
    (st = Serving ->
     logs = map (conn_events g fps fbmem) (filter is_conn accs)) /\
    (forall c, st = Exited c ->
               c = 1 /\ exists e, e <> EINTR /\ In (AccFail e) accs).
Proof.
  intros g fps fbmem accs logs st H. split.
  - rewrite accept_loop_skips_eintr. exact H.
  - apply accept_loop_logs. exact H.
Qed.

Lemma accept_loop_serves_in_turn_witness :
  accept_loop demo_g 3 demo_fb
    [AccFail EINTR;
     AccConn true [] (mkWorld [RdData []] (accepts 1));
     AccFail EINTR;
     AccConn true [] (mkWorld [] [WrFail EPIPE]);
     AccFail 24;
     AccConn true [] (mkWorld [] [])]
  = ([[EvWrite ver 12; EvRead 12 0; EvClose]; [EvWrite ver (-1); EvClose]],
     Exited 1) /\
  accept_loop demo_g 3 demo_fb
    [AccConn true [] (mkWorld [RdData []] (accepts 1));
     AccConn true [] (mkWorld [] [WrFail EPIPE]);
     AccFail 24;
     AccConn true [] (mkWorld [] [])]
  = ([[EvWrite ver 12; EvRead 12 0; EvClose]; [EvWrite ver (-1); EvClose]],
     Exited 1).
Proof.
  split; [reflexivity|].
  exact (proj1 (accept_loop_serves_in_turn demo_g 3 demo_fb
           [AccFail EINTR;
            AccConn true [] (mkWorld [RdData []] (accepts 1));
            AccFail EINTR;
            AccConn true [] (mkWorld [] [WrFail EPIPE]);
            AccFail 24;
            AccConn true [] (mkWorld [] [])]
           _ (Exited 1) eq_refl)).
Defined.

(** ** A scanline write that fails *)

Lemma scan_loop_break g fbmem n : forall y w e w',
  scan_loop g fbmem n y w = (e, Val false w') ->
  ends_failed_write e /\
  exists tl,
    flat_map (copy_line g fbmem) (rows y n) = sent e ++ tl /\ tl <> [].
Proof.
  induction n as [|n IH]; intros y w e w' H; cbn [scan_loop] in H.
  - apply ret_inv in H as (_ & Hb & _). discriminate.
  - apply bind_inv in H as (e1 & rc & w1 & e2 & H1 & H2 & ->).
    cbn [rows flat_map].
    destruct (Z.eqb_spec rc 0) as [->|Hrc]; cbn [negb] in H2.
    + apply write_all_cases in H1 as [_ [[_ Hs]|[? _]]]; [|discriminate].
      destruct (IH _ _ _ _ H2) as ((pre & p & m & -> & Hm) & tl & Htl & Hne).
      split.
      * exists (e1 ++ pre), p, m. rewrite app_assoc. auto.
      * exists tl. rewrite sent_app, Hs, <- app_assoc, <- Htl. auto.
    + apply ret_inv in H2 as (-> & _ & ->). rewrite app_nil_r.
      pose proof (write_all_cases _ _ _ _ _ H1) as [_ [[Hz _]|[_ Hf]]];
        [contradiction|].
      split; [exact Hf|].
      unfold write_all in H1.
      destruct (write_loop (wrq w) (copy_line g fbmem y))
        as [e0 [[c q']|]] eqn:E; [|discriminate].
      inversion H1; subst.
      destruct (write_loop_fail _ _ _ _ _ E Hrc) as (tl & Htl & Hne).
      exists (tl ++ flat_map (copy_line g fbmem) (rows (y + 1) n)).
      rewrite app_assoc, <- Htl. split; [reflexivity|].
      destruct tl; [contradiction|discriminate].
Qed.

(** X14. When a scanline write fails, the frame stops there: the failed
    [write] is the last call of the scanline loop, no later row is
    written, and what the client got of the pixel data is a front part of
    it that stops short of its end. *)
Theorem failed_scanline_ends_frame :
  forall g fbmem n y w e w',
    scan_loop g fbmem n y w = (e, Val false w') ->
    ends_failed_write e /\
    exists tl,
      flat_map (copy_line g fbmem) (rows y n) = sent e ++ tl /\ tl <> [].
Proof. intros g fbmem n y w e w'. apply scan_loop_break. Qed.

Lemma failed_scanline_ends_frame_witness :
  scan_loop demo_g demo_fb 2 0 (mkWorld [] [WrAccept 3; WrFail EPIPE])
  = ([EvWrite [0; 1; 2; 3; 4; 5; 6; 7] 3; EvWrite [3; 4; 5; 6; 7] (-1)],
     Val false (mkWorld [] [])) /\
  ends_failed_write
    [EvWrite [0; 1; 2; 3; 4; 5; 6; 7] 3; EvWrite [3; 4; 5; 6; 7] (-1)].
Proof.
  split; [reflexivity|].
  exact (proj1 (failed_scanline_ends_frame demo_g demo_fb 2 0
           (mkWorld [] [WrAccept 3; WrFail EPIPE])
           _ (mkWorld [] []) eq_refl)).
Defined.

(** ** What the handshake does not look at *)

Lemma bind_assoc {A B C} (m : io A) (f : A -> io B) (k : B -> io C) w :
  bind (bind m f) k w = bind m (fun a => bind (f a) k) w.
Proof.
  unfold bind. destruct (m w) as [e1 [a w1|]]; [|reflexivity].
  destruct (f a w1) as [e2 [b w2|]]; [|reflexivity].
  destruct (k b w2) as [e3 r]. rewrite app_assoc. reflexivity.
Qed.

Lemma bind_ret_l {A B} (a : A) (k : A -> io B) w : bind (ret a) k w = k a w.
Proof. unfold bind, ret. destruct (k a w). reflexivity. Qed.

Lemma same_run_refl {A} (x : list event * res A) : same_run x x.
Proof. split; reflexivity. Qed.

(** The same write, then runs that agree: runs that agree. *)
Lemma same_run_write {B} buf (k : Z -> io B) rq rq' wq :
  (forall rc q1, same_run (k rc (mkWorld rq q1)) (k rc (mkWorld rq' q1))) ->
  same_run (bind (write_all buf) k (mkWorld rq wq))
           (bind (write_all buf) k (mkWorld rq' wq)).
Proof.
  intros Hk. unfold bind, write_all. cbn [rdq wrq].
  destruct (write_loop wq buf) as [e [[rc q1]|]]; [|apply same_run_refl].
  destruct (Hk rc q1) as [H1 H2].
  destruct (k rc (mkWorld rq q1)) as [e2 r2].
  destruct (k rc (mkWorld rq' q1)) as [e2' r2']. cbn [fst snd] in *.
  split; cbn [fst snd]; congruence.
Qed.

(** A read that brings [n] bytes at once, whatever they are. *)
Lemma same_run_read {B} n bs bs' (k : Z * list byte -> io B) q q' wq :
  length bs = n -> length bs' = n -> n <> O ->
  same_run (k (0, bs) (mkWorld q wq)) (k (0, bs') (mkWorld q' wq)) ->
  same_run (bind (read_all (Z.of_nat n)) k (mkWorld (RdData bs :: q) wq))
           (bind (read_all (Z.of_nat n)) k (mkWorld (RdData bs' :: q') wq)).
Proof.
  intros Hb Hb' Hn [H1 H2]. unfold bind.
  rewrite (read_all_len n bs), (read_all_len n bs') by assumption.
  destruct (k (0, bs) (mkWorld q wq)) as [e2 r2].
  destruct (k (0, bs') (mkWorld q' wq)) as [e2' r2']. cbn [fst snd] in *.
  split; cbn [fst snd]; congruence.
Qed.

(** X15. The handshake does not look at the client's version string nor
    at its shared flag: with any two version strings of 12 bytes and any
    two shared flags, each arriving in one read, and the same answers to
    every other call, the handshake makes the same calls and ends in the
    same way. *)
Theorem handshake_ignores_version_and_shared :
  forall g cver cver' sh sh' q wq,
    length cver = 12%nat -> length cver' = 12%nat ->
    fst (handshake g
           (mkWorld (RdData cver :: RdData [1] :: RdData [sh] :: q) wq))
    = fst (handshake g
             (mkWorld (RdData cver' :: RdData [1] :: RdData [sh'] :: q) wq)) /\
    val_of (snd (handshake g
           (mkWorld (RdData cver :: RdData [1] :: RdData [sh] :: q) wq)))
    = val_of (snd (handshake g
             (mkWorld (RdData cver' :: RdData [1] :: RdData [sh'] :: q) wq))).
Proof.
  intros g cver cver' sh sh' q wq Hc Hc'.
  change (same_run
    (handshake g (mkWorld (RdData cver :: RdData [1] :: RdData [sh] :: q) wq))
    (handshake g
       (mkWorld (RdData cver' :: RdData [1] :: RdData [sh'] :: q) wq))).
  unfold handshake, negotiate, wfail. rewrite !bind_assoc.
  apply same_run_write. intros rc1 q1. rewrite !bind_ret_l.
  destruct (negb (rc1 =? 0)); [split; reflexivity|].
  rewrite !bind_assoc.
  apply (same_run_read 12 cver cver'); [assumption|assumption|discriminate|].
  cbn [fst Z.eqb negb]. rewrite !bind_assoc.
  apply same_run_write. intros rc2 q2. rewrite !bind_ret_l.
  destruct (negb (rc2 =? 0)); [split; reflexivity|].
  rewrite !bind_assoc.
  apply (same_run_read 1 [1] [1]); [reflexivity|reflexivity|discriminate|].
  cbn [fst snd Z.eqb Pos.eqb negb nth]. rewrite !bind_ret_l.
  cbn [Z.eqb Pos.eqb negb].
  unfold server_init, wfail. cbv zeta. rewrite !bind_assoc.
  apply same_run_write. intros rc3 q3. rewrite !bind_ret_l.
  destruct (negb (rc3 =? 0)); [split; reflexivity|].
  apply (same_run_read 1 [sh] [sh']); [reflexivity|reflexivity|discriminate|].
  apply same_run_refl.
Qed.

Lemma handshake_ignores_version_and_shared_witness :
  (length (bytes_of_string ("RFB 003.008" ++ LF)) = 12%nat /\
   length (repeat 0 12) = 12%nat) /\
  fst (handshake demo_g
         (mkWorld [RdData (bytes_of_string ("RFB 003.008" ++ LF));
                   RdData [1]; RdData [0]] (accepts 8)))
  = fst (handshake demo_g
           (mkWorld [RdData (repeat 0 12); RdData [1]; RdData [1]]
                    (accepts 8))).
Proof.
  split; [split; reflexivity|].
  exact (proj1 (handshake_ignores_version_and_shared demo_g
           (bytes_of_string ("RFB 003.008" ++ LF)) (repeat 0 12) 0 1 []
           (accepts 8) eq_refl eq_refl)).
Defined.

(** ** Pacing, and a failed [select] *)

Lemma loop_at_ready g fps fbmem sel r w evs sel' r' w' :
  loop_at g fps fbmem sel r w evs sel' r' w' ->
  r = true ->
  r' = true /\
  filter is_sleep evs
  = repeat (EvSleep (frame_delay fps)) (length sel - length sel') /\
  length (filter is_select evs) = (length sel - length sel')%nat.
Proof.
  induction 1 as [sel r w|s sel r w e r1 w1 evs sel2 r2 w2 Ht Hl IH];
    intros Hr.
  - rewrite Nat.sub_diag. auto.
  - subst r.
    assert (r1 = true) as ->
      by (apply tick_flag in Ht as [Ht|Ht]; exact Ht).
    destruct (IH eq_refl) as (Hr2 & Hsl & Hse).
    destruct (tick_frame_shape _ _ _ _ _ _ _ _ Ht)
      as (n & em & eh & es & b & w3 & w4 & _ & _ & _ & _ & _ & _ & Hs1 & Hs2).
    pose proof (loop_at_length _ _ _ _ _ _ _ _ _ _ Hl) as Hlen.
    replace (length (s :: sel) - length sel2)%nat
      with (S (length sel - length sel2)) by (cbn [length]; lia).
    split; [exact Hr2|]. split.
    + rewrite filter_app, Hs1, Hsl. reflexivity.
    + rewrite filter_app, length_app, Hs2, Hse. reflexivity.
Qed.

(** X16. Frames are paced: in a ready session, any number of complete
    passes contain as many sleeps as passes, each of [1000 / fps] ms, and
    as many polls; so two frames are always separated by such a sleep, and
    the session stays ready throughout. *)
Theorem ready_loop_paces_frames :
  forall g fps fbmem sel w evs sel' r' w',
    loop_at g fps fbmem sel true w evs sel' r' w' ->
    r' = true /\
    filter is_sleep evs
    = repeat (EvSleep (frame_delay fps)) (length sel - length sel') /\
    length (filter is_select evs) = (length sel - length sel')%nat.
Proof.
  intros g fps fbmem sel w evs sel' r' w' H.
  eapply loop_at_ready; eauto.
Qed.

Lemma tick_select_fails g fps fbmem r e w :
  e <> EINTR ->
  tick g fps fbmem (SelFail e) r w = ([EvSelect (-1)], Val (Break r) w).
Proof.
  intros He. rewrite tick_fail. unfold bind at 1. cbn [emit].
  destruct (Z.eqb_spec e EINTR); [contradiction|]. reflexivity.
Qed.

(** X17. A [select] that fails.  With EINTR the pass goes on as if
    nothing were pending: no message is read, and the rest of the pass is
    the 50 ms sleep or the frame.  With any other error the pass ends the
    loop at once, and the session, at whatever pass this happens, goes to
    [free] and [close] without reading, writing or sleeping again. *)
Theorem select_failure_ends_session :
  forall g fps fbmem,
    (forall r w,
       tick g fps fbmem (SelFail EINTR) r w
       = (EvSelect (-1) :: fst (pump g fps fbmem r w),
          snd (pump g fps fbmem r w))) /\
    (forall r e w,
       e <> EINTR ->
       tick g fps fbmem (SelFail e) r w = ([EvSelect (-1)], Val (Break r) w)) /\
    (forall sel w e1 w1 evs sel' r' w2 e,
       handshake g w = (e1, Val true w1) ->
       loop_at g fps fbmem sel false w1 evs (SelFail e :: sel') r' w2 ->
       e <> EINTR ->
       session g fps fbmem true sel w
       = (e1 ++ (evs ++ [EvSelect (-1)]) ++ [EvFree; EvClose], Val true w2)).
Proof.
  intros g fps fbmem. split; [|split].
  - intros r w. rewrite tick_fail. unfold bind at 1. cbn [emit].
    change (negb (EINTR =? EINTR)) with false. cbv iota.
    rewrite bind_ret_l. destruct (pump g fps fbmem r w). reflexivity.
  - intros r e w. apply tick_select_fails.
  - intros sel w e1 w1 evs sel' r' w2 e Hh Hl He.
    apply session_left with (w1 := w1) (r := r'); [exact Hh|].
    rewrite (client_loop_at _ _ _ _ _ _ _ _ _ _ Hl).
    rewrite (client_loop_break _ _ _ _ _ _ _ _ _ _
               (tick_select_fails g fps fbmem r' e w2 He)).
    reflexivity.
Qed.

Lemma select_failure_ends_session_witness :
  9 <> EINTR /\
  tick demo_g 3 demo_fb (SelFail 9) true (mkWorld [RdData [3]] (accepts 8))
  = ([EvSelect (-1)], Val (Break true) (mkWorld [RdData [3]] (accepts 8))).
Proof.
  split; [discriminate|].
  refine (proj1 (proj2 (select_failure_ends_session demo_g 3 demo_fb))
            true 9 (mkWorld [RdData [3]] (accepts 8)) _).
  discriminate.
Defined.

Lemma ready_loop_paces_frames_witness :
  filter is_sleep
    (fst (tick demo_g 3 demo_fb SelIdle true (mkWorld [] (accepts 8))) ++ [])
  = [EvSleep 333].
Proof.
  exact (proj1 (proj2
    (ready_loop_paces_frames demo_g 3 demo_fb [SelIdle]
       (mkWorld [] (accepts 8)) _ [] true (mkWorld [] [])
       (loop_pass demo_g 3 demo_fb SelIdle [] true (mkWorld [] (accepts 8))
          (fst (tick demo_g 3 demo_fb SelIdle true (mkWorld [] (accepts 8))))
          true (mkWorld [] []) [] [] true (mkWorld [] [])
          eq_refl
          (loop_here demo_g 3 demo_fb [] true (mkWorld [] [])))))).
Defined.

(** * The frame rate, from the command line to the sleep *)

(** ** [atoi] *)

Lemma to_int_small x : INT_MIN <= x <= INT_MAX -> to_int x = x.
Proof.
  unfold INT_MIN, INT_MAX, to_int. intros H.
  rewrite Z.mod_small by lia. lia.
Qed.

Lemma atoi_in_range s : INT_MIN <= decimal s <= INT_MAX -> atoi s = decimal s.
Proof.
  intros H. unfold atoi, strtol.
  assert (Hs : Z.max LONG_MIN (Z.min LONG_MAX (decimal s)) = decimal s)
    by (unfold INT_MIN, INT_MAX, LONG_MIN, LONG_MAX in *; lia).
  rewrite Hs. apply to_int_small. exact H.
Qed.

Lemma atoi_is_int s : INT_MIN <= atoi s <= INT_MAX.
Proof.
  unfold atoi, to_int, INT_MIN, INT_MAX.
  pose proof (Z.mod_pos_bound (strtol s + 2147483648) 4294967296 eq_refl).
  lia.
Qed.

(** ** The rate [main] serves at *)

Lemma startup_ready atoi argv env evs f g :
  startup atoi argv env = (evs, Ready f g) ->
  exists c,
    parse_args atoi (tl argv) defaults = Some c /\
    f = clamp_fps (cfg_fps c) /\
    forall fbmem accs,
      program atoi argv env fbmem accs = (evs, accept_loop g f fbmem accs).
Proof.
  intros H. unfold program. rewrite H. unfold startup in H.
  destruct (parse_args atoi (tl argv) defaults) as [c|]; [|discriminate].
  exists c. split; [reflexivity|].
  destruct (open_ok env); cbn [negb] in H; [|discriminate].
  destruct (vinfo_ok env); cbn [negb] in H; [|discriminate].
  destruct (finfo_ok env); cbn [negb] in H; [|discriminate].
  destruct (fb_bits_per_pixel env =? 32); cbn [negb] in H; [|discriminate].
  destruct (mmap_ok env); cbn [negb] in H; [|discriminate].
  destruct (socket_ok env); cbn [negb] in H; [|discriminate].
  destruct (bind_ok env); cbn [negb] in H; [|discriminate].
  destruct (listen_ok env); cbn [negb] in H; [|discriminate].
  inversion H; subst. auto.
Qed.

(** The frame and its sleep, from the two runs it is made of. *)
Lemma send_frame_run g fps fbmem r w eh w1 es b w2 :
  frame_header g w = (eh, Val false w1) ->
  scan_loop g fbmem (Z.to_nat (height g)) 0 w1 = (es, Val b w2) ->
  send_frame g fps fbmem r w
  = (eh ++ es ++ [EvSleep (frame_delay fps)], Val (Continue r) w2).
Proof.
  intros Hh Hs. unfold send_frame.
  rewrite (bind_val _ _ _ _ _ _ Hh). cbv iota.
  rewrite (bind_val _ _ _ _ _ _ Hs). reflexivity.
Qed.

(** Beyond the range of [int] the rate is not the clamp of the integer
    given.  [--fps 4294967297] spells an integer above 15, whose clamp is
    15, yet [atoi] hands [main] the value 1: the rate is 1 and each frame
    is followed by a sleep of 1000 ms, not of 66. *)
Lemma C7_fps_beyond_int :
  decimal "4294967297" = 4294967297 /\
  Z.max 1 (Z.min 15 (decimal "4294967297")) = 15 /\
  atoi "4294967297" = 1 /\
  startup atoi ["fb0rfb"; "--fps"; "4294967297"]%string demo_env
  = ([SuOpen "/dev/fb0"; SuGetV; SuGetF; SuMmap; SuSocket; SuReuseAddr;
      SuBind 5900; SuListen 1], Ready 1 demo_g) /\
  map (filter is_sleep)
    (fst (snd (program atoi ["fb0rfb"; "--fps"; "4294967297"]%string
                 demo_env demo_fb
                 [AccConn true [SelReadable; SelIdle]
                    (mkWorld (demo_hello ++ demo_request) (accepts 24))])))
  = [[EvSleep 1000; EvSleep 1000]] /\
  frame_delay 15 = 66.
Proof. repeat split; vm_compute; reflexivity. Qed.

(** C7. The rate [main] goes on with is the [int] that [atoi] made of the
    [--fps] argument, clamped to [1, 15]: 1 for anything below 1, 15 for
    anything above 15, the value itself otherwise.  That [int] is the
    integer the argument spells whenever this integer is within the range
    of [int].  The clamped rate is the rate handed to every session, and
    every frame, header and scanlines, is followed by one sleep of the
    integer quotient of 1000 by it, in milliseconds, as the last call of
    its pass. *)
Theorem C7_frame_rate :
  forall fps,
    clamp_fps fps = Z.max 1 (Z.min 15 fps) /\
    1 <= clamp_fps fps <= 15 /\
    (fps <= 0 -> clamp_fps fps = 1) /\
    (fps > 15 -> clamp_fps fps = 15) /\
    (1 <= fps <= 15 -> clamp_fps fps = fps) /\
    frame_delay (clamp_fps fps) = 1000 / clamp_fps fps /\
    (forall g fbmem accs,
       main fps 32 g fbmem accs = accept_loop g (clamp_fps fps) fbmem accs) /\
    (forall g fbmem r w eh w1 es b w2,
       frame_header g w = (eh, Val false w1) ->
       scan_loop g fbmem (Z.to_nat (height g)) 0 w1 = (es, Val b w2) ->
       send_frame g (clamp_fps fps) fbmem r w
       = (eh ++ es ++ [EvSleep (1000 / clamp_fps fps)],
          Val (Continue r) w2)) /\
    (forall g fbmem r w e r' w',
       send_frame g (clamp_fps fps) fbmem r w = (e, Val (Continue r') w') ->
       (exists pre, e = pre ++ [EvSleep (1000 / clamp_fps fps)]) /\
       filter is_sleep e = [EvSleep (1000 / clamp_fps fps)]) /\
    (forall g fbmem s r w e w',
       tick g (clamp_fps fps) fbmem s r w = (e, Val (Continue true) w') ->
       (exists pre, e = pre ++ [EvSleep (1000 / clamp_fps fps)]) /\
       filter is_sleep e = [EvSleep (1000 / clamp_fps fps)]) /\
    (forall s,
       INT_MIN <= decimal s <= INT_MAX -> decimal s = fps -> atoi s = fps) /\
    (forall prog args s c0 env evs f g,
       parse_args atoi args defaults = Some c0 ->
       atoi s = fps ->
       startup atoi (prog :: args ++ ["--fps"%string; s]) env
       = (evs, Ready f g) ->
       f = clamp_fps fps /\
       forall fbmem accs,
         program atoi (prog :: args ++ ["--fps"%string; s]) env fbmem accs
         = (evs, accept_loop g (clamp_fps fps) fbmem accs)).
Proof.
  intros fps.
  assert (Hc : clamp_fps fps = Z.max 1 (Z.min 15 fps)).
  { unfold clamp_fps. destruct (Z.ltb_spec fps 1).
    - change (1 >? 15) with false. cbv iota. lia.
    - destruct (Z.gtb_spec fps 15); lia. }
  assert (Hr : 1 <= clamp_fps fps <= 15) by lia.
  assert (Hd : frame_delay (clamp_fps fps) = 1000 / clamp_fps fps).
  { unfold frame_delay. apply Z.quot_div_nonneg; lia. }
  split; [exact Hc|]. split; [exact Hr|].
  split; [lia|]. split; [lia|]. split; [lia|]. split; [exact Hd|].
  split; [reflexivity|].
  split; [|split; [|split; [|split]]].
  - intros g fbmem r w eh w1 es b w2 Hh Hs. rewrite <- Hd.
    apply send_frame_run with (w1 := w1) (b := b); assumption.
  - intros g fbmem r w e r' w' H. rewrite <- Hd.
    apply send_frame_inv in H as (_ & eh & w1 & es & b & Hh & Hs & ->).
    split; [exists (eh ++ es); rewrite <- app_assoc; reflexivity|].
    pose proof (only_run _ _ _ _ _ (only_frame_header g) Hh) as Hwh.
    pose proof (only_run _ _ _ _ _
                  (only_scan_loop g fbmem (Z.to_nat (height g)) 0) Hs) as Hws.
    destruct (writes_no_sleep _ Hwh) as [Hh1 _].
    destruct (writes_no_sleep _ Hws) as [Hs1 _].
    rewrite !filter_app, Hh1, Hs1. reflexivity.
  - intros g fbmem s r w e w' H. rewrite <- Hd.
    apply tick_frame_shape in H
      as (n & em & eh & es & b & w1 & w2 & -> & _ & _ & _ & _ & _ & Hsl & _).
    split; [|exact Hsl].
    exists (EvSelect n :: em ++ eh ++ es).
    cbn [app]. rewrite <- !app_assoc. reflexivity.
  - intros s Hs <-. apply atoi_in_range. exact Hs.
  - intros prog args s c0 env evs f g Ha Hs H.
    apply startup_ready in H as (c & Hp & -> & Hprog).
    cbn [tl] in Hp. rewrite (parse_args_app _ _ _ _ _ Ha) in Hp.
    rewrite parse_args_pair in Hp.
    change (String.eqb "--fps" "-f") with false in Hp.
    change (String.eqb "--fps" "-p") with false in Hp.
    change (String.eqb "--fps" "--fps") with true in Hp.
    cbv iota in Hp. cbn [parse_args] in Hp. inversion Hp; subst c.
    cbn [cfg_fps] in *. rewrite Hs in *. split; [reflexivity|exact Hprog].
Qed.

(** [--fps 20] after [-p 5901]: the rate is 15, and a frame of the example
    device is followed by a sleep of 66 ms. *)
Lemma C7_frame_rate_witness :
  (20 > 15 /\ clamp_fps 20 = 15) /\
  (0 <= 0 /\ clamp_fps 0 = 1) /\
  (1 <= 3 <= 15 /\ clamp_fps 3 = 3) /\
  send_frame demo_g (clamp_fps 20) demo_fb true (mkWorld [] (accepts 8))
  = ([EvWrite [0; 0; 0; 1] 4; EvWrite [0; 0] 2; EvWrite [0; 0] 2;
      EvWrite [0; 2] 2; EvWrite [0; 2] 2; EvWrite [0; 0; 0; 0] 4]
     ++ [EvWrite [0; 1; 2; 3; 4; 5; 6; 7] 8;
         EvWrite [12; 13; 14; 15; 16; 17; 18; 19] 8]
     ++ [EvSleep (1000 / clamp_fps 20)],
     Val (Continue true) (mkWorld [] [])) /\
  1000 / clamp_fps 20 = 66 /\
  filter is_sleep
    (fst (tick demo_g (clamp_fps 20) demo_fb SelReadable false
            (mkWorld demo_request (accepts 8))))
  = [EvSleep (1000 / clamp_fps 20)] /\
  ((INT_MIN <= decimal "20" <= INT_MAX /\ decimal "20" = 20) /\
   atoi "20" = 20) /\
  startup atoi ["fb0rfb"; "-p"; "5901"; "--fps"; "20"]%string demo_env
  = ([SuOpen "/dev/fb0"; SuGetV; SuGetF; SuMmap; SuSocket; SuReuseAddr;
      SuBind 5901; SuListen 1], Ready 15 demo_g) /\
  15 = clamp_fps 20.
Proof.
  split; [|split; [|split; [|split; [|split; [|split; [|split; [|split]]]]]]].
  - split; [reflexivity|].
    exact ((proj1 (proj2 (proj2 (proj2 (C7_frame_rate 20))))) eq_refl).
  - split; [discriminate|].
    exact ((proj1 (proj2 (proj2 (C7_frame_rate 0)))) (Z.le_refl 0)).
  - split; [split; discriminate|].
    refine ((proj1 (proj2 (proj2 (proj2 (proj2 (C7_frame_rate 3)))))) _).
    split; discriminate.
  - exact ((proj1 (proj2 (proj2 (proj2 (proj2 (proj2 (proj2 (proj2
    (C7_frame_rate 20)))))))))
             demo_g demo_fb true (mkWorld [] (accepts 8))
             _ (mkWorld [] (accepts 2)) _ true (mkWorld [] [])
             eq_refl eq_refl).
  - reflexivity.
  - exact (proj2 ((proj1 (proj2 (proj2 (proj2 (proj2 (proj2 (proj2 (proj2
    (proj2 (proj2 (C7_frame_rate 20)))))))))))
             demo_g demo_fb SelReadable false
             (mkWorld demo_request (accepts 8)) _ (mkWorld [] [])
             eq_refl)).
  - split; [split; [split; discriminate|reflexivity]|].
    refine ((proj1 (proj2 (proj2 (proj2 (proj2 (proj2 (proj2 (proj2 (proj2
      (proj2 (proj2 (C7_frame_rate 20))))))))))))
             "20"%string _ eq_refl).
    split; discriminate.
  - reflexivity.
  - exact (proj1 ((proj2 (proj2 (proj2 (proj2 (proj2 (proj2 (proj2 (proj2
    (proj2 (proj2 (proj2 (C7_frame_rate 20))))))))))))
             "fb0rfb"%string ["-p"; "5901"]%string "20"%string
             (mkConfig "/dev/fb0" 5901 3) demo_env
             [SuOpen "/dev/fb0"; SuGetV; SuGetF; SuMmap; SuSocket;
              SuReuseAddr; SuBind 5901; SuListen 1]
             15 demo_g eq_refl eq_refl eq_refl)).
Defined.
